(** * Client-side scripts of the portfolio site: a shallow embedding

    The site ships four scripts: the timeline accordion
    ([assets/js/timeline.js]), the canvas particle background, the AJAX
    page-transition layer, and the shared utilities.  Each script is a
    closure over a handful of module variables that reacts to DOM events,
    timers and fetch completions on the browser's single UI thread.

    Every script is embedded as a pure function on an explicit record that
    holds the module variables together with the slice of the browser state
    the script reads or writes.  A JavaScript exception is a [Throw]
    completion; a pending [setTimeout], [requestAnimationFrame] or [fetch]
    is an entry of a task list that the environment settles later. *)

From stdpp Require Import base gmap sets list strings.
From Stdlib Require Import ZArith QArith Qround Lia.

#[export] Set Warnings "-clear-no-such-hyp".
Local Open Scope string_scope.

(** ** JavaScript completions *)

Inductive js_error : Type :=
| TypeError
| ReferenceError
| SecurityError
| IndexSizeError
| SyntaxError.

Inductive completion (A : Type) : Type :=
| Normal (a : A)
| Throw (e : js_error).
Arguments Normal {A} a.
Arguments Throw {A} e.

(** ** DOMTokenList

    [el.classList] is a set of tokens; [add], [remove] and [contains] are
    the only operations the scripts use. *)

Definition classList_add (c : string) (cl : gset string) : gset string :=
  {[ c ]} ∪ cl.
Definition classList_remove (c : string) (cl : gset string) : gset string :=
  cl ∖ {[ c ]}.
Definition classList_contains (c : string) (cl : gset string) : bool :=
  bool_decide (c ∈ cl).

(** ** Timeline accordion ([assets/js/timeline.js]) *)

Module Timeline.

(** One [.timeline-item]: its class list, whether it has a
    [.timeline-header] descendant, and the bottom edge of its bounding
    rectangle. *)
Record item : Type := Item {
  classList : gset string;
  has_header : bool;
  bottom : Q
}.

(** The slice of the document the script touches.  [items] is the
    NodeList of [querySelectorAll('.timeline-item')] in document order,
    an item being identified by its index; [container] is the bottom edge
    of the [.timeline-container] rectangle, [None] when the page has no
    such element; [timers] are the pending 100 ms callbacks (each closes
    over its item); [scrolled] logs the [scrollIntoView] calls. *)
Record dom : Type := Dom {
  items : list item;
  container : option Q;
  timers : list nat;
  scrolled : list nat
}.

Definition set_items (l : list item) (d : dom) : dom :=
  Dom l (container d) (timers d) (scrolled d).

Definition item_add (c : string) (it : item) : item :=
  Item (classList_add c (classList it)) (has_header it) (bottom it).
Definition item_remove (c : string) (it : item) : item :=
  Item (classList_remove c (classList it)) (has_header it) (bottom it).
Definition is_active (it : item) : bool :=
  classList_contains "active" (classList it).

(** [timelineItems.forEach(otherItem => { if (otherItem !== item)
    otherItem.classList.remove('active') })] *)
Definition close_others (i : nat) (l : list item) : list item :=
  imap (fun j other => if decide (j = i) then other else item_remove "active" other) l.

(** [document.querySelectorAll('.timeline-item').forEach(i =>
    i.classList.remove('active'))] *)
Definition close_all (l : list item) : list item :=
  item_remove "active" <$> l.

(** [initTimeline]: the items that get a click listener on their header,
    which are the items that have one.  With no item at all the function
    returns at once. *)
Definition initTimeline (d : dom) : list nat :=
  omap id (imap (fun i it => if has_header it then Some i else None) (items d)).

(** The click listener [initTimeline] registers on the header of item
    [i].  [in_link] is [e.target.closest('.timeline-link')] being
    non-null. *)
Definition header_click (i : nat) (in_link : bool) (d : dom) : dom :=
  if in_link then d
  else match items d !! i with
       | None => d
       | Some it =>
           let isActive := is_active it in
           let closed := close_others i (items d) in
           if isActive
           then set_items (alter (item_remove "active") i closed) d
           else Dom (alter (item_add "active") i closed)
                    (container d) (timers d ++ [i]) (scrolled d)
       end.

(** The 100 ms callback of [header_click].  [container] is dereferenced
    without a null test. *)
Definition scroll_callback (i : nat) (d : dom) : completion dom :=
  match items d !! i with
  | None => Normal d
  | Some it =>
      match container d with
      | None => Throw TypeError
      | Some containerBottom =>
          if Qle_bool (bottom it) containerBottom
          then Normal d
          else Normal (Dom (items d) (container d) (timers d) (scrolled d ++ [i]))
      end
  end.

(** The environment fires the oldest pending timer. *)
Definition fire_timer (d : dom) : completion dom :=
  match timers d with
  | [] => Normal d
  | i :: rest => scroll_callback i (Dom (items d) (container d) rest (scrolled d))
  end.

(** The listener the transition layer registers on every header after a
    content swap ([reinitializeScripts]). *)
Definition header_click_reinit (i : nat) (d : dom) : dom :=
  match items d !! i with
  | None => d
  | Some it =>
      let isActive := is_active it in
      let closed := close_all (items d) in
      if negb isActive
      then set_items (alter (item_add "active") i closed) d
      else set_items closed d
  end.

(** The two listeners of the repository. *)
Inductive listener : Type :=
| FromInitTimeline (in_link : bool)
| FromReinitialize.

Definition click (k : listener) (i : nat) (d : dom) : dom :=
  match k with
  | FromInitTimeline in_link => header_click i in_link d
  | FromReinitialize => header_click_reinit i d
  end.

(** A click that reaches the toggle: the reinitialised listener always
    does, the original one unless the target sits in a [.timeline-link]. *)
Definition toggles (k : listener) : bool :=
  match k with
  | FromInitTimeline in_link => negb in_link
  | FromReinitialize => true
  end.

Definition active_at (l : list item) (j : nat) : bool :=
  match l !! j with
  | Some it => is_active it
  | None => false
  end.

Definition active_count (l : list item) : nat :=
  length (filter (fun it => is_active it = true) l).

End Timeline.

(** ** Particle background (canvas starfield) *)

Module Particles.

(** *** Particle records, field for field as the object literals *)

Record rgb : Type := Rgb { r : Z; g : Z; b : Z }.

Inductive layer : Type := distant | mid | near.

Record star : Type := Star {
  star_x : Q; star_y : Q;
  star_size : Q;
  star_color : option string;
  twinkleSpeed : Q; twinklePhase : Q;
  minOpacity : Q; maxOpacity : Q;
  star_vx : Q; star_vy : Q;
  initialDistance : Q;
  star_layer : layer
}.

Record nebula : Type := Nebula {
  nebula_x : Q; nebula_y : Q;
  nebula_size : Q;
  nebula_color : option rgb;
  nebula_opacity : Q;
  nebula_pulseSpeed : Q; nebula_pulsePhase : Q;
  nebula_vx : Q; nebula_vy : Q
}.

Record cluster : Type := Cluster {
  cluster_x : Q; cluster_y : Q;
  cluster_size : Q;
  cluster_color : option rgb;
  cluster_opacity : Q;
  cluster_pulseSpeed : Q; cluster_pulsePhase : Q;
  cluster_vx : Q; cluster_vy : Q;
  elongation : Q; rotation : Q
}.

Record dust : Type := Dust {
  dust_x : Q; dust_y : Q;
  dust_size : Q;
  dust_opacity : Q;
  dust_vx : Q; dust_vy : Q;
  dust_pulseSpeed : Q; dust_pulsePhase : Q
}.

(** *** The colour tables and the configuration object *)

Definition stellarColors (l : layer) : list string :=
  match l with
  | distant => ["rgba(255, 204, 111, "; "rgba(255, 166, 81, ";
                "rgba(255, 135, 94, "; "rgba(255, 189, 157, "]
  | mid => ["rgba(255, 244, 234, "; "rgba(255, 255, 255, ";
            "rgba(202, 215, 255, "; "rgba(170, 191, 255, "]
  | near => ["rgba(155, 176, 255, "; "rgba(147, 197, 253, ";
             "rgba(96, 165, 250, "; "rgba(59, 130, 246, "]
  end.

Definition nebulaColors : list rgb :=
  [Rgb 147 197 253; Rgb 96 165 250; Rgb 59 130 246; Rgb 139 92 246;
   Rgb 167 139 250; Rgb 236 72 153; Rgb 251 146 60; Rgb 34 211 238;
   Rgb 74 222 128; Rgb 244 114 182; Rgb 192 132 252].

Definition clusterColors : list rgb :=
  [Rgb 255 230 200; Rgb 200 210 255; Rgb 255 200 220; Rgb 220 255 230].

Definition distantStarCount : nat := 200.
Definition midStarCount : nat := 200.
Definition nearStarCount : nat := 100.
Definition nebulaCount : nat := 8.
Definition nebulaMinSize : Q := 250.
Definition nebulaMaxSize : Q := 600.
Definition nebulaOpacity : Q := 12 # 100.
Definition clusterCount : nat := 4.
Definition clusterMinSize : Q := 80.
Definition clusterMaxSize : Q := 150.
Definition dustCount : nat := 80.

(** *** Module variables and the browser state they live in *)

Inductive target : Type := Window | Document.
Inductive handler : Type := resizeCanvas_h | handleVisibilityChange_h | handlePageShow_h.

Record registration : Type := Registration {
  reg_target : target;
  reg_type : string;
  reg_handler : handler
}.

#[global] Instance target_eq_dec : EqDecision target.
Proof. solve_decision. Defined.
#[global] Instance handler_eq_dec : EqDecision handler.
Proof. solve_decision. Defined.
#[global] Instance registration_eq_dec : EqDecision registration.
Proof. solve_decision. Defined.

(** [canvas_width]/[canvas_height] are the canvas attributes (unsigned
    integers); [canvas_attached] tells whether [#particle-canvas] is in
    the document; [frames] and [timeouts] are the handles of the scheduled
    animation frames and timers; [globals] holds the numeric properties
    of the global object, which is where an identifier the module does
    not declare resolves; [rng] counts the [Math.random()] calls made. *)
Record state : Type := State {
  innerWidth : Z; innerHeight : Z;
  canvas_width : Z; canvas_height : Z;
  canvas_attached : bool;
  stars : list star;
  nebulas : list nebula;
  clusters : list cluster;
  spaceDust : list dust;
  animationId : option nat;
  resizeTimeout : option nat;
  frames : list nat;
  timeouts : list nat;
  next_handle : nat;
  listeners : list registration;
  globals : gmap string nat;
  rng : nat
}.

(** *** A state monad with exceptions *)

Definition M (A : Type) : Type := state -> completion A * state.

#[global] Instance M_ret : MRet M := fun A a s => (Normal a, s).
#[global] Instance M_bind : MBind M := fun A B k m s =>
  match m s with
  | (Normal a, s') => k a s'
  | (Throw e, s') => (Throw e, s')
  end.
Definition get : M state := fun s => (Normal s, s).
Definition modify (f : state -> state) : M unit := fun s => (Normal tt, f s).
Definition throw {A} (e : js_error) : M A := fun s => (Throw e, s).

Definition when (c : bool) (m : M unit) : M unit := if c then m else mret tt.

Fixpoint repeatM (n : nat) (body : M unit) : M unit :=
  match n with
  | O => mret tt
  | S k => body ;; repeatM k body
  end.

(** Truthiness of a handle: [undefined] and [0] are falsy. *)
Definition truthy (h : option nat) : bool :=
  match h with
  | Some (S _) => true
  | _ => false
  end.

(** *** Field updates *)

Definition set_innerWidth (v : Z) (s : state) : state :=
  State v (innerHeight s) (canvas_width s) (canvas_height s)
        (canvas_attached s) (stars s) (nebulas s) (clusters s)
        (spaceDust s) (animationId s) (resizeTimeout s) (frames s)
        (timeouts s) (next_handle s) (listeners s) (globals s) (rng s).
Definition set_innerHeight (v : Z) (s : state) : state :=
  State (innerWidth s) v (canvas_width s) (canvas_height s)
        (canvas_attached s) (stars s) (nebulas s) (clusters s)
        (spaceDust s) (animationId s) (resizeTimeout s) (frames s)
        (timeouts s) (next_handle s) (listeners s) (globals s) (rng s).
Definition set_canvas_width (v : Z) (s : state) : state :=
  State (innerWidth s) (innerHeight s) v (canvas_height s)
        (canvas_attached s) (stars s) (nebulas s) (clusters s)
        (spaceDust s) (animationId s) (resizeTimeout s) (frames s)
        (timeouts s) (next_handle s) (listeners s) (globals s) (rng s).
Definition set_canvas_height (v : Z) (s : state) : state :=
  State (innerWidth s) (innerHeight s) (canvas_width s) v
        (canvas_attached s) (stars s) (nebulas s) (clusters s)
        (spaceDust s) (animationId s) (resizeTimeout s) (frames s)
        (timeouts s) (next_handle s) (listeners s) (globals s) (rng s).
Definition set_canvas_attached (v : bool) (s : state) : state :=
  State (innerWidth s) (innerHeight s) (canvas_width s) (canvas_height
        s) v (stars s) (nebulas s) (clusters s) (spaceDust s)
        (animationId s) (resizeTimeout s) (frames s) (timeouts s)
        (next_handle s) (listeners s) (globals s) (rng s).
Definition set_stars (v : list star) (s : state) : state :=
  State (innerWidth s) (innerHeight s) (canvas_width s) (canvas_height
        s) (canvas_attached s) v (nebulas s) (clusters s) (spaceDust s)
        (animationId s) (resizeTimeout s) (frames s) (timeouts s)
        (next_handle s) (listeners s) (globals s) (rng s).
Definition set_nebulas (v : list nebula) (s : state) : state :=
  State (innerWidth s) (innerHeight s) (canvas_width s) (canvas_height
        s) (canvas_attached s) (stars s) v (clusters s) (spaceDust s)
        (animationId s) (resizeTimeout s) (frames s) (timeouts s)
        (next_handle s) (listeners s) (globals s) (rng s).
Definition set_clusters (v : list cluster) (s : state) : state :=
  State (innerWidth s) (innerHeight s) (canvas_width s) (canvas_height
        s) (canvas_attached s) (stars s) (nebulas s) v (spaceDust s)
        (animationId s) (resizeTimeout s) (frames s) (timeouts s)
        (next_handle s) (listeners s) (globals s) (rng s).
Definition set_spaceDust (v : list dust) (s : state) : state :=
  State (innerWidth s) (innerHeight s) (canvas_width s) (canvas_height
        s) (canvas_attached s) (stars s) (nebulas s) (clusters s) v
        (animationId s) (resizeTimeout s) (frames s) (timeouts s)
        (next_handle s) (listeners s) (globals s) (rng s).
Definition set_animationId (v : option nat) (s : state) : state :=
  State (innerWidth s) (innerHeight s) (canvas_width s) (canvas_height
        s) (canvas_attached s) (stars s) (nebulas s) (clusters s)
        (spaceDust s) v (resizeTimeout s) (frames s) (timeouts s)
        (next_handle s) (listeners s) (globals s) (rng s).
Definition set_resizeTimeout (v : option nat) (s : state) : state :=
  State (innerWidth s) (innerHeight s) (canvas_width s) (canvas_height
        s) (canvas_attached s) (stars s) (nebulas s) (clusters s)
        (spaceDust s) (animationId s) v (frames s) (timeouts s)
        (next_handle s) (listeners s) (globals s) (rng s).
Definition set_frames (v : list nat) (s : state) : state :=
  State (innerWidth s) (innerHeight s) (canvas_width s) (canvas_height
        s) (canvas_attached s) (stars s) (nebulas s) (clusters s)
        (spaceDust s) (animationId s) (resizeTimeout s) v (timeouts s)
        (next_handle s) (listeners s) (globals s) (rng s).
Definition set_timeouts (v : list nat) (s : state) : state :=
  State (innerWidth s) (innerHeight s) (canvas_width s) (canvas_height
        s) (canvas_attached s) (stars s) (nebulas s) (clusters s)
        (spaceDust s) (animationId s) (resizeTimeout s) (frames s) v
        (next_handle s) (listeners s) (globals s) (rng s).
Definition set_next_handle (v : nat) (s : state) : state :=
  State (innerWidth s) (innerHeight s) (canvas_width s) (canvas_height
        s) (canvas_attached s) (stars s) (nebulas s) (clusters s)
        (spaceDust s) (animationId s) (resizeTimeout s) (frames s)
        (timeouts s) v (listeners s) (globals s) (rng s).
Definition set_listeners (v : list registration) (s : state) : state :=
  State (innerWidth s) (innerHeight s) (canvas_width s) (canvas_height
        s) (canvas_attached s) (stars s) (nebulas s) (clusters s)
        (spaceDust s) (animationId s) (resizeTimeout s) (frames s)
        (timeouts s) (next_handle s) v (globals s) (rng s).
Definition set_globals (v : gmap string nat) (s : state) : state :=
  State (innerWidth s) (innerHeight s) (canvas_width s) (canvas_height
        s) (canvas_attached s) (stars s) (nebulas s) (clusters s)
        (spaceDust s) (animationId s) (resizeTimeout s) (frames s)
        (timeouts s) (next_handle s) (listeners s) v (rng s).
Definition set_rng (v : nat) (s : state) : state :=
  State (innerWidth s) (innerHeight s) (canvas_width s) (canvas_height
        s) (canvas_attached s) (stars s) (nebulas s) (clusters s)
        (spaceDust s) (animationId s) (resizeTimeout s) (frames s)
        (timeouts s) (next_handle s) (listeners s) (globals s) v.

(** *** Timers, frames and listeners *)

(** [clearTimeout] and [clearInterval] act on the same list of timers;
    an unknown or [undefined] handle is ignored. *)
Definition clearTimeout (h : option nat) : M unit :=
  match h with
  | Some n => modify (fun s => set_timeouts (filter (fun k => k ≠ n) (timeouts s)) s)
  | None => mret tt
  end.
Definition clearInterval (n : nat) : M unit := clearTimeout (Some n).

Definition setTimeout : M nat := fun s =>
  let h := S (next_handle s) in
  (Normal h, set_next_handle h (set_timeouts (timeouts s ++ [h]) s)).

Definition cancelAnimationFrame (h : option nat) : M unit :=
  match h with
  | Some n => modify (fun s => set_frames (filter (fun k => k ≠ n) (frames s)) s)
  | None => mret tt
  end.

Definition removeEventListener (t : target) (ty : string) (h : handler) : M unit :=
  modify (fun s =>
    set_listeners (filter (fun l => l ≠ Registration t ty h) (listeners s)) s).

(** Reading an identifier that no scope of the module declares: the
    lookup ends at the global object and throws when the property is
    missing. *)
Definition read_global (name : string) : M nat := fun s =>
  match globals s !! name with
  | Some v => (Normal v, s)
  | None => (Throw ReferenceError, s)
  end.

(** *** [window.ParticleSystem.destroy] *)
Definition destroy : M unit :=
  s ← get;
  when (truthy (animationId s)) (cancelAnimationFrame (animationId s));;
  shootingStarIntervalId ← read_global "shootingStarIntervalId";
  when (truthy (Some shootingStarIntervalId)) (clearInterval shootingStarIntervalId);;
  s ← get;
  clearTimeout (resizeTimeout s);;
  removeEventListener Window "resize" resizeCanvas_h;;
  removeEventListener Document "visibilitychange" handleVisibilityChange_h;;
  removeEventListener Window "pageshow" handlePageShow_h;;
  s ← get;
  when (canvas_attached s) (modify (set_canvas_attached false)).

(** *** Particle creation

    Numbers are binary64 values, embedded as the rationals they denote.
    Every arithmetic operation is the exact operation followed by the
    rounding [rnd]; [fsqrt] is [Math.sqrt], [PI] is [Math.PI], and
    [random n] is what the [n]-th call of [Math.random()] returns. *)
Section Creation.

Variable rnd : Q -> Q.
Variable fsqrt : Q -> Q.
Variable PI : Q.
Variable random : nat -> Q.

Definition lit (q : Q) : Q := rnd q.
Definition fadd (a c : Q) : Q := rnd (a + c).
Definition fsub (a c : Q) : Q := rnd (a - c).
Definition fmul (a c : Q) : Q := rnd (a * c).
Definition fdiv (a c : Q) : Q := rnd (a / c).

Declare Scope float_scope.
Notation "a +. c" := (fadd a c) (at level 50, left associativity) : float_scope.
Notation "a -. c" := (fsub a c) (at level 50, left associativity) : float_scope.
Notation "a *. c" := (fmul a c) (at level 40, left associativity) : float_scope.
Notation "a /. c" := (fdiv a c) (at level 40, left associativity) : float_scope.
Local Open Scope float_scope.

Definition Math_random : M Q := fun s =>
  (Normal (random (rng s)), set_rng (S (rng s)) s).

(** [Math.floor(Math.random() * arr.length)] used as an index; an index
    outside the array reads [undefined]. *)
Definition pick {A} (arr : list A) : M (option A) :=
  u ← Math_random;
  let i := Qfloor (u *. inject_Z (Z.of_nat (length arr))) in
  mret (if (i <? 0)%Z then None else arr !! Z.to_nat i).

(** [distance > 0 ? (d / distance) * speed : 0] *)
Definition away (d distance speed : Q) : Q :=
  if Qle_bool distance 0 then 0 else d /. distance *. speed.

(** The per-layer constants of the three loops of [createStars]:
    speed, size, twinkle speed, minimum and maximum opacity, each as
    (base, spread) of [base + Math.random() * spread]; the size is
    written [Math.random() * spread + base] in the source. *)
Definition speed_range (l : layer) : Q * Q :=
  match l with
  | distant => (5 # 100, 3 # 100)
  | mid => (12 # 100, 8 # 100)
  | near => (2 # 10, 15 # 100)
  end.
Definition size_range (l : layer) : Q * Q :=
  match l with
  | distant => (3 # 10, 1)
  | mid => (5 # 10, 15 # 10)
  | near => (1, 25 # 10)
  end.
Definition twinkle_range (l : layer) : Q * Q :=
  match l with
  | distant => (5 # 1000, 1 # 100)
  | mid => (1 # 100, 15 # 1000)
  | near => (15 # 1000, 2 # 100)
  end.
Definition minOpacity_range (l : layer) : Q * Q :=
  match l with
  | distant => (2 # 10, 15 # 100)
  | mid => (3 # 10, 2 # 10)
  | near => (5 # 10, 2 # 10)
  end.
Definition maxOpacity_range (l : layer) : Q * Q :=
  match l with
  | distant => (5 # 10, 2 # 10)
  | mid => (7 # 10, 25 # 100)
  | near => (85 # 100, 15 # 100)
  end.

(** [base + Math.random() * spread] *)
Definition spread (p : Q * Q) : M Q :=
  u ← Math_random; mret (lit (fst p) +. u *. lit (snd p)).

(** One iteration of a star loop. *)
Definition pushStar (l : layer) (centerX centerY : Q) : M unit :=
  s ← get;
  u ← Math_random; let x := u *. inject_Z (canvas_width s) in
  u ← Math_random; let y := u *. inject_Z (canvas_height s) in
  let dx := x -. centerX in
  let dy := y -. centerY in
  let distance := fsqrt (dx *. dx +. dy *. dy) in
  speed ← spread (speed_range l);
  let vx := away dx distance speed in
  let vy := away dy distance speed in
  u ← Math_random; let size := u *. lit (snd (size_range l)) +. lit (fst (size_range l)) in
  color ← pick (stellarColors l);
  tSpeed ← spread (twinkle_range l);
  u ← Math_random; let tPhase := u *. PI *. 2 in
  minO ← spread (minOpacity_range l);
  maxO ← spread (maxOpacity_range l);
  modify (fun s => set_stars
    (stars s ++ [Star x y size color tSpeed tPhase minO maxO vx vy distance l]) s).

Definition pushNebula (centerX centerY : Q) : M unit :=
  color ← pick nebulaColors;
  s ← get;
  u ← Math_random; let x := u *. inject_Z (canvas_width s) in
  u ← Math_random; let y := u *. inject_Z (canvas_height s) in
  let dx := x -. centerX in
  let dy := y -. centerY in
  let distance := fsqrt (dx *. dx +. dy *. dy) in
  speed ← spread (8 # 100, 4 # 100);
  let vx := away dx distance speed in
  let vy := away dy distance speed in
  u ← Math_random;
  let size := nebulaMinSize +. u *. (nebulaMaxSize -. nebulaMinSize) in
  u ← Math_random;
  let opacity := lit nebulaOpacity *. (lit (5 # 10) +. u *. lit (5 # 10)) in
  pSpeed ← spread (2 # 1000, 3 # 1000);
  u ← Math_random; let pPhase := u *. PI *. 2 in
  modify (fun s => set_nebulas
    (nebulas s ++ [Nebula x y size color opacity pSpeed pPhase vx vy]) s).

Definition pushCluster (centerX centerY : Q) : M unit :=
  color ← pick clusterColors;
  s ← get;
  u ← Math_random; let x := u *. inject_Z (canvas_width s) in
  u ← Math_random; let y := u *. inject_Z (canvas_height s) in
  let dx := x -. centerX in
  let dy := y -. centerY in
  let distance := fsqrt (dx *. dx +. dy *. dy) in
  speed ← spread (2 # 100, 2 # 100);
  let vx := away dx distance speed in
  let vy := away dy distance speed in
  u ← Math_random;
  let size := clusterMinSize +. u *. (clusterMaxSize -. clusterMinSize) in
  opacity ← spread (3 # 100, 4 # 100);
  pSpeed ← spread (1 # 1000, 2 # 1000);
  u ← Math_random; let pPhase := u *. PI *. 2 in
  elong ← spread (6 # 10, 8 # 10);
  u ← Math_random; let rot := u *. PI *. 2 in
  modify (fun s => set_clusters
    (clusters s ++ [Cluster x y size color opacity pSpeed pPhase vx vy elong rot]) s).

Definition pushDust : M unit :=
  s ← get;
  u ← Math_random; let x := u *. inject_Z (canvas_width s) in
  u ← Math_random; let y := u *. inject_Z (canvas_height s) in
  u ← Math_random; let size := u *. lit (15 # 10) +. lit (5 # 10) in
  opacity ← spread (5 # 100, 1 # 10);
  u ← Math_random; let vx := (u -. lit (5 # 10)) *. lit (1 # 10) in
  u ← Math_random; let vy := (u -. lit (5 # 10)) *. lit (1 # 10) in
  pSpeed ← spread (3 # 1000, 5 # 1000);
  u ← Math_random; let pPhase := u *. PI *. 2 in
  modify (fun s => set_spaceDust
    (spaceDust s ++ [Dust x y size opacity vx vy pSpeed pPhase]) s).

Definition createNebulas : M unit :=
  modify (set_nebulas []);;
  s ← get;
  let centerX := inject_Z (canvas_width s) /. 2 in
  let centerY := inject_Z (canvas_height s) /. 2 in
  repeatM nebulaCount (pushNebula centerX centerY).

Definition createClusters : M unit :=
  modify (set_clusters []);;
  s ← get;
  let centerX := inject_Z (canvas_width s) /. 2 in
  let centerY := inject_Z (canvas_height s) /. 2 in
  repeatM clusterCount (pushCluster centerX centerY).

Definition createSpaceDust : M unit :=
  modify (set_spaceDust []);;
  repeatM dustCount pushDust.

Definition createStars : M unit :=
  modify (set_stars []);;
  s ← get;
  let centerX := inject_Z (canvas_width s) /. 2 in
  let centerY := inject_Z (canvas_height s) /. 2 in
  repeatM distantStarCount (pushStar distant centerX centerY);;
  repeatM midStarCount (pushStar mid centerX centerY);;
  repeatM nearStarCount (pushStar near centerX centerY);;
  createNebulas;;
  createClusters;;
  createSpaceDust.

(** Assigning a number to [canvas.width] or [canvas.height]: the
    attributes are [unsigned long], so the value is taken modulo 2^32,
    and a value above 2^31 - 1 is replaced by the attribute's default
    (300 for the width, 150 for the height). *)
Definition unsigned_long (v : Z) : Z := (v mod 2 ^ 32)%Z.

Definition canvas_dimension (default v : Z) : Z :=
  if (unsigned_long v <=? 2147483647)%Z then unsigned_long v else default.

(** [resizeCanvas]: the canvas takes the window's inner size at once;
    the particles are recreated 250 ms after the last call. *)
Definition resizeCanvas : M unit :=
  s ← get;
  modify (set_canvas_width (canvas_dimension 300 (innerWidth s)));;
  modify (set_canvas_height (canvas_dimension 150 (innerHeight s)));;
  clearTimeout (resizeTimeout s);;
  h ← setTimeout;
  modify (set_resizeTimeout (Some h)).

(** The window is resized to [w] x [h] and the [resize] listener runs,
    if it is registered. *)
Definition resize_event (w h : Z) : M unit :=
  modify (set_innerWidth w);;
  modify (set_innerHeight h);;
  s ← get;
  when (bool_decide (Registration Window "resize" resizeCanvas_h ∈ listeners s))
       resizeCanvas.

(** The timer [h] elapses: its callback, [createStars], runs once. *)
Definition timeout_elapses (h : nat) : M unit :=
  s ← get;
  if bool_decide (h ∈ timeouts s)
  then clearTimeout (Some h);; createStars
  else mret tt.

(** [window.ParticleSystem.respawn] and [.resize] *)
Definition respawn : M unit := createStars.
Definition resize : M unit := resizeCanvas.

End Creation.

(** Positions of all four particle sets. *)
Definition positions (s : state) : list (Q * Q) :=
  ((fun p => (star_x p, star_y p)) <$> stars s) ++
  ((fun p => (nebula_x p, nebula_y p)) <$> nebulas s) ++
  ((fun p => (cluster_x p, cluster_y p)) <$> clusters s) ++
  ((fun p => (dust_x p, dust_y p)) <$> spaceDust s).

(** [-10 <= x <= width + 10] and [-10 <= y <= height + 10] *)
Definition in_bounds (width height : Z) (p : Q * Q) : Prop :=
  (- (10) <= fst p /\ fst p <= inject_Z width + 10) /\
  (- (10) <= snd p /\ snd p <= inject_Z height + 10).

(** *** The invariant of a creation *)

(** What is known of one particle array between two steps of a creation
    on a canvas of size [w] x [h]: nothing ([None]), or its length and
    that every particle of it lies in bounds. *)
Definition array_ok (w h : Z) {A} (pos : A -> Q * Q) (n : option nat) (l : list A) : Prop :=
  match n with
  | None => True
  | Some k => length l = k /\ Forall (fun p => in_bounds w h (pos p)) l
  end.

Definition star_pos (p : star) : Q * Q := (star_x p, star_y p).
Definition nebula_pos (p : nebula) : Q * Q := (nebula_x p, nebula_y p).
Definition cluster_pos (p : cluster) : Q * Q := (cluster_x p, cluster_y p).
Definition dust_pos (p : dust) : Q * Q := (dust_x p, dust_y p).

Record good (w h : Z) (a b c e : option nat) (s : state) : Prop := Good {
  good_width : canvas_width s = w;
  good_height : canvas_height s = h;
  stars_ok : array_ok w h star_pos a (stars s);
  nebulas_ok : array_ok w h nebula_pos b (nebulas s);
  clusters_ok : array_ok w h cluster_pos c (clusters s);
  dust_ok : array_ok w h dust_pos e (spaceDust s)
}.

End Particles.

(** ** Page transitions *)

Module Transitions.

(** *** URLs, links and the document *)

(** A parsed URL: scheme, host, port, and the rest (path, query and
    fragment). *)
Record url : Type := Url {
  protocol : string;
  hostname : string;
  port : string;
  rest : string
}.

#[global] Instance url_eq_dec : EqDecision url.
Proof. solve_decision. Defined.

(** Two URLs are same-origin when scheme, host and port agree. *)
Definition same_origin (a c : url) : bool :=
  bool_decide (protocol a = protocol c) &&
  bool_decide (hostname a = hostname c) &&
  bool_decide (port a = port c).

(** An anchor element as the click handler sees it: the raw [href]
    attribute, the URL the browser parsed it to (the source of
    [link.hostname]), the [target] attribute and the presence of
    [download]. *)
Record link : Type := Link {
  href : option string;
  link_url : url;
  target : option string;
  download : bool
}.

(** An element that is spliced: class list, inner markup, and the [src]
    attribute of its first [.logo] descendant ([None]: no such
    descendant; [Some None]: it has no [src]). *)
Record element : Type := Element {
  className : gset string;
  innerHTML : string;
  logo : option (option string)
}.

(** The regions of a document the layer reads or writes.  They are taken
    to be disjoint: [nav] is the outer markup of the first [nav] element,
    [overlay] the class list of [.page-transition-overlay]. *)
Record document : Type := Document {
  title : string;
  body_className : gset string;
  main : option element;
  header : option element;
  nav : option string;
  overlay : option (gset string)
}.

(** A session-history entry: the state object's [url] property ([None]
    for the entry of the initial load) and the entry's URL. *)
Record entry : Type := Entry {
  entry_state : option string;
  entry_url : url
}.

(** A full navigation handed to the browser. *)
Inductive full_navigation : Type :=
| Assign (u : string)
| Reload.

(** What is pending between two runs of the script: a timer or an
    in-flight fetch together with its continuation. *)
Inductive task : Type :=
| ExitTimer (u : string)
| Fetching (u : string)
| EnterTimer
| CleanupTimer
| PopExitTimer (u : url)
| PopFetching (u : url)
| PopEnterTimer
| PopCleanupTimer.

(** The module variable [isTransitioning] with the window state around
    it: the address, the session history and the current index in it,
    the document, the scroll offset, the pending tasks, the log of
    fetches issued, the full navigation requested (if any), the console,
    and the number of [reinitializeScripts] runs. *)
Record page : Type := Page {
  isTransitioning : bool;
  location : url;
  entries : list entry;
  index : nat;
  doc : document;
  scroll : Z * Z;
  pending : list task;
  fetches : list url;
  navigation : option full_navigation;
  console : list string;
  reinitialized : nat
}.

(** *** Field updates *)

Definition set_title (v : string) (d : document) : document :=
  Document v (body_className d) (main d) (header d) (nav d) (overlay d).
Definition set_body_className (v : gset string) (d : document) : document :=
  Document (title d) v (main d) (header d) (nav d) (overlay d).
Definition set_main (v : option element) (d : document) : document :=
  Document (title d) (body_className d) v (header d) (nav d) (overlay
       d).
Definition set_header (v : option element) (d : document) : document :=
  Document (title d) (body_className d) (main d) v (nav d) (overlay d).
Definition set_nav (v : option string) (d : document) : document :=
  Document (title d) (body_className d) (main d) (header d) v (overlay
       d).
Definition set_overlay (v : option (gset string)) (d : document) : document :=
  Document (title d) (body_className d) (main d) (header d) (nav d) v.

Definition set_isTransitioning (v : bool) (s : page) : page :=
  Page v (location s) (entries s) (index s) (doc s) (scroll s) (pending
       s) (fetches s) (navigation s) (console s) (reinitialized s).
Definition set_location (v : url) (s : page) : page :=
  Page (isTransitioning s) v (entries s) (index s) (doc s) (scroll s)
       (pending s) (fetches s) (navigation s) (console s) (reinitialized
       s).
Definition set_entries (v : list entry) (s : page) : page :=
  Page (isTransitioning s) (location s) v (index s) (doc s) (scroll s)
       (pending s) (fetches s) (navigation s) (console s) (reinitialized
       s).
Definition set_index (v : nat) (s : page) : page :=
  Page (isTransitioning s) (location s) (entries s) v (doc s) (scroll s)
       (pending s) (fetches s) (navigation s) (console s) (reinitialized
       s).
Definition set_doc (v : document) (s : page) : page :=
  Page (isTransitioning s) (location s) (entries s) (index s) v (scroll
       s) (pending s) (fetches s) (navigation s) (console s)
       (reinitialized s).
Definition set_scroll (v : Z * Z) (s : page) : page :=
  Page (isTransitioning s) (location s) (entries s) (index s) (doc s) v
       (pending s) (fetches s) (navigation s) (console s) (reinitialized
       s).
Definition set_pending (v : list task) (s : page) : page :=
  Page (isTransitioning s) (location s) (entries s) (index s) (doc s)
       (scroll s) v (fetches s) (navigation s) (console s)
       (reinitialized s).
Definition set_fetches (v : list url) (s : page) : page :=
  Page (isTransitioning s) (location s) (entries s) (index s) (doc s)
       (scroll s) (pending s) v (navigation s) (console s)
       (reinitialized s).
Definition set_navigation (v : option full_navigation) (s : page) : page :=
  Page (isTransitioning s) (location s) (entries s) (index s) (doc s)
       (scroll s) (pending s) (fetches s) v (console s) (reinitialized
       s).
Definition set_console (v : list string) (s : page) : page :=
  Page (isTransitioning s) (location s) (entries s) (index s) (doc s)
       (scroll s) (pending s) (fetches s) (navigation s) v
       (reinitialized s).
Definition set_reinitialized (v : nat) (s : page) : page :=
  Page (isTransitioning s) (location s) (entries s) (index s) (doc s)
       (scroll s) (pending s) (fetches s) (navigation s) (console s) v.

Definition on_doc (f : document -> document) (s : page) : page :=
  set_doc (f (doc s)) s.
Definition on_class (f : gset string -> gset string) (e : element) : element :=
  Element (f (className e)) (innerHTML e) (logo e).
Definition on_body (f : gset string -> gset string) (d : document) : document :=
  set_body_className (f (body_className d)) d.
Definition on_main (f : gset string -> gset string) (d : document) : document :=
  set_main (on_class f <$> main d) d.
Definition on_overlay (f : gset string -> gset string) (d : document) : document :=
  set_overlay (f <$> overlay d) d.
Definition schedule (t : task) (s : page) : page :=
  set_pending (pending s ++ [t]) s.

(** *** Events *)

Inductive fetch_result : Type :=
| NetworkError
| Response (ok : bool) (body : string).

(** [Click t]: a click whose [e.target.closest('a')] is [t].
    [PopState i]: the user traverses the session history to entry [i];
    the browser moves the address there and fires [popstate].
    [Settle n r]: the [n]-th pending task completes; [r] is the outcome
    when that task is a fetch. *)
Inductive event : Type :=
| Click (t : option link)
| PopState (i : nat)
| Settle (n : nat) (r : fetch_result).

Section Layer.

(** URL resolution against a base, and [DOMParser.parseFromString(html,
    'text/html')]. *)
Variable resolve : url -> string -> url.
Variable parseFromString : string -> document.

Definition transitionDuration : nat := 400.

(** *** [init] and the state of a freshly loaded page *)

Definition init (s : page) : page :=
  let s := match overlay (doc s) with
           | None => on_doc (set_overlay (Some {[ "page-transition-overlay" ]})) s
           | Some _ => s
           end in
  on_doc (on_main (classList_add "fade-in")) s.

Definition loaded (at_ : url) (d : document) : page :=
  init (Page false at_ [Entry None at_] 0 d (0, 0)%Z [] [] None [] 0).

(** *** [navigateTo] *)

Definition begin_exit (s : page) : page :=
  let s := on_doc (on_body (classList_add "transitioning")) s in
  let s := on_doc (on_body (classList_remove "page-loaded")) s in
  let s := on_doc (on_main (classList_add "fade-out")) s in
  on_doc (on_overlay (classList_add "active")) s.

Definition navigateTo (u : string) (s : page) : page :=
  if isTransitioning s then s
  else schedule (ExitTimer u) (begin_exit (set_isTransitioning true s)).

(** *** [handleLinkClick] *)

(** [!href]: the attribute is missing or empty. *)
Definition no_href (h : option string) : bool :=
  match h with
  | None => true
  | Some h => bool_decide (h = "")
  end.

Definition starts_with (p : string) (h : option string) : bool :=
  match h with
  | None => false
  | Some h => String.prefix p h
  end.

Definition skipped (l : link) (s : page) : bool :=
  no_href (href l) ||
  negb (bool_decide (hostname (link_url l) = hostname (location s))) ||
  starts_with "#" (href l) ||
  starts_with "mailto:" (href l) ||
  starts_with "tel:" (href l) ||
  bool_decide (target l = Some "_blank") ||
  download l ||
  isTransitioning s.

(** The handler returns whether it called [e.preventDefault()]. *)
Definition handleLinkClick (t : option link) (s : page) : bool * page :=
  match t with
  | None => (false, s)
  | Some l =>
      if skipped l s then (false, s)
      else match href l with
           | Some h => (true, navigateTo h s)
           | None => (false, s)
           end
  end.

(** *** [fetchPage] and [updatePage] *)

Definition fetchPage (u : string) (s : page) : page :=
  schedule (Fetching u) (set_fetches (fetches s ++ [resolve (location s) u]) s).

(** The history after [pushState({url: h}, '', h)]: the entries after
    the current one are dropped, the new entry is appended and becomes
    the current one, and the address is the resolved URL. *)
Definition pushed (h : string) (s : page) : page :=
  set_location (resolve (location s) h)
    (set_index (S (index s))
       (set_entries (take (S (index s)) (entries s) ++
                     [Entry (Some h) (resolve (location s) h)]) s)).

(** [history.pushState({url}, '', url)] throws unless the new URL is
    same-origin with the document. *)
Definition pushState (u : string) (s : page) : completion page :=
  if same_origin (resolve (location s) u) (location s)
  then Normal (pushed u s)
  else Throw SecurityError.

(** [logoImg.src = ''; logoImg.src = originalSrc]: a missing attribute
    reads [null], which the assignment turns into the string. *)
Definition reload_logo (e : element) : element :=
  match logo e with
  | None => e
  | Some originalSrc =>
      Element (className e) (innerHTML e) (Some (Some (default "null" originalSrc)))
  end.

(** The splice shared by [updatePage] and the [popstate] continuation:
    title, body classes, main, header, nav, and the scroll offset. *)
Definition splice_main (newDoc : document) (d : document) : document :=
  match main d, main newDoc with
  | Some _, Some newMain => set_main (Some newMain) d
  | _, _ => d
  end.

Definition splice_header (newDoc : document) (d : document) : document :=
  match header d, header newDoc with
  | Some _, Some newHeader => set_header (Some (reload_logo newHeader)) d
  | _, _ => d
  end.

Definition splice_nav (newDoc : document) (d : document) : document :=
  match nav newDoc, nav d with
  | Some newNav, None =>
      match header d with
      | Some _ => set_nav (Some newNav) d
      | None => d
      end
  | None, Some _ => set_nav None d
  | Some newNav, Some _ => set_nav (Some newNav) d
  | None, None => d
  end.

Definition splice (newDoc : document) (s : page) : page :=
  let s := on_doc (set_title (title newDoc)) s in
  let s := on_doc (set_body_className (body_className newDoc)) s in
  let s := on_doc (on_body (classList_add "transitioning")) s in
  let s := on_doc (splice_main newDoc) s in
  let s := on_doc (splice_header newDoc) s in
  let s := on_doc (splice_nav newDoc) s in
  set_scroll (0, 0)%Z s.

Definition updatePage (html u : string) (s : page) : completion page :=
  let newDoc := parseFromString html in
  match pushState u s with
  | Throw e => Throw e
  | Normal s => Normal (schedule EnterTimer (splice newDoc s))
  end.

(** The [catch] of [fetchPage]. *)
Definition fallback (u : string) (s : page) : page :=
  set_navigation (Some (Assign u))
    (set_console (console s ++ ["Page transition error:"]) s).

(** The promise chain of [fetchPage] once the fetch has settled. *)
Definition fetch_settled (u : string) (r : fetch_result) (s : page) : page :=
  match r with
  | Response true html =>
      match updatePage html u s with
      | Normal s' => s'
      | Throw _ => fallback u s
      end
  | Response false _ => fallback u s
  | NetworkError => fallback u s
  end.

(** The 100 ms and 500 ms callbacks. *)
Definition enter (next : task) (s : page) : page :=
  let s := on_doc (on_overlay (classList_remove "active")) s in
  let s := on_doc (on_main (classList_remove "fade-out")) s in
  let s := on_doc (on_main (classList_add "fade-in")) s in
  let s := set_reinitialized (S (reinitialized s)) s in
  schedule next s.

Definition cleanup (s : page) : page :=
  let s := on_doc (on_body (classList_remove "transitioning")) s in
  let s := on_doc (on_body (classList_add "page-loaded")) s in
  let s := on_doc (on_main (classList_remove "fade-in")) s in
  set_isTransitioning false s.

(** *** [handlePopState] *)

Definition handlePopState (s : page) : page :=
  if isTransitioning s then s
  else schedule (PopExitTimer (location s)) (begin_exit (set_isTransitioning true s)).

Definition pop_fetch (u : url) (s : page) : page :=
  schedule (PopFetching u) (set_fetches (fetches s ++ [u]) s).

(** The promise chain of the [popstate] fetch: the body of any
    response is spliced; only a rejected fetch reaches the [catch]. *)
Definition pop_settled (r : fetch_result) (s : page) : page :=
  match r with
  | Response _ html => schedule PopEnterTimer (splice (parseFromString html) s)
  | NetworkError =>
      set_navigation (Some Reload)
        (set_console (console s ++ ["Pop state error:"]) s)
  end.

(** *** The event loop *)

Definition run_task (t : task) (r : fetch_result) (s : page) : page :=
  match t with
  | ExitTimer u => fetchPage u s
  | Fetching u => fetch_settled u r s
  | EnterTimer => enter CleanupTimer s
  | CleanupTimer => cleanup s
  | PopExitTimer u => pop_fetch u s
  | PopFetching _ => pop_settled r s
  | PopEnterTimer => enter PopCleanupTimer s
  | PopCleanupTimer => cleanup s
  end.

(** The browser side of a history traversal. *)
Definition traverse (i : nat) (s : page) : option page :=
  match entries s !! i with
  | Some e => Some (set_location (entry_url e) (set_index i s))
  | None => None
  end.

Definition step (e : event) (s : page) : page :=
  match e with
  | Click t => snd (handleLinkClick t s)
  | PopState i =>
      match traverse i s with
      | Some s' => handlePopState s'
      | None => s
      end
  | Settle n r =>
      match pending s !! n with
      | Some t => run_task t r (set_pending (delete n (pending s)) s)
      | None => s
      end
  end.

Definition run (es : list event) (s : page) : page :=
  foldl (fun s e => step e s) s es.

(** *** States along a transition *)

(** The state in which the fetch of a link-click transition settles:
    the flag raised, the exit classes set, the request logged, nothing
    pending. *)
Definition awaiting (h : string) (s : page) : page :=
  set_fetches (fetches s ++ [resolve (location s) h])
    (begin_exit (set_isTransitioning true s)).

End Layer.

(** The transitions in progress are the pending tasks. *)
Definition in_progress (s : page) : nat := length (pending s).

Definition current_entry (s : page) : option entry := entries s !! index s.

(** At most one task is pending, and one is pending only while the flag
    is raised. *)
Definition single (s : page) : Prop :=
  (in_progress s <= 1)%nat /\ (isTransitioning s = false -> pending s = []).

(** The fetch has failed: rejected, or answered with a non-success
    status. *)
Definition failed (r : fetch_result) : bool :=
  match r with
  | NetworkError => true
  | Response ok _ => negb ok
  end.

(** The state in which the fetch of a history pop settles. *)
Definition pop_awaiting (i : nat) (e : entry) (s : page) : page :=
  set_fetches (fetches s ++ [entry_url e])
    (begin_exit (set_isTransitioning true (set_location (entry_url e) (set_index i s)))).


End Transitions.

(** ** The per-frame step of the particle background *)

Module Frames.
Import Particles.

(** A colour string handed to the canvas: the template
    [rgba(${r}, ${g}, ${b}, ${alpha})] filled from a colour object, the
    concatenation [color + alpha + ')'] of a star's colour prefix
    ([None] when the property is undefined), or a string literal. *)
Inductive css_color : Type :=
| Rgba (c : rgb) (alpha : Q)
| Prefixed (prefix : option string) (alpha : Q)
| Literal (text : string).

(** The calls on the 2D context that can throw: [arc] and
    [createRadialGradient] on a negative radius, [addColorStop] on a
    colour that does not parse.  The other calls the draw functions make
    ([beginPath], [fill], [save], [restore], [translate], [rotate],
    [scale], [clearRect], [fillRect], assigning [fillStyle]) return for
    every number and write to the bitmap and the drawing state only. *)
Inductive canvas_call : Type :=
| arc (radius : Q)
| createRadialGradient (r0 r1 : Q)
| addColorStop (offset : Q) (color : css_color).

Section Animation.

Variable rnd : Q -> Q.
Variable fsqrt : Q -> Q.
Variable fsin : Q -> Q.
Variable random : nat -> Q.

(** The exception the canvas answers a call with, if any. *)
Variable refuses : canvas_call -> option js_error.

Local Notation "a +. c" := (fadd rnd a c) (at level 50, left associativity).
Local Notation "a -. c" := (fsub rnd a c) (at level 50, left associativity).
Local Notation "a *. c" := (fmul rnd a c) (at level 40, left associativity).
Local Notation "a /. c" := (fdiv rnd a c) (at level 40, left associativity).
Local Abbreviation lit := (Particles.lit rnd).
Local Abbreviation away := (Particles.away rnd).
Local Abbreviation spread := (Particles.spread rnd random).
Local Abbreviation pick := (Particles.pick rnd random).
Local Abbreviation Math_random := (Particles.Math_random random).

(** [a < c] on numbers. *)
Definition less (a c : Q) : bool := negb (Qle_bool c a).

(** [particles.forEach(p => { ... })] where the callback mutates [p] and
    may call [Math.random()]: [f] returns the particle after the callback
    together with the values it stores for the draw step ([currentOpacity],
    and [currentSize] for a star), which no update reads back. *)
Fixpoint forEachM {A B} (f : A -> M (A * B)) (l : list A) : M (list A * list B) :=
  match l with
  | [] => mret ([], [])
  | p :: rest =>
      r ← f p;
      rs ← forEachM f rest;
      mret (fst r :: fst rs, snd r :: snd rs)
  end.

(** The callback of [updateStars]. *)
Definition updateStar (centerX centerY : Q) (p : star) : M (star * (Q * Q)) :=
  s ← get;
  let width := inject_Z (canvas_width s) in
  let height := inject_Z (canvas_height s) in
  let phase := twinklePhase p +. twinkleSpeed p in
  let opacity :=
    minOpacity p +.
    (maxOpacity p -. minOpacity p) *. (fsin phase *. lit (5 # 10) +. lit (5 # 10)) in
  let x := star_x p +. star_vx p in
  let y := star_y p +. star_vy p in
  let dx := x -. centerX in
  let dy := y -. centerY in
  let currentDistance := fsqrt (dx *. dx +. dy *. dy) in
  let grown :=
    if less 0 (initialDistance p)
    then star_size p *. (lit (8 # 10) +. currentDistance /. initialDistance p *. lit (4 # 10))
    else star_size p in
  if less x (- (10)) || less (width +. 10) x ||
     less y (- (10)) || less (height +. 10) y
  then
    u ← Math_random; let x := u *. width in
    u ← Math_random; let y := u *. height in
    let newDx := x -. centerX in
    let newDy := y -. centerY in
    let newDistance := fsqrt (newDx *. newDx +. newDy *. newDy) in
    speed ← spread (speed_range (star_layer p));
    u ← Math_random;
    let size := u *. lit (snd (size_range (star_layer p)))
                +. lit (fst (size_range (star_layer p))) in
    color ← pick (stellarColors (star_layer p));
    mret (Star x y size color (twinkleSpeed p) phase (minOpacity p) (maxOpacity p)
               (away newDx newDistance speed) (away newDy newDistance speed)
               newDistance (star_layer p),
          (opacity, size))
  else
    mret (Star x y (star_size p) (star_color p) (twinkleSpeed p) phase
               (minOpacity p) (maxOpacity p) (star_vx p) (star_vy p)
               (initialDistance p) (star_layer p),
          (opacity, grown)).

Definition updateStars : M (list (Q * Q)) :=
  s ← get;
  let centerX := inject_Z (canvas_width s) /. 2 in
  let centerY := inject_Z (canvas_height s) /. 2 in
  r ← forEachM (updateStar centerX centerY) (stars s);
  modify (set_stars (fst r));;
  mret (snd r).

(** The callback of [updateClusters]. *)
Definition updateCluster (centerX centerY : Q) (p : cluster) : M (cluster * Q) :=
  s ← get;
  let width := inject_Z (canvas_width s) in
  let height := inject_Z (canvas_height s) in
  let phase := cluster_pulsePhase p +. cluster_pulseSpeed p in
  let opacity := cluster_opacity p *. (lit (7 # 10) +. fsin phase *. lit (3 # 10)) in
  let x := cluster_x p +. cluster_vx p in
  let y := cluster_y p +. cluster_vy p in
  if less x (- cluster_size p *. 2) || less (width +. cluster_size p *. 2) x ||
     less y (- cluster_size p *. 2) || less (height +. cluster_size p *. 2) y
  then
    u ← Math_random; let x := u *. width in
    u ← Math_random; let y := u *. height in
    let dx := x -. centerX in
    let dy := y -. centerY in
    let distance := fsqrt (dx *. dx +. dy *. dy) in
    speed ← spread (2 # 100, 2 # 100);
    color ← pick clusterColors;
    mret (Cluster x y (cluster_size p) color (cluster_opacity p)
                  (cluster_pulseSpeed p) phase
                  (away dx distance speed) (away dy distance speed)
                  (elongation p) (rotation p),
          opacity)
  else
    mret (Cluster x y (cluster_size p) (cluster_color p) (cluster_opacity p)
                  (cluster_pulseSpeed p) phase (cluster_vx p) (cluster_vy p)
                  (elongation p) (rotation p),
          opacity).

Definition updateClusters : M (list Q) :=
  s ← get;
  let centerX := inject_Z (canvas_width s) /. 2 in
  let centerY := inject_Z (canvas_height s) /. 2 in
  r ← forEachM (updateCluster centerX centerY) (clusters s);
  modify (set_clusters (fst r));;
  mret (snd r).

(** The callback of [updateNebulas]. *)
Definition updateNebula (centerX centerY : Q) (p : nebula) : M (nebula * Q) :=
  s ← get;
  let width := inject_Z (canvas_width s) in
  let height := inject_Z (canvas_height s) in
  let phase := nebula_pulsePhase p +. nebula_pulseSpeed p in
  let opacity := nebula_opacity p *. (lit (7 # 10) +. fsin phase *. lit (3 # 10)) in
  let x := nebula_x p +. nebula_vx p in
  let y := nebula_y p +. nebula_vy p in
  if less x (- nebula_size p *. 2) || less (width +. nebula_size p *. 2) x ||
     less y (- nebula_size p *. 2) || less (height +. nebula_size p *. 2) y
  then
    u ← Math_random; let x := u *. width in
    u ← Math_random; let y := u *. height in
    let dx := x -. centerX in
    let dy := y -. centerY in
    let distance := fsqrt (dx *. dx +. dy *. dy) in
    speed ← spread (8 # 100, 4 # 100);
    color ← pick nebulaColors;
    u ← Math_random;
    let size := nebulaMinSize +. u *. (nebulaMaxSize -. nebulaMinSize) in
    mret (Nebula x y size color (nebula_opacity p) (nebula_pulseSpeed p) phase
                 (away dx distance speed) (away dy distance speed),
          opacity)
  else
    mret (Nebula x y (nebula_size p) (nebula_color p) (nebula_opacity p)
                 (nebula_pulseSpeed p) phase (nebula_vx p) (nebula_vy p),
          opacity).

Definition updateNebulas : M (list Q) :=
  s ← get;
  let centerX := inject_Z (canvas_width s) /. 2 in
  let centerY := inject_Z (canvas_height s) /. 2 in
  r ← forEachM (updateNebula centerX centerY) (nebulas s);
  modify (set_nebulas (fst r));;
  mret (snd r).

(** The callback of [updateSpaceDust]: drift, then the four wrap tests
    one after the other. *)
Definition updateDust (p : dust) : M (dust * Q) :=
  s ← get;
  let width := inject_Z (canvas_width s) in
  let height := inject_Z (canvas_height s) in
  let phase := dust_pulsePhase p +. dust_pulseSpeed p in
  let opacity := dust_opacity p *. (lit (6 # 10) +. fsin phase *. lit (4 # 10)) in
  let x := dust_x p +. dust_vx p in
  let y := dust_y p +. dust_vy p in
  let x := if less x 0 then width else x in
  let x := if less width x then 0 else x in
  let y := if less y 0 then height else y in
  let y := if less height y then 0 else y in
  mret (Dust x y (dust_size p) (dust_opacity p) (dust_vx p) (dust_vy p)
             (dust_pulseSpeed p) phase,
        opacity).

Definition updateSpaceDust : M (list Q) :=
  s ← get;
  r ← forEachM updateDust (spaceDust s);
  modify (set_spaceDust (fst r));;
  mret (snd r).

(** *** Drawing *)

Definition ctx (c : canvas_call) : M unit :=
  match refuses c with
  | Some e => throw e
  | None => mret tt
  end.

(** [a || c] on numbers. *)
Definition or_else (a c : Q) : Q := if Qeq_bool a 0 then c else a.

(** [particles.forEach(p => { ... })] where the callback only draws;
    each particle comes with the values the update stored on it. *)
Fixpoint forEach {A} (f : A -> M unit) (l : list A) : M unit :=
  match l with
  | [] => mret tt
  | p :: rest => f p;; forEach f rest
  end.

(** The callback of [drawStars]. *)
Definition drawStar (p : star * (Q * Q)) : M unit :=
  let star := fst p in
  let currentOpacity := fst (snd p) in
  let currentSize := snd (snd p) in
  let size := or_else currentSize (star_size star) in
  ctx (arc size);;
  if less (lit (6 # 10)) currentOpacity && less (lit (15 # 10)) size
  then
    ctx (arc (size *. 2));;
    ctx (createRadialGradient 0 (size *. 2));;
    ctx (addColorStop 0 (Prefixed (star_color star) (currentOpacity *. lit (3 # 10))));;
    ctx (addColorStop 1 (Prefixed (star_color star) 0))
  else mret tt.

Definition drawStars (current : list (Q * Q)) : M unit :=
  s ← get;
  forEach drawStar (zip (stars s) current).

(** The callback of [drawNebulas]: the gradient is created before the
    colour is destructured, [const { r, g, b } = nebula.color], which
    throws when the colour is undefined. *)
Definition drawNebula (p : nebula * Q) : M unit :=
  let nebula := fst p in
  let currentOpacity := snd p in
  ctx (createRadialGradient 0 (nebula_size nebula));;
  match nebula_color nebula with
  | None => throw TypeError
  | Some c =>
      ctx (addColorStop 0 (Rgba c currentOpacity));;
      ctx (addColorStop (lit (4 # 10)) (Rgba c (currentOpacity *. lit (5 # 10))));;
      ctx (addColorStop (lit (7 # 10)) (Rgba c (currentOpacity *. lit (2 # 10))));;
      ctx (addColorStop 1 (Rgba c 0));;
      ctx (arc (nebula_size nebula))
  end.

Definition drawNebulas (current : list Q) : M unit :=
  s ← get;
  forEach drawNebula (zip (nebulas s) current).

(** The callback of [drawClusters]: here the colour is destructured
    first. *)
Definition drawCluster (p : cluster * Q) : M unit :=
  let cluster := fst p in
  match cluster_color cluster with
  | None => throw TypeError
  | Some c =>
      let opacity := or_else (snd p) (cluster_opacity cluster) in
      ctx (createRadialGradient 0 (cluster_size cluster));;
      ctx (addColorStop 0 (Rgba c (opacity *. lit (15 # 10))));;
      ctx (addColorStop (lit (3 # 10)) (Rgba c opacity));;
      ctx (addColorStop (lit (6 # 10)) (Rgba c (opacity *. lit (4 # 10))));;
      ctx (addColorStop 1 (Rgba c 0));;
      ctx (arc (cluster_size cluster))
  end.

Definition drawClusters (current : list Q) : M unit :=
  s ← get;
  forEach drawCluster (zip (clusters s) current).

(** The callback of [drawSpaceDust]; its colour string goes to
    [fillStyle]. *)
Definition drawDust (p : dust * Q) : M unit :=
  ctx (arc (dust_size (fst p))).

Definition drawSpaceDust (current : list Q) : M unit :=
  s ← get;
  forEach drawDust (zip (spaceDust s) current).

Definition drawVignette : M unit :=
  s ← get;
  let centerX := inject_Z (canvas_width s) /. 2 in
  let centerY := inject_Z (canvas_height s) /. 2 in
  let maxRadius := fsqrt (centerX *. centerX +. centerY *. centerY) in
  ctx (createRadialGradient (maxRadius *. lit (4 # 10)) maxRadius);;
  ctx (addColorStop 0 (Literal "rgba(0, 0, 0, 0)"));;
  ctx (addColorStop (lit (7 # 10)) (Literal "rgba(0, 0, 0, 0.1)"));;
  ctx (addColorStop 1 (Literal "rgba(0, 0, 0, 0.4)")).

Definition requestAnimationFrame : M nat := fun s =>
  let h := S (next_handle s) in
  (Normal h, set_next_handle h (set_frames (frames s ++ [h]) s)).

(** [animate]: the four updates, the five draw calls, then the next
    frame is requested.  A draw call that throws ends the callback
    before the request: the arrays are updated already, and no further
    frame is scheduled. *)
Definition animate : M unit :=
  clusterOpacity ← updateClusters;
  nebulaOpacity ← updateNebulas;
  dustOpacity ← updateSpaceDust;
  starCurrent ← updateStars;
  drawClusters clusterOpacity;;
  drawNebulas nebulaOpacity;;
  drawSpaceDust dustOpacity;;
  drawStars starCurrent;;
  drawVignette;;
  h ← requestAnimationFrame;
  modify (set_animationId (Some h)).

(** The browser runs the frame callback scheduled under handle [h]. *)
Definition frame_fires (h : nat) : M unit :=
  s ← get;
  if bool_decide (h ∈ frames s)
  then modify (set_frames (filter (fun k => k ≠ h) (frames s)));; animate
  else mret tt.

(** [handleVisibilityChange], with [document.visibilityState === 'visible']
    as [visible]. *)
Definition handleVisibilityChange (visible : bool) : M unit :=
  if visible then resizeCanvas else mret tt.

Definition visibility_event (visible : bool) : M unit :=
  s ← get;
  when (bool_decide
          (Registration Document "visibilitychange" handleVisibilityChange_h ∈ listeners s))
       (handleVisibilityChange visible).

(** What can happen to a running system between load and teardown. *)
Inductive happening : Type :=
| Frame (h : nat)
| Resized (w h : Z)
| Elapsed (t : nat)
| Visibility (visible : bool)
| Respawn.

Variable PI : Q.

Definition happen (e : happening) : M unit :=
  match e with
  | Frame h => frame_fires h
  | Resized w h => resize_event w h
  | Elapsed t => timeout_elapses rnd fsqrt PI random t
  | Visibility v => visibility_event v
  | Respawn => respawn rnd fsqrt PI random
  end.

Fixpoint happen_all (es : list happening) : M unit :=
  match es with
  | [] => mret tt
  | e :: rest => happen e;; happen_all rest
  end.

(** The state over time.  An exception that a callback does not catch
    ends that callback only: the browser reports it and goes on with
    the next task, on the state the callback left. *)
Definition elapse (es : list happening) (s : state) : state :=
  foldl (fun s e => snd (happen e s)) s es.

End Animation.

(** At most one frame is scheduled, and then [animationId] is its
    handle; at most one timer is armed, and then [resizeTimeout] is its
    handle. *)
Definition calm (s : state) : Prop :=
  (frames s = [] \/ exists h, frames s = [h] /\ animationId s = Some h /\ (0 < h)%nat) /\
  (timeouts s = [] \/ exists t, timeouts s = [t] /\ resizeTimeout s = Some t).

(** One frame is scheduled and [animationId] is its handle; at most one
    timer is armed and [resizeTimeout] is its handle. *)
Definition steady (s : state) : Prop :=
  (exists h, frames s = [h] /\ animationId s = Some h /\ (0 < h)%nat) /\
  (timeouts s = [] \/ exists t, timeouts s = [t] /\ resizeTimeout s = Some t).

(** The population a creation makes: the configured number of stars of
    the three layers, of nebulas, of clusters and of dust particles. *)
Definition populated (s : state) : Prop :=
  length (stars s) = (distantStarCount + midStarCount + nearStarCount)%nat /\
  length (nebulas s) = nebulaCount /\
  length (clusters s) = clusterCount /\
  length (spaceDust s) = dustCount.

(** [0 <= x <= width] and [0 <= y <= height] *)
Definition on_canvas (width height : Z) (p : Q * Q) : Prop :=
  (0 <= fst p /\ fst p <= inject_Z width) /\
  (0 <= snd p /\ snd p <= inject_Z height).

End Frames.

(** ** Notions about a page in and between transitions *)

Module TransitionNotions.
Import Transitions.

(** The visual state of a page at rest: the body is marked loaded and not
    transitioning, the overlay is hidden, the main region has neither the
    exit nor the entrance class. *)
Definition at_rest (d : document) : Prop :=
  classList_contains "transitioning" (body_className d) = false /\
  classList_contains "page-loaded" (body_className d) = true /\
  (forall m, main d = Some m ->
     classList_contains "fade-out" (className m) = false /\
     classList_contains "fade-in" (className m) = false) /\
  (forall o, overlay d = Some o -> classList_contains "active" o = false).

(** The visual state of a page in its exit phase. *)
Definition exiting (d : document) : Prop :=
  classList_contains "transitioning" (body_className d) = true /\
  classList_contains "page-loaded" (body_className d) = false /\
  (forall m, main d = Some m -> classList_contains "fade-out" (className m) = true) /\
  (forall o, overlay d = Some o -> classList_contains "active" o = true).

(** The address is the URL of the current history entry. *)
Definition anchored (s : page) : Prop :=
  exists e, entries s !! index s = Some e /\ entry_url e = location s.

(** A user navigation: a link click or a history pop. *)
Definition is_navigation (e : event) : bool :=
  match e with
  | Settle _ _ => false
  | _ => true
  end.

Definition navigations (es : list event) : nat :=
  length (filter (fun e => is_navigation e = true) es).

(** A timer whose expiry issues a fetch. *)
Definition is_exit_timer (t : task) : bool :=
  match t with
  | ExitTimer _ | PopExitTimer _ => true
  | _ => false
  end.

(** The fetches issued or about to be: the log, plus the exit timers
    still pending. *)
Definition fetch_budget (s : page) : nat :=
  length (fetches s) + length (filter (fun t => is_exit_timer t = true) (pending s)).

End TransitionNotions.

(** ** Scroll animations ([assets/js/common.js]) *)

Module ScrollAnimations.

(** An element with its class list and the three inline style
    properties the script writes ([None]: not set). *)
Record element : Type := Element {
  classList : gset string;
  opacity : option string;
  transform : option string;
  transition : option string
}.

(** The elements of the document, in document order, and for every
    [IntersectionObserver] created so far the targets it observes. *)
Record dom : Type := Dom {
  elements : list element;
  observers : list (list nat)
}.

(** The selector
    ['.fade-in, .stagger-animate, .slide-in-left, .slide-in-right']. *)
Definition marked (e : element) : bool :=
  classList_contains "fade-in" (classList e) ||
  classList_contains "stagger-animate" (classList e) ||
  classList_contains "slide-in-left" (classList e) ||
  classList_contains "slide-in-right" (classList e).

(** The loop body of [initScrollAnimations] before [observer.observe]. *)
Definition prepare (e : element) : element :=
  if classList_contains "fade-in" (classList e)
  then Element (classList e) (Some "0") (Some "translateY(20px)")
               (Some "opacity 0.6s ease, transform 0.6s ease")
  else e.

Definition targets (d : dom) : list nat :=
  omap id (imap (fun i e => if marked e then Some i else None) (elements d)).

Definition initScrollAnimations (d : dom) : dom :=
  match targets d with
  | [] => d
  | ts => Dom ((fun e => if marked e then prepare e else e) <$> elements d)
              (observers d ++ [ts])
  end.

(** The observer callback on one entry that is intersecting. *)
Definition reveal (e : element) : element :=
  if classList_contains "fade-in" (classList e)
  then Element (classList e) (Some "1") (Some "translateY(0)") (transition e)
  else Element (classList_add "visible" (classList e))
               (opacity e) (transform e) (transition e).

(** The observer callback on a batch of entries, each a target and its
    [isIntersecting]. *)
Definition callback (batch : list (nat * bool)) (d : dom) : dom :=
  foldl (fun (d : dom) (entry : nat * bool) =>
           if snd entry
           then Dom (alter reveal (fst entry) (elements d)) (observers d)
           else d)
        d batch.

(** An element the user can see: a [.fade-in] element is shown through
    its inline opacity, any other marked element through the class
    [visible]. *)
Definition shown (e : element) : Prop :=
  if classList_contains "fade-in" (classList e)
  then opacity e = Some "1"
  else classList_contains "visible" (classList e) = true.

(** What happens to the page over time: the script (or
    [reinitializeScripts] after a page swap) calls [initScrollAnimations],
    or an observer reports a batch of entries. *)
Inductive action : Type :=
  | Init
  | Observed (batch : list (nat * bool)).

Definition perform (d : dom) (a : action) : dom :=
  match a with
  | Init => initScrollAnimations d
  | Observed batch => callback batch d
  end.

Definition is_init (a : action) : bool :=
  match a with
  | Init => true
  | Observed _ => false
  end.

Definition inits (acts : list action) : nat :=
  length (filter (fun a => is_init a = true) acts).

End ScrollAnimations.

(** ** The accordion over time *)

Module TimelineRuns.
Import Timeline.

(** Who registered a click listener on a header: [initTimeline] when
    the page loaded, or [reinitializeScripts] after a content swap.
    Every registration passes a new function object to
    [addEventListener], so none replaces an earlier one. *)
Inductive registration : Type :=
| ByInitTimeline
| ByReinitializeScripts.

Definition listener_of (r : registration) (in_link : bool) : listener :=
  match r with
  | ByInitTimeline => FromInitTimeline in_link
  | ByReinitializeScripts => FromReinitialize
  end.

(** A click on the header of item [i], its target inside a
    [.timeline-link] or not: the listeners on the header run in the
    order of their registration. *)
Definition dispatch (rs : list registration) (i : nat) (in_link : bool) (d : dom) : dom :=
  foldl (fun d r => click (listener_of r in_link) i d) d rs.

(** The listeners on a header that was on the page at load and has
    stayed in the document through [n] content swaps (it lies outside
    the regions a swap replaces, or the swap found no [main] to
    replace). *)
Definition registered_after (n : nat) : list registration :=
  ByInitTimeline :: replicate n ByReinitializeScripts.

(** What happens on a page with the accordion: a click on the header of
    item [i] handled by listener [k], or the oldest pending 100 ms timer
    fires. *)
Inductive action : Type :=
| Press (k : listener) (i : nat)
| Tick.

Definition act (a : action) (d : dom) : completion dom :=
  match a with
  | Press k i => Normal (click k i d)
  | Tick => fire_timer d
  end.

(** The actions in order; an exception thrown by a timer callback is
    kept as the outcome. *)
Fixpoint play (acts : list action) (d : dom) : completion dom :=
  match acts with
  | [] => Normal d
  | a :: rest =>
      match act a d with
      | Normal d' => play rest d'
      | Throw e => Throw e
      end
  end.

End TimelineRuns.

(** ** Concrete pages and inputs *)

Module Fixtures.

Import Timeline Particles Transitions.

(** Two items with headers, the first one open; no
    [.timeline-container] on the page. *)
Definition two_items : dom :=
  Dom [Item {[ "timeline-item"; "active" ]} true 300;
       Item {[ "timeline-item" ]} true 400] None [] [].

(** A page on which the particle system runs: the canvas is attached,
    the three listeners are registered, frame 1 is scheduled, and no
    script of the site defines a global [shootingStarIntervalId]. *)
Definition running : state :=
  State 1280 720 1280 720 true [] [] [] [] (Some 1%nat) None [1%nat] [] 1%nat
        [Registration Particles.Window "resize" resizeCanvas_h;
         Registration Particles.Document "visibilitychange" handleVisibilityChange_h;
         Registration Particles.Window "pageshow" handlePageShow_h]
        ∅ 0.

(** A concrete instance: exact arithmetic, and a generator that cycles
    through the sixteenths. *)
Definition exact (q : Q) : Q := q.
Definition sixteenths (n : nat) : Q := (Z.of_nat n mod 16) # 16.

(** A page of the site, a resolver for absolute-path references, and a
    parser that yields a bare document titled by its input. *)
Definition site : url := Url "https:" "example.com" "" "/index.html".

Definition home : document :=
  Document "Home" {[ "home" ]}
    (Some (Element {[ "content" ]} "<h1>Home</h1>" None))
    (Some (Element ∅ "<img class=logo>" (Some (Some "logo.png"))))
    (Some "<nav></nav>") None.

Definition resolve_path (base : url) (h : string) : url :=
  Url (protocol base) (hostname base) (port base) h.

Definition parse_bare (html : string) : document :=
  Document html ∅ None None None None.

Definition about_link : link :=
  Link (Some "/about.html") (Url "https:" "example.com" "" "/about.html") None false.

Definition mail_link : link :=
  Link (Some "mailto:me@example.com") (Url "mailto:" "" "" "me@example.com") None false.

(** Same hostname, but another scheme and port. *)
Definition staging_link : link :=
  Link (Some "http://example.com:8080/about.html")
       (Url "http:" "example.com" "8080" "/about.html") None false.

(** URL resolution that also handles a path-relative reference: a
    reference that starts with a slash replaces the path, any other is
    appended to the directory of the base path. *)
Fixpoint has_slash (p : string) : bool :=
  match p with
  | EmptyString => false
  | String c rest => String.eqb (String c EmptyString) "/" || has_slash rest
  end.

Fixpoint directory (p : string) : string :=
  match p with
  | EmptyString => EmptyString
  | String c rest =>
      if has_slash rest then String c (directory rest)
      else if String.eqb (String c EmptyString) "/" then "/" else EmptyString
  end.

Definition resolve_relative (base : url) (h : string) : url :=
  Url (protocol base) (hostname base) (port base)
      (if String.prefix "/" h then h else directory (rest base) ++ h).

Definition blog_link : link :=
  Link (Some "/blog/index.html") (Url "https:" "example.com" "" "/blog/index.html")
       None false.

(** A link on the blog index to its neighbour, written relative to the
    page. *)
Definition next_link : link :=
  Link (Some "next.html") (Url "https:" "example.com" "" "/blog/next.html") None false.

(** A completed visit of the blog index, from the start page. *)
Definition visit_blog : list event :=
  [Click (Some blog_link); Settle 0 NetworkError; Settle 0 (Response true "Blog");
   Settle 0 NetworkError; Settle 0 NetworkError].

(** A completed visit of the about page. *)
Definition visit_about : list event :=
  [Click (Some about_link); Settle 0 NetworkError; Settle 0 (Response true "About");
   Settle 0 NetworkError; Settle 0 NetworkError].

End Fixtures.

Module Scenes.

Import Particles.

(** The running page with one star past the right edge and one dust
    particle past the left edge, both still moving outwards. *)
Definition adrift : state :=
  State 1280 720 1280 720 true
        [Star 1291 100 1 (Some "rgba(255, 255, 255, ") (1 # 100) 0 (3 # 10) (7 # 10)
              (1 # 2) 0 700 mid]
        [] []
        [Dust (-1) 5 1 (1 # 10) (- (1 # 2)) 0 (3 # 1000) 0]
        (Some 1%nat) None [1%nat] [] 1%nat
        [Registration Window "resize" resizeCanvas_h;
         Registration Document "visibilitychange" handleVisibilityChange_h;
         Registration Window "pageshow" handlePageShow_h]
        ∅ 0.

(** The canvas as the HTML standard has it: a negative radius and an
    offset outside [0, 1] are refused with an [IndexSizeError], a colour
    built on an undefined prefix with a [SyntaxError]. *)
Definition canvas2d (c : Frames.canvas_call) : option js_error :=
  match c with
  | Frames.arc radius =>
      if Qle_bool 0 radius then None else Some IndexSizeError
  | Frames.createRadialGradient r0 r1 =>
      if Qle_bool 0 r0 && Qle_bool 0 r1 then None else Some IndexSizeError
  | Frames.addColorStop offset color =>
      if Qle_bool 0 offset && Qle_bool offset 1
      then match color with
           | Frames.Prefixed None _ => Some SyntaxError
           | _ => None
           end
      else Some IndexSizeError
  end.

(** The running page with a full population, every particle at rest in
    the top left corner; the nebulas and the clusters have no colour. *)
Definition crowded : state :=
  State 1280 720 1280 720 true
        (replicate 500 (Star 0 0 1 (Some "rgba(255, 255, 255, ") 0 0 0 1 0 0 0 mid))
        (replicate 8 (Nebula 0 0 250 None 0 0 0 0 0))
        (replicate 4 (Cluster 0 0 80 None 0 0 0 0 0 1 0))
        (replicate 80 (Dust 0 0 1 0 0 0 0 0))
        (Some 1%nat) None [1%nat] [] 1%nat
        [Registration Window "resize" resizeCanvas_h;
         Registration Document "visibilitychange" handleVisibilityChange_h;
         Registration Window "pageshow" handlePageShow_h]
        ∅ 0.

(** Three entries in a container whose bottom edge is at 500; the last
    entry reaches below it. *)
Definition career : Timeline.dom :=
  Timeline.Dom [Timeline.Item {[ "timeline-item"; "active" ]} true 300;
                Timeline.Item {[ "timeline-item"; "active" ]} true 450;
                Timeline.Item {[ "timeline-item" ]} true 620]
               (Some 500) [] [].

(** A busy minute: a frame, a window drag, the timer, a tab switch, a
    respawn, another frame. *)
Definition busy : list Frames.happening :=
  [Frames.Frame 1; Frames.Resized 800 600; Frames.Resized 1024 768;
   Frames.Elapsed 4; Frames.Visibility true; Frames.Respawn; Frames.Frame 2].

(** A resolver that also knows the staging server's absolute URLs. *)
Definition resolve_staging (base : Transitions.url) (h : string) : Transitions.url :=
  if String.prefix "http://example.com:8080" h
  then Transitions.Url "http:" "example.com" "8080" (String.substring 23 (String.length h - 23) h)
  else Fixtures.resolve_path base h.

Definition contact_link : Transitions.link :=
  Transitions.Link (Some "/contact.html")
    (Transitions.Url "https:" "example.com" "" "/contact.html") None false.

(** The about page was visited; then a click on the contact link, and
    while its fetch is in flight the user goes back to the start. *)
Definition pop_during_visit : list Transitions.event :=
  (Fixtures.visit_about ++
   [Transitions.Click (Some contact_link); Transitions.Settle 0 Transitions.NetworkError;
    Transitions.PopState 0])%list.

(** The about page was visited and the user went back to the start. *)
Definition went_back : list Transitions.event :=
  (Fixtures.visit_about ++
   [Transitions.PopState 0; Transitions.Settle 0 Transitions.NetworkError;
    Transitions.Settle 0 (Transitions.Response true "Home");
    Transitions.Settle 0 Transitions.NetworkError;
    Transitions.Settle 0 Transitions.NetworkError])%list.

(** A page with a fading heading, a sliding card and a plain paragraph. *)
Definition article : ScrollAnimations.dom :=
  ScrollAnimations.Dom
    [ScrollAnimations.Element {[ "fade-in" ]} None None None;
     ScrollAnimations.Element {[ "card"; "slide-in-left" ]} None None None;
     ScrollAnimations.Element {[ "text" ]} None None None]
    [].

End Scenes.

(** * Properties *)

Lemma contains_add c cl : classList_contains c (classList_add c cl) = true.
Proof. apply bool_decide_eq_true. unfold classList_add. set_solver. Qed.

Lemma contains_remove c cl : classList_contains c (classList_remove c cl) = false.
Proof. apply bool_decide_eq_false. unfold classList_remove. set_solver. Qed.

Lemma contains_add_ne c c' cl :
  c ≠ c' -> classList_contains c (classList_add c' cl) = classList_contains c cl.
Proof.
  intros Hne. unfold classList_contains, classList_add.
  apply bool_decide_ext. set_solver.
Qed.

Lemma contains_remove_ne c c' cl :
  c ≠ c' -> classList_contains c (classList_remove c' cl) = classList_contains c cl.
Proof.
  intros Hne. unfold classList_contains, classList_remove.
  apply bool_decide_ext. set_solver.
Qed.

(** ** Timeline accordion *)

Module TimelineFacts.
Import Timeline.
Local Open Scope nat_scope.

Lemma active_after_add it : is_active (item_add "active" it) = true.
Proof. apply contains_add. Qed.

Lemma active_after_remove it : is_active (item_remove "active" it) = false.
Proof. apply contains_remove. Qed.

Lemma close_others_lookup i (l : list item) j :
  close_others i l !! j =
  (fun other => if decide (j = i) then other else item_remove "active" other) <$> l !! j.
Proof. unfold close_others. apply list_lookup_imap. Qed.

(** Whether item [j] is active once the listener of item [i] has run
    its toggle. *)
Lemma active_at_header_click i d j :
  i < length (items d) ->
  active_at (items (header_click i false d)) j =
  bool_decide (j = i) && negb (active_at (items d) i).
Proof.
  intros Hi. unfold header_click, active_at.
  destruct (lookup_lt_is_Some_2 _ _ Hi) as [it Hit]. rewrite Hit.
  destruct (decide (j = i)) as [->|Hne].
  - rewrite bool_decide_eq_true_2 by done.
    destruct (is_active it) eqn:Hact; cbn [items set_items];
      rewrite list_lookup_alter_eq, close_others_lookup, Hit; cbn;
      rewrite decide_True by done;
      auto using active_after_add, active_after_remove.
  - rewrite bool_decide_eq_false_2 by done.
    destruct (is_active it) eqn:Hact; cbn [items set_items];
      rewrite list_lookup_alter_ne, close_others_lookup by congruence;
      (destruct (items d !! j) as [other|]; cbn; [|done]);
      rewrite decide_False by done; apply active_after_remove.
Qed.

Lemma active_at_header_click_reinit i d j :
  i < length (items d) ->
  active_at (items (header_click_reinit i d)) j =
  bool_decide (j = i) && negb (active_at (items d) i).
Proof.
  intros Hi. unfold header_click_reinit, active_at.
  destruct (lookup_lt_is_Some_2 _ _ Hi) as [it Hit]. rewrite Hit.
  destruct (is_active it) eqn:Hact; cbn [negb items set_items]; unfold close_all.
  - rewrite andb_false_r, list_lookup_fmap.
    destruct (items d !! j); cbn; [apply active_after_remove | done].
  - rewrite andb_true_r. destruct (decide (j = i)) as [->|Hne].
    + rewrite bool_decide_eq_true_2 by done.
      rewrite list_lookup_alter_eq, list_lookup_fmap, Hit. cbn.
      apply active_after_add.
    + rewrite bool_decide_eq_false_2 by done.
      rewrite list_lookup_alter_ne, list_lookup_fmap by congruence.
      destruct (items d !! j); cbn; [apply active_after_remove | done].
Qed.

Lemma active_at_click k i d j :
  i < length (items d) -> toggles k = true ->
  active_at (items (click k i d)) j =
  bool_decide (j = i) && negb (active_at (items d) i).
Proof.
  intros Hi Ht. destruct k as [[]|]; cbn in Ht; try discriminate; cbn [click].
  - by apply active_at_header_click.
  - by apply active_at_header_click_reinit.
Qed.

Lemma active_count_none (l : list item) :
  (forall j, active_at l j = false) -> active_count l = 0.
Proof.
  unfold active_count. induction l as [|x l IH]; intros H; [done|].
  pose proof (H 0) as H0. cbn in H0.
  rewrite filter_cons_False by (rewrite H0; discriminate).
  apply IH. intros j. apply (H (S j)).
Qed.

Lemma active_count_le_1 (l : list item) i :
  (forall j, j ≠ i -> active_at l j = false) -> active_count l <= 1.
Proof.
  unfold active_count. revert i. induction l as [|x l IH]; intros i H; [cbn; lia|].
  destruct i as [|i].
  - assert (Hz : active_count l = 0).
    { apply active_count_none. intros j. apply (H (S j)). lia. }
    unfold active_count in Hz.
    destruct (decide (is_active x = true)).
    + rewrite filter_cons_True by done. cbn. lia.
    + rewrite filter_cons_False by done. lia.
  - pose proof (H 0 ltac:(lia)) as H0. cbn in H0.
    rewrite filter_cons_False by (rewrite H0; discriminate).
    apply (IH i). intros j Hj. apply (H (S j)). lia.
Qed.

(** Two distinct active items make the count at least two. *)
Lemma active_count_ge_2 (l : list item) a c :
  a < c -> active_at l a = true -> active_at l c = true -> 2 <= active_count l.
Proof.
  unfold active_count. revert a c.
  induction l as [|x l IH]; intros a c Hlt Ha Hc; [discriminate|].
  destruct a as [|a].
  - cbn in Ha. rewrite filter_cons_True by done. cbn.
    destruct c as [|c]; [lia|]. cbn in Hc.
    clear IH Ha Hlt. revert c Hc. induction l as [|y l IH]; intros c Hc.
    + discriminate.
    + destruct c as [|c]; cbn in Hc.
      * rewrite filter_cons_True by done. cbn. lia.
      * specialize (IH c Hc).
        destruct (decide (is_active y = true)).
        -- rewrite filter_cons_True by done. cbn. lia.
        -- rewrite filter_cons_False by done. lia.
  - destruct c as [|c]; [lia|]. cbn in Ha, Hc.
    assert (2 <= length (filter (fun it => is_active it = true) l))
      by (apply (IH a c); [lia|done..]).
    destruct (decide (is_active x = true)).
    + rewrite filter_cons_True by done. cbn. lia.
    + rewrite filter_cons_False by done. lia.
Qed.

Lemma at_most_one_active (l : list item) a c :
  active_count l <= 1 -> active_at l a = true -> a ≠ c -> active_at l c = false.
Proof.
  intros Hle Ha Hne. destruct (active_at l c) eqn:Hc; [|done].
  destruct (decide (a < c)).
  - pose proof (active_count_ge_2 l a c ltac:(done) Ha Hc). lia.
  - pose proof (active_count_ge_2 l c a ltac:(lia) Hc Ha). lia.
Qed.

(** One run of either click listener of the repository, on any list of
    items with at most one active: afterwards at most one item is
    active; if the run reaches the toggle and another item [a] was
    active, then afterwards [b] is active and no other item is; if it
    reaches the toggle and [b] itself was active, then afterwards no
    item is active. *)
Lemma listener_run_single_open (k : listener) (d : dom) (a b : nat) :
  a < length (items d) -> b < length (items d) ->
  active_count (items d) <= 1 ->
  active_count (items (click k b d)) <= 1 /\
  (toggles k = true -> a ≠ b -> active_at (items d) a = true ->
     forall j, active_at (items (click k b d)) j = bool_decide (j = b)) /\
  (toggles k = true -> active_at (items d) b = true ->
     forall j, active_at (items (click k b d)) j = false).
Proof.
  intros Ha Hb Hinv. split; [|split].
  - destruct (toggles k) eqn:Ht.
    + apply (active_count_le_1 _ b). intros j Hj.
      rewrite active_at_click by done.
      by rewrite bool_decide_eq_false_2.
    + destruct k as [[]|]; cbn in Ht; try discriminate. exact Hinv.
  - intros Ht Hne Hact j. rewrite active_at_click by done.
    rewrite (at_most_one_active _ a b) by done. cbn. apply andb_true_r.
  - intros Ht Hact j. rewrite active_at_click by done.
    rewrite Hact. apply andb_false_r.
Qed.

End TimelineFacts.

Module TimelineExamples.
Import Timeline TimelineFacts Fixtures.
Local Open Scope nat_scope.

Example listener_run_on_two_items :
  active_count (items (click (FromInitTimeline false) 1 two_items)) <= 1 /\
  (forall j, active_at (items (click (FromInitTimeline false) 1 two_items)) j
             = bool_decide (j = 1)).
Proof.
  destruct (listener_run_single_open (FromInitTimeline false) two_items 0 1)
    as (Hcount & Hswitch & _).
  - cbn. lia.
  - cbn. lia.
  - vm_compute. lia.
  - split; [exact Hcount|].
    apply Hswitch; [reflexivity | lia | vm_compute; reflexivity].
Defined.

(** With both listeners on one header (the original one and the one
    [reinitializeScripts] adds), a click on a closed item opens it and
    closes it again. *)
Example both_listeners_cancel :
  active_count (items (click FromReinitialize 1
                         (click (FromInitTimeline false) 1 two_items))) = 0.
Proof. vm_compute. reflexivity. Qed.

End TimelineExamples.

(** ** Guarded and unguarded lookups *)

Module LookupFacts.
Import Timeline.
Local Open Scope nat_scope.

(** The lookups of [initTimeline] proper are guarded: no item, no
    listener; an item without a header gets none; and a click on an item
    the NodeList does not hold changes nothing. *)
Lemma initTimeline_no_items d : items d = [] -> initTimeline d = [].
Proof. unfold initTimeline. by intros ->. Qed.

Lemma initTimeline_registers d i :
  i ∈ initTimeline d <-> exists it, items d !! i = Some it /\ has_header it = true.
Proof.
  unfold initTimeline. rewrite list_elem_of_omap. split.
  - intros (o & Ho & Hi). cbn in Hi. subst o.
    apply list_elem_of_lookup in Ho as [j Hj].
    rewrite list_lookup_imap in Hj.
    destruct (items d !! j) as [it|] eqn:E; [|discriminate]. cbn in Hj.
    destruct (has_header it) eqn:Hh; [|discriminate].
    injection Hj as <-. by exists it.
  - intros (it & Hit & Hh). exists (Some i). split; [|done].
    apply list_elem_of_lookup. exists i.
    rewrite list_lookup_imap, Hit. cbn. by rewrite Hh.
Qed.

Lemma header_click_absent i in_link d :
  items d !! i = None -> header_click i in_link d = d.
Proof. intros H. unfold header_click. rewrite H. by destruct in_link. Qed.

(** C6 (fails on the code).  The 100 ms callback of the timeline click
    listener looks up [.timeline-container] and dereferences the result
    unguarded: on a page without that element the callback of any
    existing item ends in a [TypeError] instead of doing nothing. *)
Theorem scroll_callback_unguarded (i : nat) (d : dom) :
  i < length (items d) -> container d = None ->
  scroll_callback i d = Throw TypeError.
Proof.
  intros Hi Hc. unfold scroll_callback.
  destruct (lookup_lt_is_Some_2 _ _ Hi) as [it ->]. by rewrite Hc.
Qed.

Lemma scroll_callback_unguarded_witness :
  fire_timer (header_click 1 false Fixtures.two_items) = Throw TypeError.
Proof.
  apply (scroll_callback_unguarded 1); [vm_compute; lia | reflexivity].
Defined.

End LookupFacts.

(** ** Particle background *)

Module ParticleFacts.
Import Particles Fixtures.
Local Open Scope nat_scope.

(** C8 (fails on the code).  [destroy] cancels the scheduled animation
    frame and then reads [shootingStarIntervalId], which the module never
    declares: unless some other script defines a global of that name the
    call ends in a [ReferenceError], with every listener still registered,
    the resize timer still pending and the canvas still in the
    document. *)
Theorem destroy_throws (s : state) :
  globals s !! "shootingStarIntervalId" = None ->
  fst (destroy s) = Throw ReferenceError /\
  frames (snd (destroy s)) =
    match animationId s with
    | Some (S n) => filter (fun k => k ≠ S n) (frames s)
    | _ => frames s
    end /\
  listeners (snd (destroy s)) = listeners s /\
  timeouts (snd (destroy s)) = timeouts s /\
  canvas_attached (snd (destroy s)) = canvas_attached s.
Proof.
  intros Hg. unfold destroy, mbind, M_bind, get, when, read_global.
  destruct (animationId s) as [[|n]|] eqn:Hid; cbn; rewrite Hg; cbn;
    repeat split; reflexivity.
Qed.

Lemma destroy_throws_witness :
  fst (destroy running) = Throw ReferenceError /\
  listeners (snd (destroy running)) = listeners running /\
  canvas_attached (snd (destroy running)) = true.
Proof.
  destruct (destroy_throws running) as (Hthrow & _ & Hl & _ & Hc);
    [reflexivity|].
  repeat split; assumption.
Defined.

(** Had the identifier been bound, the rest of [destroy] would do what
    its name says. *)
Lemma destroy_with_global (s : state) v :
  globals s !! "shootingStarIntervalId" = Some v ->
  fst (destroy s) = Normal tt /\
  listeners (snd (destroy s)) =
    filter (fun l => l ≠ Registration Window "pageshow" handlePageShow_h)
      (filter (fun l => l ≠ Registration Document "visibilitychange" handleVisibilityChange_h)
         (filter (fun l => l ≠ Registration Window "resize" resizeCanvas_h)
            (listeners s))) /\
  canvas_attached (snd (destroy s)) = false.
Proof.
  intros Hg. unfold destroy, mbind, M_bind, get, when, read_global.
  destruct (animationId s) as [[|n]|]; cbn; rewrite Hg; cbn;
    destruct v; cbn; destruct (resizeTimeout s); cbn;
    destruct (canvas_attached s) eqn:Hc; cbn; auto.
Qed.

End ParticleFacts.

Module RegenerationFacts.
Import Particles Fixtures.

Section Bounds.

Variables (rnd fsqrt : Q -> Q) (PI : Q) (random : nat -> Q).

(** Rounding is monotone and leaves the integers below 2^53 alone;
    [Math.random()] returns a value of [0, 1). *)
Hypothesis rnd_monotone : forall a c : Q, a <= c -> rnd a <= rnd c.
Hypothesis rnd_integer :
  forall z : Z, (0 <= z < 2 ^ 53)%Z -> rnd (inject_Z z) == inject_Z z.
Hypothesis random_unit : forall n : nat, 0 <= random n /\ random n < 1.

(** The canvas size at the time of creation, within the range of the
    window's inner size. *)
Variables (w h : Z).
Hypothesis w_range : (0 <= w < 2 ^ 31)%Z.
Hypothesis h_range : (0 <= h < 2 ^ 31)%Z.

(** Within the range of a window size the assignment to the canvas
    keeps the value. *)
Lemma canvas_dimension_range (default z : Z) :
  (0 <= z < 2 ^ 31)%Z -> canvas_dimension default z = z.
Proof.
  intros Hz. unfold canvas_dimension, unsigned_long.
  rewrite Z.mod_small by lia.
  destruct (Z.leb_spec z 2147483647); [done | lia].
Qed.

Lemma coordinate_range (u : Q) (z : Z) :
  0 <= u -> u < 1 -> (0 <= z < 2 ^ 31)%Z ->
  0 <= fmul rnd u (inject_Z z) /\ fmul rnd u (inject_Z z) <= inject_Z z.
Proof.
  intros Hu0 Hu1 Hz. unfold fmul.
  assert (Hz0 : 0 <= inject_Z z).
  { change 0 with (inject_Z 0). rewrite <- Zle_Qle. lia. }
  split.
  - rewrite <- (rnd_integer 0) by lia.
    apply rnd_monotone. change (inject_Z 0) with 0.
    by apply Qmult_le_0_compat.
  - rewrite <- (rnd_integer z) at 2 by lia.
    apply rnd_monotone.
    rewrite <- (Qmult_1_l (inject_Z z)) at 2.
    apply Qmult_le_compat_r; [by apply Qlt_le_weak | done].
Qed.

Lemma random_position (n : nat) (s : state) :
  canvas_width s = w -> canvas_height s = h ->
  in_bounds w h (fmul rnd (random n) (inject_Z (canvas_width s)),
                 fmul rnd (random (S n)) (inject_Z (canvas_height s))).
Proof.
  intros -> ->.
  destruct (random_unit n) as [Hn0 Hn1], (random_unit (S n)) as [Hm0 Hm1].
  destruct (coordinate_range _ w Hn0 Hn1 w_range) as [Hx0 Hx1].
  destruct (coordinate_range _ h Hm0 Hm1 h_range) as [Hy0 Hy1].
  unfold in_bounds; cbn [fst snd]. repeat split.
  - apply Qle_trans with 0; [done | exact Hx0].
  - apply Qle_trans with (inject_Z w); [exact Hx1|].
    rewrite <- (Qplus_0_r (inject_Z w)) at 1. by apply Qplus_le_compat; [apply Qle_refl|].
  - apply Qle_trans with 0; [done | exact Hy0].
  - apply Qle_trans with (inject_Z h); [exact Hy1|].
    rewrite <- (Qplus_0_r (inject_Z h)) at 1. by apply Qplus_le_compat; [apply Qle_refl|].
Qed.

Local Abbreviation array_ok := (Particles.array_ok w h).
Local Abbreviation good := (Particles.good w h).

Lemma array_ok_nil {A} (pos : A -> Q * Q) : array_ok pos (Some 0%nat) [].
Proof. split; [done | constructor]. Qed.

Lemma array_ok_push {A} (pos : A -> Q * Q) k l p :
  array_ok pos (Some k) l -> in_bounds w h (pos p) ->
  array_ok pos (Some (S k)) (l ++ [p]).
Proof.
  intros [Hlen Hall] Hp. split.
  - rewrite length_app, Hlen. cbn. lia.
  - apply Forall_app. split; [done|]. constructor; [done | constructor].
Qed.

Ltac run_js :=
  unfold pushStar, pushNebula, pushCluster, pushDust, spread, pick,
    Math_random, get, modify, mbind, M_bind, mret, M_ret;
  cbn.

Ltac pushed :=
  eexists; split; [reflexivity|];
  constructor; cbn;
  first [ assumption
        | apply array_ok_push; [assumption | by apply random_position] ].

Lemma pushStar_good l cx cy a b c e s :
  good (Some a) b c e s ->
  exists s', pushStar rnd fsqrt PI random l cx cy s = (Normal tt, s') /\
             good (Some (S a)) b c e s'.
Proof. intros [Hw Hh Hs Hn Hcl Hd]. run_js. pushed. Qed.

Lemma pushNebula_good cx cy a b c e s :
  good a (Some b) c e s ->
  exists s', pushNebula rnd fsqrt PI random cx cy s = (Normal tt, s') /\
             good a (Some (S b)) c e s'.
Proof. intros [Hw Hh Hs Hn Hcl Hd]. run_js. pushed. Qed.

Lemma pushCluster_good cx cy a b c e s :
  good a b (Some c) e s ->
  exists s', pushCluster rnd fsqrt PI random cx cy s = (Normal tt, s') /\
             good a b (Some (S c)) e s'.
Proof. intros [Hw Hh Hs Hn Hcl Hd]. run_js. pushed. Qed.

Lemma pushDust_good a b c e s :
  good a b c (Some e) s ->
  exists s', pushDust rnd PI random s = (Normal tt, s') /\
             good a b c (Some (S e)) s'.
Proof. intros [Hw Hh Hs Hn Hcl Hd]. run_js. pushed. Qed.

(** A loop whose body advances a counted invariant by one. *)
Lemma repeatM_counted (I : nat -> state -> Prop) (body : M unit) :
  (forall k s, I k s -> exists s', body s = (Normal tt, s') /\ I (S k) s') ->
  forall n k s, I k s ->
    exists s', repeatM n body s = (Normal tt, s') /\ I (n + k)%nat s'.
Proof.
  intros Hbody n. induction n as [|n IH]; intros k s Hk.
  - exists s. by split.
  - destruct (Hbody k s Hk) as (s1 & E1 & H1).
    destruct (IH (S k) s1 H1) as (s2 & E2 & H2).
    exists s2. split.
    + cbn [repeatM]. unfold mbind, M_bind. by rewrite E1.
    + by replace (S n + k)%nat with (n + S k)%nat by lia.
Qed.

Lemma bind_normal {A B} (m : M A) (k : A -> M B) s a s' :
  m s = (Normal a, s') -> (m ≫= k) s = k a s'.
Proof. intros E. unfold mbind, M_bind. by rewrite E. Qed.

(** Runs the loop at the head of the goal from count [k0] under the
    invariant [I], leaving the state after it and its invariant. *)
Ltac loop_at n body s0 I k0 tac :=
  let Hbody := fresh "Hbody" in
  let after := fresh "s'" in
  let E := fresh "E" in
  let G := fresh "G" in
  assert (Hbody : forall j t, I j t ->
            exists u, body t = (Normal tt, u) /\ I (S j) u)
    by (intros ? ?; cbv beta; tac);
  destruct (repeatM_counted I body Hbody n k0 s0) as (after & E & G);
  [ | cbv beta in G; clear Hbody ].

Ltac loop I k0 tac :=
  lazymatch goal with
  | |- context [(repeatM ?n ?body ≫= _) ?s0] => idtac; loop_at n body s0 I k0 tac
  | |- context [repeatM ?n ?body ?s0] => idtac; loop_at n body s0 I k0 tac
  end.

Lemma createNebulas_good a b c e s :
  good a b c e s ->
  exists s', createNebulas rnd fsqrt PI random s = (Normal tt, s') /\
             good a (Some nebulaCount) c e s'.
Proof.
  intros [Hw Hh Hs Hn Hcl Hd]. unfold createNebulas.
  rewrite (bind_normal _ _ s tt (set_nebulas [] s)) by reflexivity.
  rewrite (bind_normal _ _ _ (set_nebulas [] s) (set_nebulas [] s)) by reflexivity.
  cbn zeta.
  loop (fun k => good a (Some k) c e) 0%nat ltac:(apply pushNebula_good).
  { constructor; cbn; auto using array_ok_nil. }
  exists s'. split; [exact E | exact G].
Qed.

Lemma createClusters_good a b c e s :
  good a b c e s ->
  exists s', createClusters rnd fsqrt PI random s = (Normal tt, s') /\
             good a b (Some clusterCount) e s'.
Proof.
  intros [Hw Hh Hs Hn Hcl Hd]. unfold createClusters.
  rewrite (bind_normal _ _ s tt (set_clusters [] s)) by reflexivity.
  rewrite (bind_normal _ _ _ (set_clusters [] s) (set_clusters [] s)) by reflexivity.
  cbn zeta.
  loop (fun k => good a b (Some k) e) 0%nat ltac:(apply pushCluster_good).
  { constructor; cbn; auto using array_ok_nil. }
  exists s'. split; [exact E | exact G].
Qed.

Lemma createSpaceDust_good a b c e s :
  good a b c e s ->
  exists s', createSpaceDust rnd PI random s = (Normal tt, s') /\
             good a b c (Some dustCount) s'.
Proof.
  intros [Hw Hh Hs Hn Hcl Hd]. unfold createSpaceDust.
  rewrite (bind_normal _ _ s tt (set_spaceDust [] s)) by reflexivity.
  loop (fun k => good a b c (Some k)) 0%nat ltac:(apply pushDust_good).
  { constructor; cbn; auto using array_ok_nil. }
  exists s'. split; [exact E | exact G].
Qed.

(** [createStars] on a canvas of size [w] x [h], whatever the arrays
    held before: 500 stars, 8 nebulas, 4 clusters and 80 dust
    particles, all in bounds. *)
Lemma createStars_good s :
  canvas_width s = w -> canvas_height s = h ->
  exists s', createStars rnd fsqrt PI random s = (Normal tt, s') /\
             good (Some 500%nat) (Some 8%nat) (Some 4%nat) (Some 80%nat) s'.
Proof.
  intros Hw Hh. unfold createStars.
  rewrite (bind_normal _ _ s tt (set_stars [] s)) by reflexivity.
  rewrite (bind_normal _ _ _ (set_stars [] s) (set_stars [] s)) by reflexivity.
  cbn zeta.
  loop (fun k => good (Some k) None None None) 0%nat ltac:(apply pushStar_good).
  { constructor; cbn; auto using array_ok_nil. }
  rewrite (bind_normal _ _ _ _ _ E). clear E.
  loop (fun k => good (Some k) None None None) (200 + 0)%nat ltac:(apply pushStar_good).
  { exact G. }
  rewrite (bind_normal _ _ _ _ _ E). clear E G.
  loop (fun k => good (Some k) None None None) (200 + (200 + 0))%nat
    ltac:(apply pushStar_good).
  { exact G0. }
  rewrite (bind_normal _ _ _ _ _ E). clear E G0.
  destruct (createNebulas_good _ _ _ _ _ G) as (s1 & E1 & G1).
  rewrite (bind_normal _ _ _ _ _ E1). clear E1 G.
  destruct (createClusters_good _ _ _ _ _ G1) as (s2 & E2 & G2).
  rewrite (bind_normal _ _ _ _ _ E2). clear E2 G1.
  destruct (createSpaceDust_good _ _ _ _ _ G2) as (s3 & E3 & G3).
  exists s3. split; [exact E3 | exact G3].
Qed.

Lemma good_positions s :
  good (Some 500%nat) (Some 8%nat) (Some 4%nat) (Some 80%nat) s ->
  length (positions s) = 592%nat /\ Forall (in_bounds w h) (positions s).
Proof.
  intros [_ _ [Ls Hs] [Ln Hn] [Lc Hc] [Ld Hd]]. unfold positions. split.
  - rewrite !length_app, !length_fmap, Ls, Ln, Lc, Ld. reflexivity.
  - rewrite !Forall_app, !Forall_fmap. done.
Qed.

(** C9.  The window is resized to [w] x [h]; the [resize] listener
    sets the canvas to that size and arms the 250 ms timer; when the
    timer elapses [createStars] runs to completion, and right after it
    the four particle sets hold 500 + 8 + 4 + 80 particles, each at a
    position inside [-10, w + 10] x [-10, h + 10]. *)
Theorem regenerated_in_bounds (s : state) :
  Registration Window "resize" resizeCanvas_h ∈ listeners s ->
  exists (t : nat) (s1 s2 : state),
    resize_event w h s = (Normal tt, s1) /\
    resizeTimeout s1 = Some t /\
    timeout_elapses rnd fsqrt PI random t s1 = (Normal tt, s2) /\
    length (positions s2) = 592%nat /\
    Forall (in_bounds w h) (positions s2).
Proof.
  intros Hreg.
  set (s0 := set_innerHeight h (set_innerWidth w s)).
  set (t := S (next_handle s)).
  set (s1 := set_resizeTimeout (Some t) (set_next_handle t
               (set_timeouts
                  (match resizeTimeout s with
                   | Some n => filter (fun k => k ≠ n) (timeouts s)
                   | None => timeouts s
                   end ++ [t])
                  (set_canvas_height h (set_canvas_width w s0))))).
  assert (E1 : resize_event w h s = (Normal tt, s1)).
  { unfold resize_event, resizeCanvas, when, get, modify, setTimeout,
      mbind, M_bind, mret, M_ret. cbn.
    rewrite bool_decide_eq_true_2 by exact Hreg. cbn.
    rewrite !canvas_dimension_range by done.
    unfold s1, s0, t. by destruct (resizeTimeout s). }
  assert (Ht : t ∈ timeouts s1).
  { unfold s1. cbn. apply elem_of_app. right. by apply list_elem_of_singleton. }
  destruct (createStars_good (set_timeouts (filter (fun k => k ≠ t) (timeouts s1)) s1))
    as (s2 & E2 & G2); [reflexivity | reflexivity |].
  exists t, s1, s2. split; [exact E1|]. split; [reflexivity|]. split.
  - unfold timeout_elapses. rewrite (bind_normal _ _ s1 s1 s1) by reflexivity.
    rewrite bool_decide_eq_true_2 by exact Ht.
    rewrite (bind_normal _ _ s1 tt
               (set_timeouts (filter (fun k => k ≠ t) (timeouts s1)) s1))
      by reflexivity.
    exact E2.
  - by apply good_positions.
Qed.

End Bounds.

Lemma sixteenths_unit n : 0 <= sixteenths n /\ sixteenths n < 1.
Proof.
  unfold sixteenths, Qle, Qlt. cbn.
  pose proof (Z.mod_pos_bound (Z.of_nat n) 16 ltac:(lia)). lia.
Qed.

Example createStars_runs :
  let s := snd (createStars exact exact (355 # 113) sixteenths Fixtures.running) in
  (length (stars s), length (nebulas s), length (clusters s), length (spaceDust s))
  = (500, 8, 4, 80)%nat /\
  ((fun p => Qred (star_x p)) <$> stars s) !! 3%nat = Some (880 # 1).
Proof. vm_compute. split; reflexivity. Qed.

Lemma regenerated_in_bounds_witness :
  exists (t : nat) (s1 s2 : state),
    resize_event 1024 768 Fixtures.running = (Normal tt, s1) /\
    resizeTimeout s1 = Some t /\
    timeout_elapses exact exact (355 # 113) sixteenths t s1 = (Normal tt, s2) /\
    length (positions s2) = 592%nat /\
    Forall (in_bounds 1024 768) (positions s2).
Proof.
  apply (regenerated_in_bounds exact exact (355 # 113) sixteenths).
  - intros a c Hac. exact Hac.
  - intros z _. reflexivity.
  - exact sixteenths_unit.
  - lia.
  - lia.
  - apply list_elem_of_here.
Defined.

End RegenerationFacts.


(** ** Page transitions *)

Module TransitionFacts.
Import Transitions.
Local Open Scope nat_scope.

(** *** Link filtering *)

Lemma click_without_anchor (s : page) : handleLinkClick None s = (false, s).
Proof. reflexivity. Qed.

Lemma skipped_click (l : link) (s : page) :
  skipped l s = true -> handleLinkClick (Some l) s = (false, s).
Proof. intros H. unfold handleLinkClick. by rewrite H. Qed.

(** C4.  A click on an anchor with no (or an empty) [href], with another
    hostname than the page, with an [href] that starts with [#],
    [mailto:] or [tel:], with [target="_blank"], or with a [download]
    attribute: the handler returns without calling [preventDefault] and
    leaves the whole state as it was, so no timer is armed and no fetch is
    issued, then or later. *)
Theorem excluded_links_untouched (l : link) (s : page) :
  no_href (href l) = true \/
  hostname (link_url l) ≠ hostname (location s) \/
  starts_with "#" (href l) = true \/
  starts_with "mailto:" (href l) = true \/
  starts_with "tel:" (href l) = true \/
  target l = Some "_blank" \/
  download l = true ->
  handleLinkClick (Some l) s = (false, s).
Proof.
  intros H. apply skipped_click. unfold skipped.
  destruct H as [H|[H|[H|[H|[H|[H|H]]]]]].
  - by rewrite H.
  - rewrite (bool_decide_eq_false_2 _ H). cbn. by rewrite orb_true_r.
  - rewrite H. by rewrite !orb_true_r.
  - rewrite H. by rewrite !orb_true_r.
  - rewrite H. by rewrite !orb_true_r.
  - rewrite (bool_decide_eq_true_2 _ H). by rewrite !orb_true_r.
  - rewrite H. by rewrite !orb_true_r.
Qed.

(** A click that passes the filter starts a transition to the raw
    [href]. *)
Lemma passing_click (l : link) (s : page) :
  skipped l s = false ->
  exists h, href l = Some h /\ isTransitioning s = false /\
            handleLinkClick (Some l) s =
            (true, schedule (ExitTimer h) (begin_exit (set_isTransitioning true s))).
Proof.
  intros H. unfold handleLinkClick. rewrite H.
  unfold skipped in H. repeat (apply orb_false_elim in H as [H ?]).
  destruct (href l) as [h|]; [|discriminate].
  exists h. repeat split; [done|]. unfold navigateTo. by replace (isTransitioning s) with false.
Qed.

(** C5 (fails on the code).  The filter compares hostnames only: a link
    that passes it is intercepted (default navigation cancelled, the flag
    raised, the exit timer armed) also when its scheme or port differs
    from the page's, that is, when it is not same-origin. *)
Theorem cross_origin_link_intercepted (l : link) (s : page) :
  skipped l s = false -> same_origin (link_url l) (location s) = false ->
  exists h, href l = Some h /\
    fst (handleLinkClick (Some l) s) = true /\
    isTransitioning (snd (handleLinkClick (Some l) s)) = true /\
    pending (snd (handleLinkClick (Some l) s)) = (pending s ++ [ExitTimer h])%list.
Proof.
  intros Hpass _. destruct (passing_click l s Hpass) as (h & Hh & _ & ->).
  exists h. repeat split; done.
Qed.

(** What the filter does guarantee: the hostnames agree. *)
Lemma passing_click_same_host (l : link) (s : page) :
  skipped l s = false -> hostname (link_url l) = hostname (location s).
Proof.
  unfold skipped. intros H.
  do 6 (apply orb_false_elim in H as [H _]).
  apply orb_false_elim in H as [_ H].
  apply negb_false_iff in H. by apply bool_decide_eq_true in H.
Qed.

(** *** What the splice keeps *)

Lemma title_splice_main nd d : title (splice_main nd d) = title d.
Proof. unfold splice_main. by destruct (main d), (main nd). Qed.

Lemma title_splice_header nd d : title (splice_header nd d) = title d.
Proof. unfold splice_header. by destruct (header d), (header nd). Qed.

Lemma title_splice_nav nd d : title (splice_nav nd d) = title d.
Proof. unfold splice_nav. by destruct (nav nd), (nav d), (header d). Qed.

Lemma title_splice nd s : title (doc (splice nd s)) = title nd.
Proof.
  unfold splice. cbn.
  by rewrite title_splice_nav, title_splice_header, title_splice_main.
Qed.

(** A region that is absent from the page, or from the fetched document,
    is skipped: the step is a no-op. *)
Lemma splice_main_absent nd d :
  main d = None \/ main nd = None -> splice_main nd d = d.
Proof. unfold splice_main. intros [-> | ->]; [done | by destruct (main d)]. Qed.

Lemma splice_header_absent nd d :
  header d = None \/ header nd = None -> splice_header nd d = d.
Proof. unfold splice_header. intros [-> | ->]; [done | by destruct (header d)]. Qed.

Lemma splice_nav_absent nd d :
  nav nd = None -> nav d = None -> splice_nav nd d = d.
Proof. unfold splice_nav. by intros -> ->. Qed.

Lemma splice_nav_no_anchor nd d :
  nav d = None -> header d = None -> splice_nav nd d = d.
Proof. unfold splice_nav. intros -> ->. by destruct (nav nd). Qed.

(** *** Which fields an operation leaves alone *)

Lemma schedule_fields t s :
  location (schedule t s) = location s /\ entries (schedule t s) = entries s /\
  index (schedule t s) = index s /\ doc (schedule t s) = doc s /\
  isTransitioning (schedule t s) = isTransitioning s /\
  navigation (schedule t s) = navigation s.
Proof. by repeat split. Qed.

Lemma splice_fields nd s :
  location (splice nd s) = location s /\ entries (splice nd s) = entries s /\
  index (splice nd s) = index s /\ pending (splice nd s) = pending s /\
  isTransitioning (splice nd s) = isTransitioning s /\
  navigation (splice nd s) = navigation s.
Proof. by repeat split. Qed.

Lemma begin_exit_fields s :
  location (begin_exit s) = location s /\ entries (begin_exit s) = entries s /\
  index (begin_exit s) = index s /\ pending (begin_exit s) = pending s /\
  navigation (begin_exit s) = navigation s /\
  title (doc (begin_exit s)) = title (doc s) /\
  innerHTML <$> main (doc (begin_exit s)) = innerHTML <$> main (doc s) /\
  header (doc (begin_exit s)) = header (doc s) /\
  nav (doc (begin_exit s)) = nav (doc s).
Proof.
  repeat split; try reflexivity.
  unfold begin_exit. cbn. by destruct (main (doc s)).
Qed.

(** *** The event loop *)

Section Loop.

Variable resolve : url -> string -> url.
Variable parseFromString : string -> document.

Local Abbreviation step := (Transitions.step resolve parseFromString).
Local Abbreviation run := (Transitions.run resolve parseFromString).
Local Abbreviation run_task := (Transitions.run_task resolve parseFromString).
Local Abbreviation loaded := Transitions.loaded.
Local Abbreviation awaiting := (Transitions.awaiting resolve).
Local Abbreviation pushed := (Transitions.pushed resolve).

Lemma single_loaded at_ d : single (loaded at_ d).
Proof.
  unfold single, in_progress, Transitions.loaded, init. cbn.
  destruct (overlay d); (split; [cbn; lia | done]).
Qed.

Lemma pending_begin_exit s : pending (begin_exit s) = pending s.
Proof. reflexivity. Qed.

Lemma flag_begin_exit s : isTransitioning (begin_exit s) = isTransitioning s.
Proof. reflexivity. Qed.

Lemma single_begin (t : task) (s : page) :
  single s -> isTransitioning s = false ->
  single (schedule t (begin_exit (set_isTransitioning true s))).
Proof.
  intros [_ Hidle] Hflag. specialize (Hidle Hflag).
  split; [|discriminate]. unfold in_progress. cbn. rewrite Hidle. cbn. lia.
Qed.

Lemma single_click t s : single s -> single (step (Click t) s).
Proof.
  intros Hs. cbn. destruct t as [l|]; [|done].
  destruct (skipped l s) eqn:Hskip.
  - by rewrite skipped_click.
  - destruct (passing_click l s Hskip) as (h & _ & Hflag & ->).
    by apply single_begin.
Qed.

Lemma single_traverse i s s' : traverse i s = Some s' -> single s -> single s'.
Proof.
  unfold traverse. destruct (entries s !! i); [|discriminate].
  intros [= <-]. done.
Qed.

Lemma single_pop i s : single s -> single (step (PopState i) s).
Proof.
  intros Hs. cbn. destruct (traverse i s) as [s'|] eqn:Ht; [|done].
  apply (single_traverse _ _ _ Ht) in Hs.
  unfold handlePopState. destruct (isTransitioning s') eqn:Hflag; [done|].
  by apply single_begin.
Qed.

(** A task runs with no other task pending and the flag raised; what it
    leaves is again [single]. *)
Lemma single_run_task t r s :
  pending s = [] -> isTransitioning s = true -> single (run_task t r s).
Proof.
  intros Hp Hflag. unfold single, in_progress.
  destruct t; cbn.
  - rewrite Hp, Hflag. split; [cbn; lia | discriminate].
  - unfold fetch_settled, updatePage, pushState.
    destruct r as [|[] html]; cbn; try (rewrite Hp, Hflag; split; [cbn; lia | discriminate]).
    destruct (same_origin _ _); cbn; rewrite Hp, Hflag; split; (cbn; lia) || discriminate.
  - rewrite Hp, Hflag. split; [cbn; lia | discriminate].
  - rewrite Hp. split; [cbn; lia | done].
  - rewrite Hp, Hflag. split; [cbn; lia | discriminate].
  - destruct r; cbn; rewrite Hp, Hflag; split; (cbn; lia) || discriminate.
  - rewrite Hp, Hflag. split; [cbn; lia | discriminate].
  - rewrite Hp. split; [cbn; lia | done].
Qed.

Lemma single_settle n r s : single s -> single (step (Settle n r) s).
Proof.
  intros [Hle Hidle]. cbn.
  destruct (pending s !! n) as [t|] eqn:Hn; [|by split].
  unfold in_progress in Hle.
  destruct (pending s) as [|t0 [|t1 rest]] eqn:Hp; [done| |cbn in Hle; lia].
  destruct n as [|n]; [|done].
  apply single_run_task; [reflexivity|].
  cbn. destruct (isTransitioning s); [done|]. by specialize (Hidle eq_refl).
Qed.

Lemma single_step e s : single s -> single (step e s).
Proof.
  destruct e; auto using single_click, single_pop, single_settle.
Qed.

Lemma single_run es s : single s -> single (run es s).
Proof.
  revert s. induction es as [|e es IH]; intros s Hs; [done|].
  cbn. apply IH. by apply single_step.
Qed.

Lemma dropped_click t s :
  isTransitioning s = true -> handleLinkClick t s = (false, s).
Proof.
  intros Hflag. destruct t as [l|]; [|done].
  apply skipped_click. unfold skipped. rewrite Hflag. apply orb_true_r.
Qed.

Lemma dropped_pop s : isTransitioning s = true -> handlePopState s = s.
Proof. intros Hflag. unfold handlePopState. by rewrite Hflag. Qed.

(** C1.  From a freshly loaded page and along every sequence of clicks,
    history pops, timer expiries and fetch completions: at most one
    transition is in progress (at most one timer or fetch of the layer is
    pending); while the flag is raised the click handler and the pop
    handler return with the state untouched and without cancelling the
    default action; and a click or pop that puts a transition in progress
    found the flag lowered. *)
Theorem one_transition_at_a_time (at_ : url) (d : document) (es : list event) :
  let s := run es (loaded at_ d) in
  in_progress s <= 1 /\
  (isTransitioning s = true ->
     (forall t, handleLinkClick t s = (false, s)) /\ handlePopState s = s) /\
  (forall t, in_progress s < in_progress (step (Click t) s) ->
     isTransitioning s = false) /\
  (forall i, in_progress s < in_progress (step (PopState i) s) ->
     isTransitioning s = false).
Proof.
  intros s.
  destruct (single_run es _ (single_loaded at_ d)) as [Hle Hidle]. fold s in Hle, Hidle.
  split; [exact Hle|]. split; [|split].
  - intros Hflag. split; [intros t; by apply dropped_click | by apply dropped_pop].
  - intros t Hgrow. destruct (isTransitioning s) eqn:Hflag; [|done].
    cbn in Hgrow. rewrite dropped_click in Hgrow by done.
    by apply Nat.lt_irrefl in Hgrow.
  - intros i Hgrow. destruct (isTransitioning s) eqn:Hflag; [|done].
    cbn in Hgrow. unfold traverse in Hgrow.
    destruct (entries s !! i); [|by apply Nat.lt_irrefl in Hgrow].
    rewrite dropped_pop in Hgrow by done.
    by apply Nat.lt_irrefl in Hgrow.
Qed.

(** *** A link-click transition, step by step *)

Lemma click_then_fetch (l : link) (h : string) (r0 r : fetch_result) (s : page) :
  pending s = [] -> href l = Some h -> skipped l s = false ->
  run [Click (Some l); Settle 0 r0; Settle 0 r] s =
  fetch_settled resolve parseFromString h r (awaiting h s).
Proof.
  intros Hp Hh Hskip.
  destruct (passing_click l s Hskip) as (h' & Hh' & _ & Hclick).
  assert (h' = h) as -> by congruence.
  unfold Transitions.run. cbn [foldl].
  change (step (Click (Some l)) s) with (snd (handleLinkClick (Some l) s)).
  rewrite Hclick. cbn [snd].
  destruct s. cbn in Hp. subst. reflexivity.
Qed.

Lemma update_succeeds (h html : string) (s : page) :
  same_origin (resolve (location s) h) (location s) = true ->
  fetch_settled resolve parseFromString h (Response true html) s =
  schedule EnterTimer (splice (parseFromString html) (pushed h s)).
Proof.
  intros Horigin. unfold fetch_settled, updatePage, pushState.
  by rewrite Horigin.
Qed.

Lemma update_fails (h : string) (r : fetch_result) (s : page) :
  failed r = true ->
  fetch_settled resolve parseFromString h r s = fallback h s.
Proof. by destruct r as [|[] html]. Qed.

(** The two closing timers of a transition whose update step has run. *)
Lemma closing_timers (r1 r2 : fetch_result) (s : page) :
  pending s = [] ->
  run [Settle 0 r1; Settle 0 r2] (schedule EnterTimer s) =
  cleanup (set_pending [] (enter CleanupTimer s)).
Proof. intros Hp. destruct s. cbn in Hp. subst. reflexivity. Qed.

Lemma closed_transition (t : task) (s : page) :
  location (cleanup (set_pending [] (enter t s))) = location s /\
  title (doc (cleanup (set_pending [] (enter t s)))) = title (doc s) /\
  isTransitioning (cleanup (set_pending [] (enter t s))) = false.
Proof. by repeat split. Qed.

Lemma idle_reachable es at_ d :
  isTransitioning (run es (loaded at_ d)) = false ->
  pending (run es (loaded at_ d)) = [].
Proof. intros H. by apply (single_run es _ (single_loaded at_ d)). Qed.

Lemma passing_click_idle (l : link) (s : page) :
  skipped l s = false -> isTransitioning s = false.
Proof. intros H. by destruct (passing_click l s H) as (_ & _ & ? & _). Qed.

(** The update step and the closing timers, on any page with nothing
    pending. *)
Lemma transition_succeeds
    (s : page) (l : link) (h html : string) (r0 r1 r2 : fetch_result) :
  pending s = [] -> href l = Some h -> skipped l s = false ->
  same_origin (resolve (location s) h) (location s) = true ->
  let updated := run [Click (Some l); Settle 0 r0; Settle 0 (Response true html)] s in
  let settled := run [Settle 0 r1; Settle 0 r2] updated in
  (location updated = resolve (location s) h /\
   last (entries updated) = Some (Entry (Some h) (resolve (location s) h)) /\
   index updated = S (index s) /\
   title (doc updated) = title (parseFromString html)) /\
  (location settled = resolve (location s) h /\
   title (doc settled) = title (parseFromString html) /\
   isTransitioning settled = false).
Proof.
  intros Hp Hh Hskip Horigin updated settled.
  assert (Hu : updated =
               schedule EnterTimer (splice (parseFromString html) (pushed h (awaiting h s)))).
  { unfold updated. rewrite (click_then_fetch l h) by done.
    by apply update_succeeds. }
  assert (Hpu : pending (splice (parseFromString html) (pushed h (awaiting h s))) = []).
  { rewrite (proj1 (proj2 (proj2 (proj2 (splice_fields _ _))))). exact Hp. }
  assert (Hs : settled =
               cleanup (set_pending []
                 (enter CleanupTimer (splice (parseFromString html) (pushed h (awaiting h s)))))).
  { unfold settled. rewrite Hu. by apply closing_timers. }
  clearbody updated settled. subst updated settled.
  destruct (closed_transition CleanupTimer
              (splice (parseFromString html) (pushed h (awaiting h s))))
    as (-> & -> & ->).
  destruct (schedule_fields EnterTimer
              (splice (parseFromString html) (pushed h (awaiting h s))))
    as (-> & -> & -> & -> & _).
  destruct (splice_fields (parseFromString html) (pushed h (awaiting h s)))
    as (-> & -> & -> & _).
  rewrite title_splice.
  repeat split. apply last_snoc.
Qed.

(** A transition that nothing interrupts, on any page the event loop
    can reach: a click on a link that passes the filter, the 400 ms
    timer, and a successful response whose URL the history accepts (it
    is same-origin with the page), with no other event in between.  When
    the update step has run, the address is the [href] resolved against
    the page of the click, the entry just pushed carries the state
    [{url: href}] and that address, and the title is the title of the
    fetched document; both still hold when the two closing timers have
    run and the flag is lowered again. *)
Lemma successful_transition
    (es : list event) (at_ : url) (d : document)
    (l : link) (h html : string) (r0 r1 r2 : fetch_result) :
  let s := run es (loaded at_ d) in
  href l = Some h -> skipped l s = false ->
  same_origin (resolve (location s) h) (location s) = true ->
  let updated := run [Click (Some l); Settle 0 r0; Settle 0 (Response true html)] s in
  let settled := run [Settle 0 r1; Settle 0 r2] updated in
  (location updated = resolve (location s) h /\
   last (entries updated) = Some (Entry (Some h) (resolve (location s) h)) /\
   index updated = S (index s) /\
   title (doc updated) = title (parseFromString html)) /\
  (location settled = resolve (location s) h /\
   title (doc settled) = title (parseFromString html) /\
   isTransitioning settled = false).
Proof.
  intros s Hh Hskip Horigin.
  apply transition_succeeds; try done.
  apply idle_reachable. by apply (passing_click_idle l).
Qed.

(** A history traversal while the flag is raised: the browser moves the
    index and the address, the handler returns at its guard. *)
Lemma dropped_traversal (j : nat) (e : entry) (s : page) :
  isTransitioning s = true -> entries s !! j = Some e ->
  step (PopState j) s = set_location (entry_url e) (set_index j s).
Proof.
  intros Hflag He. unfold Transitions.step, traverse. rewrite He.
  unfold handlePopState.
  change (isTransitioning (set_location (entry_url e) (set_index j s)))
    with (isTransitioning s).
  by rewrite Hflag.
Qed.

(** The first pending task settles. *)
Lemma settle_first (t : task) (rest : list task) (r : fetch_result) (s : page) :
  pending s = t :: rest ->
  step (Settle 0 r) s = run_task t r (set_pending rest s).
Proof. intros Hp. unfold Transitions.step. by rewrite Hp. Qed.

Lemma run_cons (e : event) (es : list event) (s : page) :
  run (e :: es) s = run es (step e s).
Proof. reflexivity. Qed.

Lemma pushed_fields h s :
  location (pushed h s) = resolve (location s) h /\
  index (pushed h s) = S (index s) /\
  entries (pushed h s)
  = (take (S (index s)) (entries s) ++ [Entry (Some h) (resolve (location s) h)])%list /\
  pending (pushed h s) = pending s /\ fetches (pushed h s) = fetches s.
Proof. by repeat split. Qed.

Lemma schedule_tail t s :
  pending (schedule t s) = (pending s ++ [t])%list /\ fetches (schedule t s) = fetches s.
Proof. by split. Qed.

Lemma splice_fetches nd s : fetches (splice nd s) = fetches s.
Proof. reflexivity. Qed.

(** The update step of a successful response, field by field. *)
Lemma updated_fields (h html : string) (s : page) :
  pending s = [] ->
  same_origin (resolve (location s) h) (location s) = true ->
  let s' := fetch_settled resolve parseFromString h (Response true html) s in
  fetches s' = fetches s /\
  location s' = resolve (location s) h /\
  last (entries s') = Some (Entry (Some h) (resolve (location s) h)) /\
  title (doc s') = title (parseFromString html) /\
  pending s' = [EnterTimer].
Proof.
  intros Hp Horigin s'. unfold s'. clear s'.
  rewrite update_succeeds by exact Horigin.
  destruct (schedule_fields EnterTimer (splice (parseFromString html) (pushed h s)))
    as (-> & -> & _ & -> & _).
  destruct (schedule_tail EnterTimer (splice (parseFromString html) (pushed h s)))
    as (-> & ->).
  rewrite splice_fetches.
  destruct (splice_fields (parseFromString html) (pushed h s)) as (-> & -> & _ & -> & _).
  destruct (pushed_fields h s) as (-> & _ & -> & -> & ->).
  rewrite title_splice, Hp, last_snoc. done.
Qed.

(** C3 (fails on the code).  The handler keeps the raw [href] and
    resolves it twice, when the timer issues the fetch and when the
    update step pushes the entry, each time against the address of that
    moment.  A history traversal during the transition is dropped by the
    guard of [handlePopState], but the browser has moved the address to
    the entry [e] it went to.  When the traversal comes before the timer
    ([early]), the page fetched and the address pushed are the [href]
    resolved against [e]; when it comes after the fetch was issued
    ([late]), the requested page is fetched and spliced in, and the
    address pushed is still the [href] resolved against [e].  In both
    runs the update step completes. *)
Theorem traversal_moves_target
    (es : list event) (at_ : url) (d : document)
    (l : link) (h html : string) (j : nat) (e : entry) (r0 : fetch_result) :
  let s := run es (loaded at_ d) in
  href l = Some h -> skipped l s = false ->
  entries s !! j = Some e ->
  same_origin (resolve (entry_url e) h) (entry_url e) = true ->
  let early :=
    run [Click (Some l); PopState j; Settle 0 r0; Settle 0 (Response true html)] s in
  let late :=
    run [Click (Some l); Settle 0 r0; PopState j; Settle 0 (Response true html)] s in
  (fetches early = (fetches s ++ [resolve (entry_url e) h])%list /\
   location early = resolve (entry_url e) h /\
   last (entries early) = Some (Entry (Some h) (resolve (entry_url e) h)) /\
   title (doc early) = title (parseFromString html) /\
   pending early = [EnterTimer]) /\
  (fetches late = (fetches s ++ [resolve (location s) h])%list /\
   location late = resolve (entry_url e) h /\
   last (entries late) = Some (Entry (Some h) (resolve (entry_url e) h)) /\
   title (doc late) = title (parseFromString html) /\
   pending late = [EnterTimer]).
Proof.
  intros s Hh Hskip He Horigin early late.
  assert (Hp : pending s = []).
  { apply idle_reachable. by apply (passing_click_idle l). }
  destruct (passing_click l s Hskip) as (h' & Hh' & Hflag & Hclick).
  assert (h' = h) as -> by congruence.
  set (s1 := schedule (ExitTimer h) (begin_exit (set_isTransitioning true s))) in *.
  assert (H1 : step (Click (Some l)) s = s1).
  { unfold Transitions.step. by rewrite Hclick. }
  assert (F1 : isTransitioning s1 = true /\ entries s1 = entries s /\
               pending s1 = [ExitTimer h] /\ fetches s1 = fetches s /\
               location s1 = location s).
  { unfold s1. repeat split. cbn. by rewrite Hp. }
  destruct F1 as (Hf1 & He1 & Hp1 & Hfe1 & Hl1).
  clearbody s1 s. clear Hclick.
  split.
  - unfold early. rewrite !run_cons, H1.
    rewrite (dropped_traversal j e s1) by congruence.
    set (s2 := set_location (entry_url e) (set_index j s1)).
    assert (F2 : pending s2 = [ExitTimer h] /\ fetches s2 = fetches s /\
                 location s2 = entry_url e) by (unfold s2; by repeat split).
    destruct F2 as (Hp2 & Hfe2 & Hl2). clearbody s2.
    rewrite (settle_first (ExitTimer h) [] r0 s2) by exact Hp2.
    cbn [Transitions.run_task].
    set (s3 := fetchPage resolve h (set_pending [] s2)).
    assert (F3 : pending s3 = [Fetching h] /\
                 fetches s3 = (fetches s ++ [resolve (entry_url e) h])%list /\
                 location s3 = entry_url e).
    { unfold s3, fetchPage. cbn. by rewrite Hfe2, Hl2. }
    destruct F3 as (Hp3 & Hfe3 & Hl3). clearbody s3.
    rewrite (settle_first (Fetching h) [] (Response true html) s3) by exact Hp3.
    cbn [Transitions.run_task Transitions.run foldl].
    set (s4 := set_pending [] s3).
    assert (F4 : pending s4 = [] /\ fetches s4 = fetches s3 /\ location s4 = location s3)
      by (unfold s4; by repeat split).
    destruct F4 as (Hp4 & Hfe4 & Hl4). clearbody s4.
    destruct (updated_fields h html s4 Hp4) as (-> & -> & -> & -> & ->).
    { by rewrite Hl4, Hl3. }
    by rewrite Hfe4, Hfe3, Hl4, Hl3.
  - unfold late. rewrite !run_cons, H1.
    rewrite (settle_first (ExitTimer h) [] r0 s1) by exact Hp1.
    cbn [Transitions.run_task].
    set (s2 := fetchPage resolve h (set_pending [] s1)).
    assert (F2 : isTransitioning s2 = true /\ entries s2 = entries s /\
                 pending s2 = [Fetching h] /\
                 fetches s2 = (fetches s ++ [resolve (location s) h])%list).
    { unfold s2, fetchPage. cbn. by rewrite Hf1, He1, Hfe1, Hl1. }
    destruct F2 as (Hf2 & He2 & Hp2 & Hfe2). clearbody s2.
    rewrite (dropped_traversal j e s2) by congruence.
    set (s3 := set_location (entry_url e) (set_index j s2)).
    assert (F3 : pending s3 = [Fetching h] /\ fetches s3 = fetches s2 /\
                 location s3 = entry_url e) by (unfold s3; by repeat split).
    destruct F3 as (Hp3 & Hfe3 & Hl3). clearbody s3.
    rewrite (settle_first (Fetching h) [] (Response true html) s3) by exact Hp3.
    cbn [Transitions.run_task Transitions.run foldl].
    set (s4 := set_pending [] s3).
    assert (F4 : pending s4 = [] /\ fetches s4 = fetches s3 /\ location s4 = location s3)
      by (unfold s4; by repeat split).
    destruct F4 as (Hp4 & Hfe4 & Hl4). clearbody s4.
    destruct (updated_fields h html s4 Hp4) as (-> & -> & -> & -> & ->).
    { by rewrite Hl4, Hl3. }
    by rewrite Hfe4, Hfe3, Hfe2, Hl4, Hl3.
Qed.

Lemma transition_fails (s : page) (l : link) (h : string) (r0 r : fetch_result) :
  pending s = [] -> href l = Some h -> skipped l s = false -> failed r = true ->
  run [Click (Some l); Settle 0 r0; Settle 0 r] s = fallback h (awaiting h s).
Proof.
  intros Hp Hh Hskip Hfail. rewrite (click_then_fetch l h) by done.
  by apply update_fails.
Qed.

Lemma fallback_fields h s :
  location (fallback h s) = location s /\ entries (fallback h s) = entries s /\
  index (fallback h s) = index s /\ doc (fallback h s) = doc s /\
  navigation (fallback h s) = Some (Assign h).
Proof. by repeat split. Qed.

Lemma awaiting_fields h s :
  location (awaiting h s) = location s /\ entries (awaiting h s) = entries s /\
  index (awaiting h s) = index s /\
  title (doc (awaiting h s)) = title (doc s) /\
  innerHTML <$> main (doc (awaiting h s)) = innerHTML <$> main (doc s) /\
  header (doc (awaiting h s)) = header (doc s) /\
  nav (doc (awaiting h s)) = nav (doc s).
Proof.
  pose proof (begin_exit_fields (set_isTransitioning true s))
    as (H1 & H2 & H3 & _ & _ & H6 & H7 & H8 & H9).
  by repeat split.
Qed.

(** C10.  On any page the event loop can reach: a click on a link that
    passes the filter, the 400 ms timer, and a fetch that fails.  The
    failure handler leaves the title, the markup of the main region, the
    header, the nav region, and the session history with its current
    index and address as they were before the click; all it does is log
    the error and hand the requested URL to the browser. *)
Theorem failed_fetch_changes_nothing
    (es : list event) (at_ : url) (d : document)
    (l : link) (h : string) (r0 r : fetch_result) :
  let s := run es (loaded at_ d) in
  href l = Some h -> skipped l s = false -> failed r = true ->
  let s' := run [Click (Some l); Settle 0 r0; Settle 0 r] s in
  title (doc s') = title (doc s) /\
  innerHTML <$> main (doc s') = innerHTML <$> main (doc s) /\
  header (doc s') = header (doc s) /\
  nav (doc s') = nav (doc s) /\
  entries s' = entries s /\ index s' = index s /\ location s' = location s /\
  navigation s' = Some (Assign h).
Proof.
  intros s Hh Hskip Hfail s'.
  assert (Hp : pending s = []) by (apply idle_reachable; by apply (passing_click_idle l)).
  assert (Hs' : s' = fallback h (awaiting h s)) by by apply transition_fails.
  clearbody s s'. subst s'.
  destruct (fallback_fields h (awaiting h s)) as (-> & -> & -> & -> & ->).
  destruct (awaiting_fields h s) as (-> & -> & -> & -> & -> & -> & ->).
  by repeat split.
Qed.

(** *** A history pop, step by step *)

Lemma pop_then_fetch (i : nat) (e : entry) (r0 r : fetch_result) (s : page) :
  pending s = [] -> isTransitioning s = false -> entries s !! i = Some e ->
  run [PopState i; Settle 0 r0; Settle 0 r] s =
  pop_settled parseFromString r (pop_awaiting i e s).
Proof.
  intros Hp Hflag He. unfold Transitions.run. cbn [foldl].
  cbn [Transitions.step]. unfold traverse. rewrite He.
  unfold handlePopState. cbn [isTransitioning set_location set_index].
  rewrite Hflag. destruct s. cbn in Hp. subst. reflexivity.
Qed.

Lemma pop_awaiting_fields i e s :
  pending (pop_awaiting i e s) = pending s /\
  navigation (pop_awaiting i e s) = navigation s.
Proof. by split. Qed.

(** C2 (fails on the code).  A history pop whose fetch is answered with a
    non-success status: no reload is requested; the body of the error
    response is spliced into the page like any other, and the entrance
    timer is armed. *)
Theorem pop_error_status_spliced
    (es : list event) (at_ : url) (d : document)
    (i : nat) (e : entry) (html : string) (r0 : fetch_result) :
  let s := run es (loaded at_ d) in
  isTransitioning s = false -> entries s !! i = Some e ->
  let s' := run [PopState i; Settle 0 r0; Settle 0 (Response false html)] s in
  navigation s' = navigation s /\
  title (doc s') = title (parseFromString html) /\
  pending s' = [PopEnterTimer].
Proof.
  intros s Hflag He s'.
  assert (Hp : pending s = []) by by apply idle_reachable.
  assert (Hs' : s' = schedule PopEnterTimer
                       (splice (parseFromString html) (pop_awaiting i e s))).
  { unfold s'. by rewrite (pop_then_fetch i e). }
  clearbody s s'. subst s'.
  destruct (pop_awaiting_fields i e s) as (Hpa & Hna).
  split; [|split].
  - rewrite (proj2 (proj2 (proj2 (proj2 (proj2 (schedule_fields _ _)))))).
    rewrite (proj2 (proj2 (proj2 (proj2 (proj2 (splice_fields _ _)))))).
    exact Hna.
  - rewrite (proj1 (proj2 (proj2 (proj2 (schedule_fields _ _))))).
    apply title_splice.
  - unfold schedule. cbn [pending set_pending].
    rewrite (proj1 (proj2 (proj2 (proj2 (splice_fields _ _))))).
    by rewrite Hpa, Hp.
Qed.

(** The two failures the layer does handle.  Neither handler lowers the
    flag: the page is left through the navigation it requests. *)
Lemma link_failure_falls_back (l : link) (h : string) (r0 r : fetch_result) (s : page) :
  pending s = [] -> href l = Some h -> skipped l s = false -> failed r = true ->
  navigation (run [Click (Some l); Settle 0 r0; Settle 0 r] s) = Some (Assign h).
Proof. intros Hp Hh Hskip Hfail. by rewrite (transition_fails s l h). Qed.

Lemma link_failure_keeps_flag (l : link) (h : string) (r0 r : fetch_result) (s : page) :
  pending s = [] -> href l = Some h -> skipped l s = false -> failed r = true ->
  isTransitioning (run [Click (Some l); Settle 0 r0; Settle 0 r] s) = true /\
  pending (run [Click (Some l); Settle 0 r0; Settle 0 r] s) = [].
Proof.
  intros Hp Hh Hskip Hfail. rewrite (transition_fails s l h) by done.
  split; [reflexivity|]. exact Hp.
Qed.

Lemma pop_rejection_reloads (i : nat) (e : entry) (r0 : fetch_result) (s : page) :
  pending s = [] -> isTransitioning s = false -> entries s !! i = Some e ->
  navigation (run [PopState i; Settle 0 r0; Settle 0 NetworkError] s) = Some Reload.
Proof. intros Hp Hflag He. by rewrite (pop_then_fetch i e). Qed.

End Loop.

End TransitionFacts.

Module TransitionExamples.
Import Transitions TransitionFacts Fixtures.
Local Open Scope nat_scope.

Example visit_about_completes :
  let s := run resolve_path parse_bare visit_about (loaded site home) in
  isTransitioning s = false /\ pending s = [] /\ index s = 1 /\
  title (doc s) = "About" /\ rest (location s) = "/about.html".
Proof. vm_compute. by repeat split. Qed.

(** A second click while the first transition is in progress. *)
Lemma one_transition_at_a_time_witness :
  let s := run resolve_path parse_bare [Click (Some about_link)] (loaded site home) in
  isTransitioning s = true /\ in_progress s <= 1 /\
  handleLinkClick (Some about_link) s = (false, s) /\ handlePopState s = s.
Proof.
  intros s.
  destruct (one_transition_at_a_time resolve_path parse_bare site home
              [Click (Some about_link)]) as (Hone & Hdrop & _).
  destruct Hdrop as [Hclick Hpop]; [reflexivity|].
  split; [reflexivity|]. split; [exact Hone|]. split; [apply Hclick | exact Hpop].
Defined.

Lemma excluded_links_untouched_witness :
  handleLinkClick (Some mail_link) (loaded site home) = (false, loaded site home).
Proof.
  apply excluded_links_untouched.
  right; right; right; left. reflexivity.
Defined.

Lemma cross_origin_link_intercepted_witness :
  same_origin (link_url staging_link) site = false /\
  exists h, href staging_link = Some h /\
    fst (handleLinkClick (Some staging_link) (loaded site home)) = true /\
    isTransitioning (snd (handleLinkClick (Some staging_link) (loaded site home))) = true /\
    pending (snd (handleLinkClick (Some staging_link) (loaded site home))) =
      (pending (loaded site home) ++ [ExitTimer h])%list.
Proof.
  split; [reflexivity|].
  apply cross_origin_link_intercepted; vm_compute; reflexivity.
Defined.

Example successful_transition_about :
  let s := run resolve_path parse_bare [] (loaded site home) in
  let updated :=
    run resolve_path parse_bare
      [Click (Some about_link); Settle 0 NetworkError; Settle 0 (Response true "About")] s in
  let settled :=
    run resolve_path parse_bare [Settle 0 NetworkError; Settle 0 NetworkError] updated in
  (location updated = resolve_path (location s) "/about.html" /\
   last (entries updated) =
     Some (Entry (Some "/about.html") (resolve_path (location s) "/about.html")) /\
   index updated = S (index s) /\
   title (doc updated) = title (parse_bare "About")) /\
  (location settled = resolve_path (location s) "/about.html" /\
   title (doc settled) = title (parse_bare "About") /\
   isTransitioning settled = false).
Proof.
  apply (successful_transition resolve_path parse_bare [] site home about_link);
    [reflexivity | vm_compute; reflexivity | vm_compute; reflexivity].
Defined.

(** On the blog index, reached from the start page, a click on the
    link [next.html]; the user presses Back during the exit animation
    ([early]) or while the fetch is in flight ([late]). *)
Lemma traversal_moves_target_witness :
  let s := run resolve_relative parse_bare visit_blog (loaded site home) in
  let early :=
    run resolve_relative parse_bare
      [Click (Some next_link); PopState 0; Settle 0 NetworkError;
       Settle 0 (Response true "Next")] s in
  let late :=
    run resolve_relative parse_bare
      [Click (Some next_link); Settle 0 NetworkError; PopState 0;
       Settle 0 (Response true "Next")] s in
  (fetches early
   = (fetches s ++ [resolve_relative (entry_url (Entry None site)) "next.html"])%list /\
   location early = resolve_relative (entry_url (Entry None site)) "next.html" /\
   last (entries early)
   = Some (Entry (Some "next.html")
                 (resolve_relative (entry_url (Entry None site)) "next.html")) /\
   title (doc early) = title (parse_bare "Next") /\
   pending early = [EnterTimer]) /\
  (fetches late = (fetches s ++ [resolve_relative (location s) "next.html"])%list /\
   location late = resolve_relative (entry_url (Entry None site)) "next.html" /\
   last (entries late)
   = Some (Entry (Some "next.html")
                 (resolve_relative (entry_url (Entry None site)) "next.html")) /\
   title (doc late) = title (parse_bare "Next") /\
   pending late = [EnterTimer]).
Proof.
  apply (traversal_moves_target resolve_relative parse_bare visit_blog site home
           next_link "next.html" "Next" 0 (Entry None site) NetworkError);
    vm_compute; reflexivity.
Defined.

(** The same runs in figures: the link asks for [/blog/next.html]; the
    address ends at [/next.html], which in the early run is also the
    page fetched, while in the late run the page fetched is
    [/blog/next.html]. *)
Example traversal_moves_target_figures :
  let s := run resolve_relative parse_bare visit_blog (loaded site home) in
  let early :=
    run resolve_relative parse_bare
      [Click (Some next_link); PopState 0; Settle 0 NetworkError;
       Settle 0 (Response true "Next")] s in
  let late :=
    run resolve_relative parse_bare
      [Click (Some next_link); Settle 0 NetworkError; PopState 0;
       Settle 0 (Response true "Next")] s in
  location s = Url "https:" "example.com" "" "/blog/index.html" /\
  link_url next_link = Url "https:" "example.com" "" "/blog/next.html" /\
  resolve_relative (location s) "next.html" = link_url next_link /\
  location early = Url "https:" "example.com" "" "/next.html" /\
  last (fetches early) = Some (Url "https:" "example.com" "" "/next.html") /\
  location late = Url "https:" "example.com" "" "/next.html" /\
  last (fetches late) = Some (Url "https:" "example.com" "" "/blog/next.html") /\
  title (doc late) = "Next".
Proof. vm_compute. by repeat split. Qed.

Lemma failed_fetch_changes_nothing_witness :
  let s := run resolve_path parse_bare [] (loaded site home) in
  let s' :=
    run resolve_path parse_bare
      [Click (Some about_link); Settle 0 NetworkError; Settle 0 (Response false "Not Found")] s in
  title (doc s') = title (doc s) /\
  innerHTML <$> main (doc s') = innerHTML <$> main (doc s) /\
  header (doc s') = header (doc s) /\
  nav (doc s') = nav (doc s) /\
  entries s' = entries s /\ index s' = index s /\ location s' = location s /\
  navigation s' = Some (Assign "/about.html").
Proof.
  apply (failed_fetch_changes_nothing resolve_path parse_bare [] site home about_link);
    [reflexivity | vm_compute; reflexivity | reflexivity].
Defined.

(** Back from the about page, answered with a 404. *)
Lemma pop_error_status_spliced_witness :
  let s := run resolve_path parse_bare visit_about (loaded site home) in
  let s' :=
    run resolve_path parse_bare
      [PopState 0; Settle 0 NetworkError; Settle 0 (Response false "Not Found")] s in
  navigation s' = navigation s /\
  title (doc s') = title (parse_bare "Not Found") /\
  pending s' = [PopEnterTimer].
Proof.
  apply (pop_error_status_spliced resolve_path parse_bare visit_about site home
           0 (Entry None site));
    vm_compute; reflexivity.
Defined.

End TransitionExamples.

(** ** The per-frame step *)

Module FrameFacts.
Import Particles Frames.
Local Open Scope nat_scope.

(** The state with the particle arrays and the random counter blanked:
    what a creation or an update leaves alone. *)
Definition shell (s : state) : state :=
  set_rng 0 (set_stars [] (set_nebulas [] (set_clusters [] (set_spaceDust [] s)))).

Lemma shell_fields s s' :
  shell s' = shell s ->
  canvas_width s' = canvas_width s /\ canvas_height s' = canvas_height s /\
  frames s' = frames s /\ timeouts s' = timeouts s /\
  animationId s' = animationId s /\ resizeTimeout s' = resizeTimeout s /\
  listeners s' = listeners s /\ next_handle s' = next_handle s /\
  globals s' = globals s /\ canvas_attached s' = canvas_attached s.
Proof.
  intros H.
  repeat split;
    [ change (canvas_width (shell s') = canvas_width (shell s))
    | change (canvas_height (shell s') = canvas_height (shell s))
    | change (frames (shell s') = frames (shell s))
    | change (timeouts (shell s') = timeouts (shell s))
    | change (animationId (shell s') = animationId (shell s))
    | change (resizeTimeout (shell s') = resizeTimeout (shell s))
    | change (listeners (shell s') = listeners (shell s))
    | change (next_handle (shell s') = next_handle (shell s))
    | change (globals (shell s') = globals (shell s))
    | change (canvas_attached (shell s') = canvas_attached (shell s)) ];
    by rewrite H.
Qed.

Lemma shell_set_rng k s : shell (set_rng k s) = shell s.
Proof. reflexivity. Qed.
Lemma shell_set_stars l s : shell (set_stars l s) = shell s.
Proof. reflexivity. Qed.
Lemma shell_set_nebulas l s : shell (set_nebulas l s) = shell s.
Proof. reflexivity. Qed.
Lemma shell_set_clusters l s : shell (set_clusters l s) = shell s.
Proof. reflexivity. Qed.
Lemma shell_set_spaceDust l s : shell (set_spaceDust l s) = shell s.
Proof. reflexivity. Qed.

(** Only the random counter differs. *)
Definition drew (s s' : state) : Prop := exists k, s' = set_rng k s.

Lemma drew_refl s : drew s s.
Proof. exists (rng s). by destruct s. Qed.

Lemma drew_trans s1 s2 s3 : drew s1 s2 -> drew s2 s3 -> drew s1 s3.
Proof. intros [k ->] [k' ->]. by exists k'. Qed.

Lemma drew_fields s s' :
  drew s s' ->
  canvas_width s' = canvas_width s /\ canvas_height s' = canvas_height s /\
  stars s' = stars s /\ nebulas s' = nebulas s /\
  clusters s' = clusters s /\ spaceDust s' = spaceDust s /\ shell s' = shell s.
Proof. intros [k ->]. by repeat split. Qed.

Lemma bind_runs {A B} (m : M A) (k : A -> M B) s a s' :
  m s = (Normal a, s') -> (m ≫= k) s = k a s'.
Proof. intros E. unfold mbind, M_bind. by rewrite E. Qed.

(** A [forEach] whose callback only draws random numbers and establishes
    [P] on each particle. *)
Lemma forEachM_each {A B} (P : A -> Prop) (f : A -> M (A * B)) (l : list A) (s : state) :
  (forall p s0, drew s s0 ->
     exists r s1, f p s0 = (Normal r, s1) /\ drew s0 s1 /\ P (fst r)) ->
  exists r s1, forEachM f l s = (Normal r, s1) /\ drew s s1 /\
    Forall P (fst r) /\ length (fst r) = length l /\ length (snd r) = length l.
Proof.
  intros Hf. revert s Hf. induction l as [|p l IH]; intros s Hf.
  - exists ([], []), s. repeat split; [apply drew_refl | constructor].
  - destruct (Hf p s (drew_refl s)) as (r & s1 & E1 & D1 & P1).
    destruct (IH s1) as (rs & s2 & E2 & D2 & P2 & L2 & L2').
    { intros q s0 D0. destruct (Hf q s0 (drew_trans _ _ _ D1 D0)) as (r' & s' & ? & ? & ?).
      by exists r', s'. }
    exists (fst r :: fst rs, snd r :: snd rs), s2. split.
    + cbn [forEachM]. rewrite (bind_runs _ _ _ _ _ E1), (bind_runs _ _ _ _ _ E2).
      reflexivity.
    + split; [by eapply drew_trans|]. cbn. split; [by constructor|]. by rewrite L2, L2'.
Qed.

Lemma less_false (a c : Q) : less a c = false -> (c <= a)%Q.
Proof.
  unfold less. intros H. apply negb_false_iff in H. by apply Qle_bool_iff.
Qed.

Lemma less_true (a c : Q) : less a c = true -> (a < c)%Q.
Proof.
  unfold less. intros H. apply negb_true_iff in H.
  apply Qnot_le_lt. intros Hle. apply Qle_bool_iff in Hle. congruence.
Qed.

(** *** Creations and updates run to completion and touch the arrays only *)

Section Runs.

Variables (rnd fsqrt fsin : Q -> Q) (random : nat -> Q).
Variables (refuses : canvas_call -> option js_error) (PI : Q).

Ltac run_all :=
  unfold Frames.updateStar, Frames.updateDust, Frames.updateNebula,
    Frames.updateCluster, pushStar, pushNebula, pushCluster, pushDust,
    spread, pick, Math_random, get, modify, mbind, M_bind, mret, M_ret;
  cbn.

Ltac drawn s0 :=
  eexists _, _; split; [reflexivity|]; split; [|exact I];
  first [ apply drew_refl | eexists; by destruct s0 ].

Lemma updateStar_runs cx cy p s0 :
  exists r s1, Frames.updateStar rnd fsqrt fsin random cx cy p s0 = (Normal r, s1) /\
               drew s0 s1 /\ True.
Proof.
  run_all.
  match goal with |- context [if ?c then _ else _] => destruct c end; drawn s0.
Qed.

Lemma updateNebula_runs cx cy p s0 :
  exists r s1, Frames.updateNebula rnd fsqrt fsin random cx cy p s0 = (Normal r, s1) /\
               drew s0 s1 /\ True.
Proof.
  run_all.
  match goal with |- context [if ?c then _ else _] => destruct c end; drawn s0.
Qed.

Lemma updateCluster_runs cx cy p s0 :
  exists r s1, Frames.updateCluster rnd fsqrt fsin random cx cy p s0 = (Normal r, s1) /\
               drew s0 s1 /\ True.
Proof.
  run_all.
  match goal with |- context [if ?c then _ else _] => destruct c end; drawn s0.
Qed.

Lemma updateDust_runs p s0 :
  exists r s1, Frames.updateDust rnd fsin p s0 = (Normal r, s1) /\
               drew s0 s1 /\ True.
Proof. run_all. drawn s0. Qed.

(** An update of one array, given what its callback establishes. *)
Lemma update_array {A B} (P : A -> Prop) (f : A -> M (A * B))
    (arr : state -> list A) (set : list A -> state -> state) (s : state) :
  (forall p s0, drew s s0 ->
     exists r s1, f p s0 = (Normal r, s1) /\ drew s0 s1 /\ P (fst r)) ->
  exists r s1,
    (r0 ← forEachM f (arr s); modify (set (fst r0));; mret (snd r0)) s
      = (Normal (snd r), set (fst r) s1) /\
    drew s s1 /\ Forall P (fst r) /\
    length (fst r) = length (arr s) /\ length (snd r) = length (arr s).
Proof.
  intros Hf.
  destruct (forEachM_each P f (arr s) s Hf) as (r & s1 & E & D & HP & L & L').
  exists r, s1. split; [|done].
  by rewrite (bind_runs _ _ _ _ _ E).
Qed.

Local Abbreviation updateStars := (Frames.updateStars rnd fsqrt fsin random).
Local Abbreviation updateSpaceDust := (Frames.updateSpaceDust rnd fsin).
Local Abbreviation updateNebulas := (Frames.updateNebulas rnd fsqrt fsin random).
Local Abbreviation updateClusters := (Frames.updateClusters rnd fsqrt fsin random).
Local Abbreviation animate := (Frames.animate rnd fsqrt fsin random refuses).
Local Abbreviation happen := (Frames.happen rnd fsqrt fsin random refuses PI).
Local Abbreviation happen_all := (Frames.happen_all rnd fsqrt fsin random refuses PI).
Local Abbreviation elapse := (Frames.elapse rnd fsqrt fsin random refuses PI).

Ltac updated P arr set s :=
  lazymatch goal with
  | |- context [forEachM ?f _] =>
      idtac;
      let r := fresh "r" in
      let s1 := fresh "s1" in
      let E := fresh "E" in
      let D := fresh "D" in
      let HP := fresh "HP" in
      let L := fresh "L" in
      destruct (update_array P f arr set s) as (r & s1 & E & D & HP & L & _);
      [ | rewrite E; exists (snd r), (set (fst r) s1) ]
  end.

(** What an update of one array leaves: the shell, the canvas size and
    the other three arrays as they were, the array itself of the same
    length with [P] on every particle. *)
Lemma updateStars_with (P : star -> Prop) s :
  (forall cx cy p s0, canvas_width s0 = canvas_width s -> canvas_height s0 = canvas_height s ->
     exists r s1, Frames.updateStar rnd fsqrt fsin random cx cy p s0 = (Normal r, s1) /\
                  drew s0 s1 /\ P (fst r)) ->
  exists cur s', updateStars s = (Normal cur, s') /\ shell s' = shell s /\
    Forall P (stars s') /\ length (stars s') = length (stars s) /\
    nebulas s' = nebulas s /\ clusters s' = clusters s /\ spaceDust s' = spaceDust s.
Proof.
  intros Hf. unfold Frames.updateStars.
  rewrite (bind_runs _ _ s s s) by reflexivity. cbn zeta.
  updated P stars set_stars s.
  { intros p s0 D0. apply drew_fields in D0 as (Hw & Hh & _). by apply Hf. }
  apply drew_fields in D as (_ & _ & _ & Hn & Hc & Hd & Hs).
  by repeat split.
Qed.

Lemma updateSpaceDust_with (P : dust -> Prop) s :
  (forall p s0, canvas_width s0 = canvas_width s -> canvas_height s0 = canvas_height s ->
     exists r s1, Frames.updateDust rnd fsin p s0 = (Normal r, s1) /\
                  drew s0 s1 /\ P (fst r)) ->
  exists cur s', updateSpaceDust s = (Normal cur, s') /\ shell s' = shell s /\
    Forall P (spaceDust s') /\ length (spaceDust s') = length (spaceDust s) /\
    stars s' = stars s /\ nebulas s' = nebulas s /\ clusters s' = clusters s.
Proof.
  intros Hf. unfold Frames.updateSpaceDust.
  rewrite (bind_runs _ _ s s s) by reflexivity.
  updated P spaceDust set_spaceDust s.
  { intros p s0 D0. apply drew_fields in D0 as (Hw & Hh & _). by apply Hf. }
  apply drew_fields in D as (_ & _ & Hst & Hn & Hc & _ & Hs).
  by repeat split.
Qed.

Lemma updateNebulas_with (P : nebula -> Prop) s :
  (forall cx cy p s0, canvas_width s0 = canvas_width s -> canvas_height s0 = canvas_height s ->
     exists r s1, Frames.updateNebula rnd fsqrt fsin random cx cy p s0 = (Normal r, s1) /\
                  drew s0 s1 /\ P (fst r)) ->
  exists cur s', updateNebulas s = (Normal cur, s') /\ shell s' = shell s /\
    Forall P (nebulas s') /\ length (nebulas s') = length (nebulas s) /\
    stars s' = stars s /\ clusters s' = clusters s /\ spaceDust s' = spaceDust s.
Proof.
  intros Hf. unfold Frames.updateNebulas.
  rewrite (bind_runs _ _ s s s) by reflexivity. cbn zeta.
  updated P nebulas set_nebulas s.
  { intros p s0 D0. apply drew_fields in D0 as (Hw & Hh & _). by apply Hf. }
  apply drew_fields in D as (_ & _ & Hst & _ & Hc & Hd & Hs).
  by repeat split.
Qed.

Lemma updateClusters_with (P : cluster -> Prop) s :
  (forall cx cy p s0, canvas_width s0 = canvas_width s -> canvas_height s0 = canvas_height s ->
     exists r s1, Frames.updateCluster rnd fsqrt fsin random cx cy p s0 = (Normal r, s1) /\
                  drew s0 s1 /\ P (fst r)) ->
  exists cur s', updateClusters s = (Normal cur, s') /\ shell s' = shell s /\
    Forall P (clusters s') /\ length (clusters s') = length (clusters s) /\
    stars s' = stars s /\ nebulas s' = nebulas s /\ spaceDust s' = spaceDust s.
Proof.
  intros Hf. unfold Frames.updateClusters.
  rewrite (bind_runs _ _ s s s) by reflexivity. cbn zeta.
  updated P clusters set_clusters s.
  { intros p s0 D0. apply drew_fields in D0 as (Hw & Hh & _). by apply Hf. }
  apply drew_fields in D as (_ & _ & Hst & Hn & _ & Hd & Hs).
  by repeat split.
Qed.

(** The state after [animationId = requestAnimationFrame(animate)]. *)
Definition requested (s : state) : state :=
  set_animationId (Some (S (next_handle s)))
    (set_next_handle (S (next_handle s))
       (set_frames (frames s ++ [S (next_handle s)]) s)).

Lemma shell_requested s4 s :
  shell s4 = shell s -> shell (requested s4) = shell (requested s).
Proof.
  intros H. change (requested (shell s4) = requested (shell s)). by rewrite H.
Qed.

(** *** Drawing reads only *)

(** A computation that leaves the state as it is, whatever its
    outcome. *)
Definition readonly {A} (m : M A) : Prop := forall s, exists o, m s = (o, s).

Lemma readonly_ret {A} (a : A) : readonly (mret a).
Proof. intros s. by eexists. Qed.

Lemma readonly_throw {A} (e : js_error) : readonly (@throw A e).
Proof. intros s. by eexists. Qed.

Lemma readonly_get : readonly get.
Proof. intros s. by eexists. Qed.

Lemma readonly_bind {A B} (m : M A) (k : A -> M B) :
  readonly m -> (forall a, readonly (k a)) -> readonly (m ≫= k).
Proof.
  intros Hm Hk s. destruct (Hm s) as [[a|e] E]; unfold mbind, M_bind; rewrite E.
  - apply Hk.
  - by eexists.
Qed.

Lemma readonly_ctx (c : canvas_call) : readonly (ctx refuses c).
Proof. unfold ctx. destruct (refuses c); [apply readonly_throw | apply readonly_ret]. Qed.

Lemma readonly_forEach {A} (f : A -> M unit) (l : list A) :
  (forall p, readonly (f p)) -> readonly (forEach f l).
Proof.
  intros Hf. induction l as [|p l IH]; [apply readonly_ret|].
  cbn [forEach]. by apply readonly_bind.
Qed.

Ltac quiet :=
  repeat first
    [ apply readonly_ctx | apply readonly_ret | apply readonly_throw | apply readonly_get
    | apply readonly_bind; [|intros ?]
    | apply readonly_forEach; intros ? ].

Lemma readonly_drawStars cur : readonly (drawStars rnd refuses cur).
Proof.
  unfold drawStars. quiet. unfold drawStar. cbn zeta. quiet.
  match goal with |- readonly (if ?c then _ else _) => destruct c end; quiet.
Qed.

Lemma readonly_drawNebulas cur : readonly (drawNebulas rnd refuses cur).
Proof.
  unfold drawNebulas. quiet. unfold drawNebula. cbn zeta. quiet.
  match goal with |- readonly (match ?c with _ => _ end) => destruct c end; quiet.
Qed.

Lemma readonly_drawClusters cur : readonly (drawClusters rnd refuses cur).
Proof.
  unfold drawClusters. quiet. unfold drawCluster. cbn zeta.
  match goal with |- readonly (match ?c with _ => _ end) => destruct c end; quiet.
Qed.

Lemma readonly_drawSpaceDust cur : readonly (drawSpaceDust refuses cur).
Proof. unfold drawSpaceDust, drawDust. quiet. Qed.

Lemma readonly_drawVignette : readonly (drawVignette rnd fsqrt refuses).
Proof. unfold drawVignette. quiet. Qed.

(** A draw call in front of the rest of a callback: it throws, and the
    callback ends on the state as it is, or the rest runs. *)
Lemma drawn_then (m k : M unit) (s : state) :
  readonly m ->
  (m;; k) s = k s \/ exists e, (m;; k) s = (Throw e, s).
Proof.
  intros Hm. destruct (Hm s) as [[[]|e] E]; unfold mbind, M_bind; rewrite E.
  - by left.
  - right. by exists e.
Qed.

(** One frame: the four updates run to completion, whatever the arrays
    hold; the stars and the dust get what their callbacks establish.
    Then either every draw call returns and the next frame is requested,
    or one throws and the callback ends on the updated state. *)
Lemma animate_with (Ps : star -> Prop) (Pd : dust -> Prop) s :
  (forall cx cy p s0, canvas_width s0 = canvas_width s -> canvas_height s0 = canvas_height s ->
     exists r s1, Frames.updateStar rnd fsqrt fsin random cx cy p s0 = (Normal r, s1) /\
                  drew s0 s1 /\ Ps (fst r)) ->
  (forall p s0, canvas_width s0 = canvas_width s -> canvas_height s0 = canvas_height s ->
     exists r s1, Frames.updateDust rnd fsin p s0 = (Normal r, s1) /\
                  drew s0 s1 /\ Pd (fst r)) ->
  exists s4,
    (animate s = (Normal tt, requested s4) \/ exists e, animate s = (Throw e, s4)) /\
    shell s4 = shell s /\
    Forall Ps (stars s4) /\ Forall Pd (spaceDust s4) /\
    length (stars s4) = length (stars s) /\ length (nebulas s4) = length (nebulas s) /\
    length (clusters s4) = length (clusters s) /\
    length (spaceDust s4) = length (spaceDust s).
Proof.
  intros Hstar Hdust. unfold Frames.animate.
  destruct (updateClusters_with (fun _ => True) s) as (c1 & s1 & E1 & S1 & _ & L1 & A1 & B1 & C1).
  { intros. apply updateCluster_runs. }
  rewrite (bind_runs _ _ _ _ _ E1).
  destruct (updateNebulas_with (fun _ => True) s1) as (c2 & s2 & E2 & S2 & _ & L2 & A2 & B2 & C2).
  { intros. apply updateNebula_runs. }
  rewrite (bind_runs _ _ _ _ _ E2).
  pose proof (shell_fields _ _ S1) as (W1 & H1 & _).
  pose proof (shell_fields _ _ S2) as (W2 & H2 & _).
  destruct (updateSpaceDust_with Pd s2) as (c3 & s3 & E3 & S3 & P3 & L3 & A3 & B3 & C3).
  { intros p s0 Hw Hh. apply Hdust; congruence. }
  rewrite (bind_runs _ _ _ _ _ E3).
  pose proof (shell_fields _ _ S3) as (W3 & H3 & _).
  destruct (updateStars_with Ps s3) as (c4 & s4 & E4 & S4 & P4 & L4 & A4 & B4 & C4).
  { intros cx cy p s0 Hw Hh. apply Hstar; congruence. }
  rewrite (bind_runs _ _ _ _ _ E4).
  exists s4. split.
  { destruct (drawn_then (drawClusters rnd refuses c1)
                (drawNebulas rnd refuses c2;; drawSpaceDust refuses c3;;
                 drawStars rnd refuses c4;; drawVignette rnd fsqrt refuses;;
                 h ← requestAnimationFrame; modify (set_animationId (Some h))) s4
                (readonly_drawClusters c1)) as [-> | ?]; [|by right].
    destruct (drawn_then (drawNebulas rnd refuses c2)
                (drawSpaceDust refuses c3;;
                 drawStars rnd refuses c4;; drawVignette rnd fsqrt refuses;;
                 h ← requestAnimationFrame; modify (set_animationId (Some h))) s4
                (readonly_drawNebulas c2)) as [-> | ?]; [|by right].
    destruct (drawn_then (drawSpaceDust refuses c3)
                (drawStars rnd refuses c4;; drawVignette rnd fsqrt refuses;;
                 h ← requestAnimationFrame; modify (set_animationId (Some h))) s4
                (readonly_drawSpaceDust c3)) as [-> | ?]; [|by right].
    destruct (drawn_then (drawStars rnd refuses c4)
                (drawVignette rnd fsqrt refuses;;
                 h ← requestAnimationFrame; modify (set_animationId (Some h))) s4
                (readonly_drawStars c4)) as [-> | ?]; [|by right].
    destruct (drawn_then (drawVignette rnd fsqrt refuses)
                (h ← requestAnimationFrame; modify (set_animationId (Some h))) s4
                readonly_drawVignette) as [-> | ?]; [|by right].
    by left. }
  split; [congruence|].
  repeat split; try done; congruence.
Qed.

(** The fields of the state a frame leaves, whichever way it ends. *)
Lemma after_frame (s4 s' : state) :
  s' = requested s4 \/ s' = s4 ->
  stars s' = stars s4 /\ nebulas s' = nebulas s4 /\ clusters s' = clusters s4 /\
  spaceDust s' = spaceDust s4 /\ canvas_width s' = canvas_width s4 /\
  canvas_height s' = canvas_height s4 /\ timeouts s' = timeouts s4 /\
  resizeTimeout s' = resizeTimeout s4 /\ listeners s' = listeners s4.
Proof. by intros [-> | ->]. Qed.

Lemma animate_after (s s4 : state) :
  (animate s = (Normal tt, requested s4) \/ exists e, animate s = (Throw e, s4)) ->
  snd (animate s) = requested s4 \/ snd (animate s) = s4.
Proof. intros [-> | [e ->]]; [by left | by right]. Qed.








(** The state [resizeCanvas] leaves. *)
Definition resized (s : state) : state :=
  set_resizeTimeout (Some (S (next_handle s)))
    (set_next_handle (S (next_handle s))
       (set_timeouts
          (match resizeTimeout s with
           | Some n => filter (fun k => k ≠ n) (timeouts s)
           | None => timeouts s
           end ++ [S (next_handle s)])
          (set_canvas_height (canvas_dimension 150 (innerHeight s))
             (set_canvas_width (canvas_dimension 300 (innerWidth s)) s)))).

Lemma resizeCanvas_resized s : resizeCanvas s = (Normal tt, resized s).
Proof.
  unfold resizeCanvas, resized, clearTimeout, setTimeout, get, modify,
    mbind, M_bind, mret, M_ret.
  by destruct (resizeTimeout s).
Qed.

Lemma steady_resized s :
  steady s ->
  steady (resized s) /\ timeouts (resized s) = [S (next_handle s)] /\
  resizeTimeout (resized s) = Some (S (next_handle s)).
Proof.
  intros [Hframe Htimer].
  assert (Ht : timeouts (resized s) = [S (next_handle s)]).
  { unfold resized. cbn. destruct Htimer as [-> | (t & -> & ->)].
    - by destruct (resizeTimeout s).
    - rewrite filter_cons_False by (intros H; by apply H). reflexivity. }
  split; [|by split].
  split; [exact Hframe|]. right. by exists (S (next_handle s)).
Qed.



(** The frame [f] fires: what the state is afterwards. *)
Lemma frame_fires_cases f s :
  ((f ∉ frames s) /\ frame_fires rnd fsqrt fsin random refuses f s = (Normal tt, s)) \/
  (f ∈ frames s /\
   exists s4,
     let s0 := set_frames (filter (fun k => k ≠ f) (frames s)) s in
     (frame_fires rnd fsqrt fsin random refuses f s = (Normal tt, requested s4) \/
      exists e, frame_fires rnd fsqrt fsin random refuses f s = (Throw e, s4)) /\
     shell s4 = shell s0 /\
     length (stars s4) = length (stars s) /\ length (nebulas s4) = length (nebulas s) /\
     length (clusters s4) = length (clusters s) /\
     length (spaceDust s4) = length (spaceDust s)).
Proof.
  unfold frame_fires. rewrite (bind_runs _ _ s s s) by reflexivity.
  destruct (bool_decide (f ∈ frames s)) eqn:Hin.
  - right. apply bool_decide_eq_true in Hin. split; [exact Hin|].
    rewrite (bind_runs _ _ s tt (set_frames (filter (fun k => k ≠ f) (frames s)) s))
      by reflexivity.
    destruct (animate_with (fun _ => True) (fun _ => True)
                (set_frames (filter (fun k => k ≠ f) (frames s)) s))
      as (s4 & E & S4 & _ & _ & L).
    { intros. apply updateStar_runs. }
    { intros. apply updateDust_runs. }
    exists s4. cbn zeta. split; [exact E|]. split; [exact S4 | exact L].
  - left. apply bool_decide_eq_false in Hin. by split.
Qed.


Lemma elapse_cons e es s : elapse (e :: es) s = elapse es (snd (happen e s)).
Proof. reflexivity. Qed.

Lemma happen_all_cons e es s :
  happen_all (e :: es) s =
  match happen e s with
  | (Normal _, s') => happen_all es s'
  | (Throw x, s') => (Throw x, s')
  end.
Proof. reflexivity. Qed.



(** A burst of resize events: each callback returns. *)
Lemma resizes_steady (burst : list (Z * Z)) (s : state) :
  steady s ->
  exists s', happen_all ((fun p => Resized (fst p) (snd p)) <$> burst) s = (Normal tt, s') /\
             steady s' /\ listeners s' = listeners s.
Proof.
  revert s. induction burst as [|[w h] burst IH]; intros s Hs; [by exists s|].
  cbn [fmap list_fmap fst snd]. rewrite happen_all_cons. cbn [Frames.happen].
  assert (E : exists s1, resize_event w h s = (Normal tt, s1) /\ steady s1 /\
                         listeners s1 = listeners s).
  { unfold resize_event, when, modify, get, mbind, M_bind, mret, M_ret. cbn.
    destruct (bool_decide _).
    - rewrite resizeCanvas_resized. eexists. split; [reflexivity|].
      split; [|reflexivity].
      by apply (steady_resized (set_innerHeight h (set_innerWidth w s))).
    - eexists. split; [reflexivity|]. by split. }
  destruct E as (s1 & -> & H1 & L1).
  destruct (IH s1 H1) as (s2 & E2 & H2 & L2).
  exists s2. split; [exact E2|]. split; [exact H2 | congruence].
Qed.

(** *** The population *)

(** What is known of the length of an array ([None]: nothing). *)
Definition sized {A} (n : option nat) (l : list A) : Prop :=
  match n with
  | None => True
  | Some k => length l = k
  end.

Definition census (a b c e : option nat) (s : state) : Prop :=
  sized a (stars s) /\ sized b (nebulas s) /\
  sized c (clusters s) /\ sized e (spaceDust s).

Lemma sized_push {A} k (l : list A) p : sized (Some k) l -> sized (Some (S k)) (l ++ [p]).
Proof. cbn. intros <-. rewrite length_app. cbn. lia. Qed.

Ltac counted :=
  eexists; split; [reflexivity|];
  repeat split; cbn; first [assumption | by apply sized_push].

Lemma pushStar_census l cx cy a b c e s :
  census (Some a) b c e s ->
  exists s', pushStar rnd fsqrt PI random l cx cy s = (Normal tt, s') /\
             census (Some (S a)) b c e s'.
Proof. intros (Hs & Hn & Hc & Hd). run_all. counted. Qed.

Lemma pushNebula_census cx cy a b c e s :
  census a (Some b) c e s ->
  exists s', pushNebula rnd fsqrt PI random cx cy s = (Normal tt, s') /\
             census a (Some (S b)) c e s'.
Proof. intros (Hs & Hn & Hc & Hd). run_all. counted. Qed.

Lemma pushCluster_census cx cy a b c e s :
  census a b (Some c) e s ->
  exists s', pushCluster rnd fsqrt PI random cx cy s = (Normal tt, s') /\
             census a b (Some (S c)) e s'.
Proof. intros (Hs & Hn & Hc & Hd). run_all. counted. Qed.

Lemma pushDust_census a b c e s :
  census a b c (Some e) s ->
  exists s', pushDust rnd PI random s = (Normal tt, s') /\
             census a b c (Some (S e)) s'.
Proof. intros (Hs & Hn & Hc & Hd). run_all. counted. Qed.

Ltac census_loop I k0 H0 tac :=
  lazymatch goal with
  | |- context [(repeatM ?n ?body ≫= _) ?s0] =>
      idtac;
      let after := fresh "s'" in
      let E := fresh "E" in
      let G := fresh "G" in
      destruct (RegenerationFacts.repeatM_counted I body
                  ltac:(intros ? ?; cbv beta; tac) n k0 s0 H0) as (after & E & G);
      cbv beta in G; rewrite (bind_runs _ _ _ _ _ E); clear E
  | |- context [repeatM ?n ?body ?s0] =>
      idtac;
      let after := fresh "s'" in
      let E := fresh "E" in
      let G := fresh "G" in
      destruct (RegenerationFacts.repeatM_counted I body
                  ltac:(intros ? ?; cbv beta; tac) n k0 s0 H0) as (after & E & G);
      cbv beta in G
  end.

Lemma createNebulas_census a b c e s :
  census a b c e s ->
  exists s', createNebulas rnd fsqrt PI random s = (Normal tt, s') /\
             census a (Some nebulaCount) c e s'.
Proof.
  intros (Hs & Hn & Hc & Hd). unfold createNebulas.
  rewrite (bind_runs _ _ s tt (set_nebulas [] s)) by reflexivity.
  rewrite (bind_runs _ _ _ (set_nebulas [] s) (set_nebulas [] s)) by reflexivity.
  cbn zeta.
  assert (G0 : census a (Some 0) c e (set_nebulas [] s)) by by repeat split.
  census_loop (fun k => census a (Some k) c e) 0 G0 ltac:(apply pushNebula_census).
  exists s'. split; [exact E|]. by rewrite Nat.add_0_r in G.
Qed.

Lemma createClusters_census a b c e s :
  census a b c e s ->
  exists s', createClusters rnd fsqrt PI random s = (Normal tt, s') /\
             census a b (Some clusterCount) e s'.
Proof.
  intros (Hs & Hn & Hc & Hd). unfold createClusters.
  rewrite (bind_runs _ _ s tt (set_clusters [] s)) by reflexivity.
  rewrite (bind_runs _ _ _ (set_clusters [] s) (set_clusters [] s)) by reflexivity.
  cbn zeta.
  assert (G0 : census a b (Some 0) e (set_clusters [] s)) by by repeat split.
  census_loop (fun k => census a b (Some k) e) 0 G0 ltac:(apply pushCluster_census).
  exists s'. split; [exact E|]. by rewrite Nat.add_0_r in G.
Qed.

Lemma createSpaceDust_census a b c e s :
  census a b c e s ->
  exists s', createSpaceDust rnd PI random s = (Normal tt, s') /\
             census a b c (Some dustCount) s'.
Proof.
  intros (Hs & Hn & Hc & Hd). unfold createSpaceDust.
  rewrite (bind_runs _ _ s tt (set_spaceDust [] s)) by reflexivity.
  assert (G0 : census a b c (Some 0) (set_spaceDust [] s)) by by repeat split.
  census_loop (fun k => census a b c (Some k)) 0 G0 ltac:(apply pushDust_census).
  exists s'. split; [exact E|]. by rewrite Nat.add_0_r in G.
Qed.

(** [createStars] makes the configured population, whatever the arrays
    held and whatever the arithmetic does. *)
Lemma createStars_census s :
  exists s', createStars rnd fsqrt PI random s = (Normal tt, s') /\ populated s'.
Proof.
  unfold createStars.
  rewrite (bind_runs _ _ s tt (set_stars [] s)) by reflexivity.
  rewrite (bind_runs _ _ _ (set_stars [] s) (set_stars [] s)) by reflexivity.
  cbn zeta.
  assert (G0 : census (Some 0) None None None (set_stars [] s)) by by repeat split.
  census_loop (fun k => census (Some k) None None None) 0 G0 ltac:(apply pushStar_census).
  census_loop (fun k => census (Some k) None None None) (distantStarCount + 0) G
    ltac:(apply pushStar_census).
  census_loop (fun k => census (Some k) None None None)
    (midStarCount + (distantStarCount + 0)) G1 ltac:(apply pushStar_census).
  destruct (createNebulas_census _ _ _ _ _ G2) as (s2 & E2 & H2).
  rewrite (bind_runs _ _ _ _ _ E2).
  destruct (createClusters_census _ _ _ _ _ H2) as (s3 & E3 & H3).
  rewrite (bind_runs _ _ _ _ _ E3).
  destruct (createSpaceDust_census _ _ _ _ _ H3) as (s4 & E4 & H4).
  exists s4. split; [exact E4|].
  destruct H4 as (L1 & L2 & L3 & L4). cbn in L1, L2, L3, L4.
  unfold populated. rewrite L1, L2, L3, L4. by repeat split.
Qed.


(** X2.  Debounce: after any burst of resize events that ends with the
    size [w] x [h], a size a window can have, on a steady system whose
    resize listener is registered, every callback has returned, the
    canvas has the size [w] x [h] and exactly one timer is armed, the
    one [resizeTimeout] names. *)
Theorem resize_burst_debounced (burst : list (Z * Z)) (w h : Z) (s : state) :
  (0 <= w < 2 ^ 31)%Z -> (0 <= h < 2 ^ 31)%Z ->
  steady s ->
  Registration Window "resize" resizeCanvas_h ∈ listeners s ->
  exists s' t,
    happen_all ((fun p => Resized (fst p) (snd p)) <$> (burst ++ [(w, h)])%list) s
      = (Normal tt, s') /\
    canvas_width s' = w /\ canvas_height s' = h /\
    timeouts s' = [t] /\ resizeTimeout s' = Some t.
Proof.
  intros Hw Hh Hs Hreg. rewrite fmap_app. cbn [fmap list_fmap fst snd].
  destruct (resizes_steady burst s Hs) as (s1 & E1 & H1 & L1).
  assert (Hall : forall es1 es2 a b c,
            happen_all es1 a = (Normal tt, b) ->
            happen_all es2 b = (Normal tt, c) ->
            happen_all (es1 ++ es2) a = (Normal tt, c)).
  { induction es1 as [|e es1 IH]; intros es2 a b c Ha Hb.
    - cbn in Ha. by injection Ha as ->.
    - cbn [app]. rewrite happen_all_cons in *.
      destruct (happen e a) as [[[]|] a']; [|discriminate].
      by apply (IH es2 a' b c). }
  exists (resized (set_innerHeight h (set_innerWidth w s1))), (S (next_handle s1)).
  split.
  - apply (Hall _ _ _ _ _ E1). rewrite happen_all_cons. cbn [Frames.happen].
    assert (E : resize_event w h s1 =
                (Normal tt, resized (set_innerHeight h (set_innerWidth w s1)))).
    { unfold resize_event, when, modify, get, mbind, M_bind, mret, M_ret. cbn.
      rewrite bool_decide_eq_true_2 by (by rewrite L1).
      apply resizeCanvas_resized. }
    by rewrite E.
  - split; [by apply RegenerationFacts.canvas_dimension_range|].
    split; [by apply RegenerationFacts.canvas_dimension_range|].
    apply (steady_resized (set_innerHeight h (set_innerWidth w s1))). exact H1.
Qed.

(** X3.  One frame neither loses nor adds a particle: when the callback
    has ended, by returning or by an exception of a draw call, the four
    arrays have the lengths they had, whatever they hold and whatever
    the arithmetic does. *)
Theorem frame_preserves_counts (s : state) :
  length (stars (snd (animate s))) = length (stars s) /\
  length (nebulas (snd (animate s))) = length (nebulas s) /\
  length (clusters (snd (animate s))) = length (clusters s) /\
  length (spaceDust (snd (animate s))) = length (spaceDust s).
Proof.
  destruct (animate_with (fun _ => True) (fun _ => True) s)
    as (s4 & E & _ & _ & _ & L).
  { intros. apply updateStar_runs. }
  { intros. apply updateDust_runs. }
  destruct (after_frame s4 _ (animate_after _ _ E)) as (-> & -> & -> & -> & _).
  exact L.
Qed.

Lemma populated_lengths s s' :
  length (stars s') = length (stars s) -> length (nebulas s') = length (nebulas s) ->
  length (clusters s') = length (clusters s) ->
  length (spaceDust s') = length (spaceDust s) -> populated s -> populated s'.
Proof. unfold populated. by intros -> -> -> ->. Qed.

(** Every happening keeps the population, however its callback ends; a
    respawn makes it. *)
Lemma happen_populated e s :
  (populated s -> populated (snd (happen e s))) /\
  (e = Respawn -> populated (snd (happen e s))).
Proof.
  destruct e as [f | w h | t | v |]; cbn [Frames.happen].
  - split; [|done].
    destruct (frame_fires_cases f s) as [[_ ->] | (_ & s4 & E & _ & L1 & L2 & L3 & L4)];
      [done|].
    cbn zeta in E.
    assert (Hs' : snd (frame_fires rnd fsqrt fsin random refuses f s) = requested s4 \/
                  snd (frame_fires rnd fsqrt fsin random refuses f s) = s4).
    { destruct E as [-> | [e ->]]; [by left | by right]. }
    destruct (after_frame s4 _ Hs') as (Hst & Hn & Hc & Hd & _).
    apply populated_lengths; congruence.
  - split; [|done].
    unfold resize_event, when, modify, get, mbind, M_bind, mret, M_ret. cbn.
    destruct (bool_decide _); [rewrite resizeCanvas_resized|]; cbn [fst snd];
      by apply populated_lengths.
  - split; [|done].
    unfold timeout_elapses. rewrite (bind_runs _ _ s s s) by reflexivity.
    destruct (bool_decide (t ∈ timeouts s)); [|done].
    rewrite (bind_runs _ _ s tt (set_timeouts (filter (fun k => k ≠ t) (timeouts s)) s))
      by reflexivity.
    destruct (createStars_census (set_timeouts (filter (fun k => k ≠ t) (timeouts s)) s))
      as (s' & -> & P'). by intros _.
  - split; [|done].
    unfold visibility_event, handleVisibilityChange, when, get, mbind, M_bind, mret, M_ret.
    destruct (bool_decide _); [|done].
    destruct v; [|done].
    rewrite resizeCanvas_resized. cbn [fst snd]. by apply populated_lengths.
  - destruct (createStars_census s) as (s' & E & P'). unfold respawn. rewrite E.
    by split.
Qed.

Lemma elapse_populated es s : populated s -> populated (elapse es s).
Proof.
  revert s. induction es as [|e es IH]; intros s Hp; [done|].
  rewrite elapse_cons. apply IH. by apply (proj1 (happen_populated e s)).
Qed.

Lemma elapse_app es1 es2 s : elapse (es1 ++ es2) s = elapse es2 (elapse es1 s).
Proof. unfold Frames.elapse. apply foldl_app. Qed.

(** X22.  The population is constant: once the arrays hold the
    configured numbers of stars, nebulas, clusters and dust particles,
    they hold them after any sequence of frames, resize events, timer
    expiries, visibility changes and respawns, however each callback
    ends.  Nothing accumulates and nothing is lost. *)
Theorem population_constant (es : list happening) (s : state) :
  populated s -> populated (elapse es s).
Proof. apply elapse_populated. Qed.

(** X23.  A respawn makes the population whatever came before, and what
    follows keeps it: after any sequence of happenings that contains a
    respawn, from any state at all, the arrays hold the configured
    numbers. *)
Theorem respawn_populates (before after : list happening) (s : state) :
  populated (elapse (before ++ Respawn :: after) s).
Proof.
  rewrite elapse_app, elapse_cons. apply elapse_populated.
  by apply (proj2 (happen_populated Respawn (elapse before s))).
Qed.

End Runs.

Section FrameBounds.

Variables (rnd fsqrt fsin : Q -> Q) (random : nat -> Q).
Variables (refuses : canvas_call -> option js_error) (PI : Q).

Hypothesis rnd_monotone : forall a c : Q, (a <= c)%Q -> (rnd a <= rnd c)%Q.
Hypothesis rnd_integer :
  forall z : Z, (0 <= z < 2 ^ 53)%Z -> (rnd (inject_Z z) == inject_Z z)%Q.
Hypothesis random_unit : forall n : nat, (0 <= random n)%Q /\ (random n < 1)%Q.

Variables (w h : Z).
Hypothesis w_range : (0 <= w < 2 ^ 31)%Z.
Hypothesis h_range : (0 <= h < 2 ^ 31)%Z.

Local Abbreviation updateStar := (Frames.updateStar rnd fsqrt fsin random).
Local Abbreviation updateDust := (Frames.updateDust rnd fsin).
Local Abbreviation updateNebula := (Frames.updateNebula rnd fsqrt fsin random).
Local Abbreviation updateCluster := (Frames.updateCluster rnd fsqrt fsin random).
Local Abbreviation updateStars := (Frames.updateStars rnd fsqrt fsin random).
Local Abbreviation updateSpaceDust := (Frames.updateSpaceDust rnd fsin).
Local Abbreviation updateNebulas := (Frames.updateNebulas rnd fsqrt fsin random).
Local Abbreviation updateClusters := (Frames.updateClusters rnd fsqrt fsin random).
Local Abbreviation animate := (Frames.animate rnd fsqrt fsin random refuses).

Ltac run_update :=
  unfold Frames.updateStar, Frames.updateDust, Frames.updateNebula,
    Frames.updateCluster, spread, pick, Math_random, get, modify,
    mbind, M_bind, mret, M_ret;
  cbn.

(** [canvas.width + 10] is exact. *)
Lemma plus_ten_exact (z : Z) :
  (0 <= z < 2 ^ 31)%Z -> (fadd rnd (inject_Z z) 10 == inject_Z z + 10)%Q.
Proof.
  intros Hz. unfold fadd.
  change 10%Q with (inject_Z 10). rewrite <- inject_Z_plus.
  apply rnd_integer. lia.
Qed.

Lemma updateStar_spec cx cy p s0 :
  canvas_width s0 = w -> canvas_height s0 = h ->
  exists r s1, updateStar cx cy p s0 = (Normal r, s1) /\ drew s0 s1 /\
               in_bounds w h (star_pos (fst r)).
Proof.
  intros Hw Hh. run_update.
  match goal with |- context [if ?c then _ else _] => destruct c eqn:Hoff end.
  - eexists _, _. split; [reflexivity|]. split.
    + eexists. by destruct s0.
    + cbn. by apply (RegenerationFacts.random_position rnd random).
  - eexists _, _. split; [reflexivity|]. split; [apply drew_refl|].
    repeat (apply orb_false_elim in Hoff as [Hoff ?]).
    rewrite Hw, Hh in *.
    repeat match goal with H : less _ _ = false |- _ => apply less_false in H end.
    unfold in_bounds, star_pos. cbn [fst snd star_x star_y].
    rewrite <- (plus_ten_exact w), <- (plus_ten_exact h) by done.
    done.
Qed.

(** The two wrap tests on one coordinate. *)
Lemma wrapped (x width : Q) :
  (0 <= width)%Q ->
  (0 <= (if less width (if less x 0 then width else x) then 0
         else (if less x 0 then width else x)))%Q /\
  ((if less width (if less x 0 then width else x) then 0
    else (if less x 0 then width else x)) <= width)%Q.
Proof.
  intros Hw.
  destruct (less x 0) eqn:Hx.
  - destruct (less width width) eqn:Hww.
    + split; [apply Qle_refl | exact Hw].
    + split; [exact Hw | apply Qle_refl].
  - apply less_false in Hx.
    destruct (less width x) eqn:Hwx.
    + split; [apply Qle_refl | exact Hw].
    + apply less_false in Hwx. by split.
Qed.

Lemma updateDust_spec p s0 :
  canvas_width s0 = w -> canvas_height s0 = h ->
  exists r s1, updateDust p s0 = (Normal r, s1) /\ drew s0 s1 /\
               on_canvas w h (dust_pos (fst r)).
Proof.
  intros Hw Hh. run_update.
  eexists _, _. split; [reflexivity|]. split; [apply drew_refl|].
  unfold on_canvas. cbn [fst snd dust_pos dust_x dust_y]. rewrite Hw, Hh.
  split; apply wrapped; change 0%Q with (inject_Z 0); rewrite <- Zle_Qle; lia.
Qed.

(** X4.  When a frame's callback has ended, by returning or by an
    exception of a draw call, every star lies inside
    [-10, width + 10] x [-10, height + 10]: a star that left the box was
    put back at a random place on the canvas by the update, which runs
    before any drawing.  This holds whatever the positions and
    velocities were before. *)
Theorem frame_keeps_stars_near (s : state) :
  canvas_width s = w -> canvas_height s = h ->
  length (stars (snd (animate s))) = length (stars s) /\
  Forall (fun p => in_bounds w h (star_pos p)) (stars (snd (animate s))).
Proof.
  intros Hw Hh.
  destruct (animate_with rnd fsqrt fsin random refuses
              (fun p => in_bounds w h (star_pos p)) (fun _ => True) s)
    as (s4 & E & _ & Hstars & _ & L & _).
  { intros cx cy p s0 Hw0 Hh0. apply updateStar_spec; congruence. }
  { intros. apply updateDust_runs. }
  destruct (after_frame s4 _ (animate_after _ _ _ _ _ _ _ E)) as (-> & _).
  by split.
Qed.

(** X5.  When a frame's callback has ended, by returning or by an
    exception of a draw call, every dust particle lies on the canvas,
    [0, width] x [0, height]: the wrap tests of the update bring back
    whatever drifted off, from any position and with any velocity. *)
Theorem frame_keeps_dust_on_canvas (s : state) :
  canvas_width s = w -> canvas_height s = h ->
  length (spaceDust (snd (animate s))) = length (spaceDust s) /\
  Forall (fun p => on_canvas w h (dust_pos p)) (spaceDust (snd (animate s))).
Proof.
  intros Hw Hh.
  destruct (animate_with rnd fsqrt fsin random refuses
              (fun _ => True) (fun p => on_canvas w h (dust_pos p)) s)
    as (s4 & E & _ & _ & Hdust & _ & _ & _ & L).
  { intros. apply updateStar_runs. }
  { intros p s0 Hw0 Hh0. apply updateDust_spec; congruence. }
  destruct (after_frame s4 _ (animate_after _ _ _ _ _ _ _ E)) as (_ & _ & _ & -> & _).
  by split.
Qed.

End FrameBounds.

(** X6.  On a steady system [destroy] stops the animation loop even
    though it may end in an exception: the one scheduled frame is
    cancelled before the undeclared identifier is read, so no frame is
    left to fire. *)
Theorem destroy_stops_frames (s : state) :
  steady s -> frames (snd (destroy s)) = [].
Proof.
  intros [(f & Hf & Ha & Hpos) _].
  unfold destroy, mbind, M_bind, get, when, read_global.
  rewrite Ha. destruct f as [|f]; [lia|]. cbn.
  destruct (globals s !! "shootingStarIntervalId") as [v|]; cbn.
  - destruct v; cbn; destruct (resizeTimeout s); cbn;
      destruct (canvas_attached s); cbn; rewrite Hf;
      by rewrite filter_cons_False by (intros H; by apply H).
  - rewrite Hf. by rewrite filter_cons_False by (intros H; by apply H).
Qed.

End FrameFacts.

Module FrameExamples.
Import Particles Frames FrameFacts Fixtures Scenes.
Local Open Scope nat_scope.

(** Sizes no window has: a negative one and one above 2^31 - 1 give the
    default, one above 2^32 wraps around. *)
Example canvas_dimension_out_of_range :
  canvas_dimension 300 (-1) = 300%Z /\
  canvas_dimension 150 3000000000 = 150%Z /\
  canvas_dimension 300 (2 ^ 32 + 5) = 5%Z /\
  canvas_dimension 300 1280 = 1280%Z.
Proof. by vm_compute. Qed.

Lemma steady_running : steady running.
Proof. split; [exists 1; repeat split; lia | by left]. Qed.

Lemma steady_adrift : steady adrift.
Proof. split; [exists 1; repeat split; lia | by left]. Qed.

Example adrift_frame :
  let r := frame_fires exact exact exact sixteenths canvas2d 1 adrift in
  fst r = Normal tt /\
  (fun p => (Qred (star_x p), Qred (star_y p))) <$> stars (snd r) = [(0 # 1, 45 # 1)%Q] /\
  (fun p => (Qred (dust_x p), Qred (dust_y p))) <$> spaceDust (snd r) = [(1280 # 1, 5 # 1)%Q] /\
  frames (snd r) = [2] /\ animationId (snd r) = Some 2.
Proof. vm_compute. by repeat split. Qed.

(** A cluster without a colour: the frame ends in [drawClusters], and
    no further frame is scheduled. *)
Example crowded_frame :
  let r := frame_fires exact exact exact sixteenths canvas2d 1 crowded in
  fst r = Throw TypeError /\ frames (snd r) = [] /\ animationId (snd r) = Some 1 /\
  length (stars (snd r)) = 500.
Proof. vm_compute. by repeat split. Qed.

Example busy_minute :
  fst (happen_all exact exact exact sixteenths canvas2d (355 # 113) busy running)
  = Normal tt.
Proof. vm_compute. reflexivity. Qed.


Lemma resize_burst_debounced_witness :
  exists s' t,
    happen_all exact exact exact sixteenths canvas2d (355 # 113)
      ((fun p => Resized (fst p) (snd p)) <$>
         ([(800, 600); (900, 650)]%Z ++ [(1024, 768)%Z])%list)
      running = (Normal tt, s') /\
    canvas_width s' = 1024%Z /\ canvas_height s' = 768%Z /\
    timeouts s' = [t] /\ resizeTimeout s' = Some t.
Proof.
  apply (resize_burst_debounced exact exact exact sixteenths canvas2d (355 # 113)
           [(800, 600); (900, 650)]%Z 1024 768 running).
  - lia.
  - lia.
  - exact steady_running.
  - apply list_elem_of_here.
Defined.

Lemma frame_keeps_stars_near_witness :
  length (stars (snd (animate exact exact exact sixteenths canvas2d adrift)))
  = length (stars adrift) /\
  Forall (fun p => in_bounds 1280 720 (star_pos p))
         (stars (snd (animate exact exact exact sixteenths canvas2d adrift))).
Proof.
  apply (frame_keeps_stars_near exact exact exact sixteenths canvas2d).
  - intros a c Hac. exact Hac.
  - intros z _. reflexivity.
  - exact RegenerationFacts.sixteenths_unit.
  - lia.
  - lia.
  - reflexivity.
  - reflexivity.
Defined.

Lemma frame_keeps_dust_on_canvas_witness :
  length (spaceDust (snd (animate exact exact exact sixteenths canvas2d adrift)))
  = length (spaceDust adrift) /\
  Forall (fun p => on_canvas 1280 720 (dust_pos p))
         (spaceDust (snd (animate exact exact exact sixteenths canvas2d adrift))).
Proof.
  apply (frame_keeps_dust_on_canvas exact exact exact sixteenths canvas2d);
    [lia | lia | reflexivity | reflexivity].
Defined.

Lemma population_constant_witness :
  populated (elapse exact exact exact sixteenths canvas2d (355 # 113) busy crowded).
Proof.
  apply population_constant.
  unfold populated, crowded. cbn [stars nebulas clusters spaceDust].
  rewrite !length_replicate. by repeat split.
Defined.

Lemma destroy_stops_frames_witness : frames (snd (destroy running)) = [].
Proof. apply destroy_stops_frames. exact steady_running. Defined.

End FrameExamples.

(** ** More on the accordion *)

Module TimelineMore.
Import Timeline TimelineFacts.
Local Open Scope nat_scope.

Lemma add_after_remove c cl :
  classList_add c (classList_remove c cl) = classList_add c cl.
Proof.
  unfold classList_add, classList_remove. apply set_eq. intros x.
  destruct (decide (x = c)); set_solver.
Qed.

Lemma length_click k i d : length (items (click k i d)) = length (items d).
Proof.
  destruct k as [[]|]; cbn [click]; unfold header_click, header_click_reinit;
    try done; destruct (items d !! i) as [it|]; try done;
    destruct (is_active it); cbn [negb items set_items];
    rewrite ?length_alter; unfold close_others, close_all;
    by rewrite ?length_imap, ?length_fmap.
Qed.

Lemma dispatch_snoc rs r i in_link d :
  TimelineRuns.dispatch (rs ++ [r]) i in_link d
  = click (TimelineRuns.listener_of r in_link) i (TimelineRuns.dispatch rs i in_link d).
Proof. unfold TimelineRuns.dispatch. by rewrite foldl_app. Qed.

Lemma length_dispatch rs i in_link d :
  length (items (TimelineRuns.dispatch rs i in_link d)) = length (items d).
Proof.
  induction rs as [|r rs IH] using rev_ind; [done|].
  by rewrite dispatch_snoc, length_click.
Qed.

Lemma click_unreached k i d : toggles k = false -> click k i d = d.
Proof. by destruct k as [[]|]. Qed.

(** C7 (amended).  At most one timeline item is active, and every click
    keeps it so, whatever listeners the header of the clicked item [b]
    carries and wherever in the header the click lands.  When the header
    carries one listener [r] and the click reaches its toggle (the
    listener of [initTimeline] returns at once for a click inside a
    [.timeline-link]; the one of [reinitializeScripts] has no such
    test): if another item [a] was active, then afterwards [b] is active
    and no other item is; if [b] itself was active, then afterwards no
    item is active.  A click that does not reach the toggle changes
    nothing. *)
Theorem accordion_single_open
    (rs : list TimelineRuns.registration) (r : TimelineRuns.registration)
    (in_link : bool) (d : dom) (a b : nat) :
  a < length (items d) -> b < length (items d) ->
  active_count (items d) <= 1 ->
  active_count (items (TimelineRuns.dispatch rs b in_link d)) <= 1 /\
  (toggles (TimelineRuns.listener_of r in_link) = true ->
     (a ≠ b -> active_at (items d) a = true ->
        forall j, active_at (items (TimelineRuns.dispatch [r] b in_link d)) j
                  = bool_decide (j = b)) /\
     (active_at (items d) b = true ->
        forall j, active_at (items (TimelineRuns.dispatch [r] b in_link d)) j = false)) /\
  (toggles (TimelineRuns.listener_of r in_link) = false ->
     TimelineRuns.dispatch [r] b in_link d = d).
Proof.
  intros Ha Hb Hinv. split; [|split].
  - induction rs as [|r' rs IH] using rev_ind; [exact Hinv|].
    rewrite dispatch_snoc.
    apply (listener_run_single_open _ _ a b); [| |exact IH];
      by rewrite length_dispatch.
  - intros Ht.
    destruct (listener_run_single_open (TimelineRuns.listener_of r in_link) d a b Ha Hb Hinv)
      as (_ & Hswitch & Hclose).
    split; [intros Hne Hact | intros Hact]; cbn [TimelineRuns.dispatch foldl]; auto.
  - intros Ht. cbn [TimelineRuns.dispatch foldl]. by apply click_unreached.
Qed.

Lemma accordion_single_open_witness :
  active_count (items (TimelineRuns.dispatch [TimelineRuns.ByReinitializeScripts]
                         1 false Fixtures.two_items)) <= 1 /\
  (toggles (TimelineRuns.listener_of TimelineRuns.ByInitTimeline false) = true ->
     (0 ≠ 1 -> active_at (items Fixtures.two_items) 0 = true ->
        forall j, active_at (items (TimelineRuns.dispatch [TimelineRuns.ByInitTimeline]
                                      1 false Fixtures.two_items)) j
                  = bool_decide (j = 1)) /\
     (active_at (items Fixtures.two_items) 1 = true ->
        forall j, active_at (items (TimelineRuns.dispatch [TimelineRuns.ByInitTimeline]
                                      1 false Fixtures.two_items)) j = false)) /\
  (toggles (TimelineRuns.listener_of TimelineRuns.ByInitTimeline false) = false ->
     TimelineRuns.dispatch [TimelineRuns.ByInitTimeline] 1 false Fixtures.two_items
     = Fixtures.two_items).
Proof.
  apply (accordion_single_open [TimelineRuns.ByReinitializeScripts]
           TimelineRuns.ByInitTimeline false Fixtures.two_items 0 1).
  - cbn. lia.
  - cbn. lia.
  - vm_compute. lia.
Defined.

(** The claim as the spec words it fails in two ways on a page with item
    0 open and item 1 closed.  By design: a click inside a
    [.timeline-link] of the header of item 1 leaves item 0 open and
    item 1 closed.  And on a header that has stayed in the document
    through one content swap, so that it carries both listeners: a click
    on closed item 1 leaves it closed, a click on open item 0 leaves it
    open. *)
Lemma accordion_single_open_counterexample :
  (active_at (items (TimelineRuns.dispatch [TimelineRuns.ByInitTimeline]
                       1 true Fixtures.two_items)) 1 = false /\
   active_at (items (TimelineRuns.dispatch [TimelineRuns.ByInitTimeline]
                       1 true Fixtures.two_items)) 0 = true) /\
  (active_at (items (TimelineRuns.dispatch (TimelineRuns.registered_after 1)
                       1 false Fixtures.two_items)) 1 = false /\
   active_at (items (TimelineRuns.dispatch (TimelineRuns.registered_after 1)
                       0 false Fixtures.two_items)) 0 = true).
Proof. vm_compute. by repeat split. Qed.

(** X7.  The listener registered after a content swap computes the same
    class lists as the original one (for a click that reaches the
    toggle), on any list of items and for any index; it differs only in
    never arming the scroll timer. *)
Theorem listeners_agree (i : nat) (d : dom) :
  items (header_click_reinit i d) = items (header_click i false d) /\
  timers (header_click_reinit i d) = timers d.
Proof.
  unfold header_click_reinit, header_click.
  destruct (items d !! i) as [it|] eqn:Hit; [|done].
  destruct (is_active it) eqn:Hact; cbn [negb items timers set_items]; (split; [|done]).
  - apply list_eq. intros j. unfold close_all.
    rewrite list_lookup_fmap. destruct (decide (j = i)) as [->|Hne].
    + rewrite list_lookup_alter_eq, close_others_lookup, Hit. cbn.
      by rewrite decide_True.
    + rewrite list_lookup_alter_ne, close_others_lookup by congruence.
      destruct (items d !! j); [|done]. cbn. by rewrite decide_False.
  - apply list_eq. intros j. unfold close_all.
    destruct (decide (j = i)) as [->|Hne].
    + rewrite !list_lookup_alter_eq, list_lookup_fmap, close_others_lookup, Hit. cbn.
      rewrite decide_True by done. f_equal. unfold item_add, item_remove. cbn.
      by rewrite add_after_remove.
    + rewrite !list_lookup_alter_ne, list_lookup_fmap, close_others_lookup by congruence.
      destruct (items d !! j); [|done]. cbn. by rewrite decide_False.
Qed.

(** X8.  With both listeners on one header, the original one running
    first, a click undoes itself: afterwards the clicked item is active
    exactly when it was active before, and every other item is closed.  A
    closed item can then not be opened. *)
Theorem both_listeners_undo (i : nat) (d : dom) :
  i < length (items d) ->
  forall j,
    active_at (items (click FromReinitialize i (click (FromInitTimeline false) i d))) j
    = bool_decide (j = i) && active_at (items d) i.
Proof.
  intros Hi j.
  assert (Hi' : i < length (items (click (FromInitTimeline false) i d)))
    by (by rewrite length_click).
  rewrite (active_at_click FromReinitialize i _ j Hi' eq_refl).
  rewrite (active_at_click (FromInitTimeline false) i d i Hi eq_refl).
  rewrite (bool_decide_eq_true_2 (i = i)) by done. cbn.
  by rewrite negb_involutive.
Qed.

Lemma both_listeners_undo_witness :
  active_at (items (click FromReinitialize 1
                      (click (FromInitTimeline false) 1 Fixtures.two_items))) 1
  = bool_decide (1 = 1) && active_at (items Fixtures.two_items) 1.
Proof. apply (both_listeners_undo 1 Fixtures.two_items); cbn; lia. Defined.

(** X24.  The accordion repairs itself: after one click that reaches
    the toggle at most one item is active, also when the markup had
    several items open. *)
Theorem click_restores_single_open (k : listener) (i : nat) (d : dom) :
  i < length (items d) -> toggles k = true ->
  active_count (items (click k i d)) <= 1.
Proof.
  intros Hi Ht. apply (active_count_le_1 _ i). intros j Hne.
  rewrite active_at_click by done.
  by rewrite bool_decide_eq_false_2.
Qed.

Lemma click_restores_single_open_witness :
  active_count (items (click (FromInitTimeline false) 2 Scenes.career)) <= 1.
Proof. apply click_restores_single_open; [cbn; lia | reflexivity]. Defined.

Lemma container_click k i d : container (click k i d) = container d.
Proof.
  destruct k as [[]|]; cbn [click]; unfold header_click, header_click_reinit;
    try done; destruct (items d !! i) as [it|]; try done;
    by destruct (is_active it).
Qed.

Lemma fire_timer_guarded d c :
  container d = Some c ->
  exists d', fire_timer d = Normal d' /\ container d' = Some c /\ items d' = items d.
Proof.
  intros Hc. unfold fire_timer. destruct (timers d) as [|i rest]; [by exists d|].
  unfold scroll_callback. cbn [items container].
  destruct (items d !! i) as [it|]; [|by eexists]. rewrite Hc.
  destruct (Qle_bool (bottom it) c); by eexists.
Qed.

(** X25.  With a [.timeline-container] on the page nothing ever throws:
    any sequence of header clicks, through either listener, and of timer
    expiries runs to the end, and the items are as many as before. *)
Theorem container_present_never_throws (acts : list TimelineRuns.action) (d : dom) (c : Q) :
  container d = Some c ->
  exists d', TimelineRuns.play acts d = Normal d' /\
             container d' = Some c /\ length (items d') = length (items d).
Proof.
  revert d. induction acts as [|a acts IH]; intros d Hc; [by exists d|].
  cbn [TimelineRuns.play]. destruct a as [k i|]; cbn [TimelineRuns.act].
  - destruct (IH (click k i d)) as (d' & E & Hc' & Hl).
    { by rewrite container_click. }
    exists d'. by rewrite <- (length_click k i d).
  - destruct (fire_timer_guarded d c Hc) as (d1 & -> & Hc1 & Hi1).
    destruct (IH d1 Hc1) as (d' & E & Hc' & Hl).
    exists d'. by rewrite <- Hi1.
Qed.

Lemma container_present_never_throws_witness :
  exists d',
    TimelineRuns.play
      [TimelineRuns.Press (FromInitTimeline false) 2; TimelineRuns.Tick;
       TimelineRuns.Press FromReinitialize 0; TimelineRuns.Tick]
      Scenes.career = Normal d' /\
    container d' = Some 500%Q /\ length (items d') = length (items Scenes.career).
Proof. apply container_present_never_throws. reflexivity. Defined.

(** X26.  Closing an item does not cancel its scroll timer: an item that
    reaches below the container and is opened and closed again by two
    clicks is still scrolled into view when the timer fires, although it
    is closed by then. *)
Theorem close_keeps_scroll_timer (i : nat) (d : dom) (it : item) (c : Q) :
  items d !! i = Some it -> is_active it = false ->
  timers d = [] -> container d = Some c -> (c < bottom it)%Q ->
  exists d',
    TimelineRuns.play
      [TimelineRuns.Press (FromInitTimeline false) i;
       TimelineRuns.Press (FromInitTimeline false) i; TimelineRuns.Tick] d = Normal d' /\
    active_at (items d') i = false /\ scrolled d' = (scrolled d ++ [i])%list.
Proof.
  intros Hit Hact Ht Hc Hlt.
  assert (Hi : i < length (items d)) by by apply lookup_lt_Some in Hit.
  cbn [TimelineRuns.play TimelineRuns.act click].
  set (d1 := header_click i false d).
  assert (H1 : items d1 !! i = Some (item_add "active" it) /\
               timers d1 = [i] /\ container d1 = Some c /\ scrolled d1 = scrolled d).
  { unfold d1, header_click. rewrite Hit, Hact. cbn [items timers container scrolled].
    rewrite list_lookup_alter_eq, close_others_lookup, Hit. cbn.
    rewrite decide_True by done. by rewrite Ht. }
  destruct H1 as (Hit1 & Ht1 & Hc1 & Hs1). clearbody d1.
  set (d2 := header_click i false d1).
  assert (H2 : items d2 !! i = Some (item_remove "active" (item_add "active" it)) /\
               timers d2 = [i] /\ container d2 = Some c /\ scrolled d2 = scrolled d).
  { unfold d2, header_click. rewrite Hit1, active_after_add.
    cbn [items timers container scrolled set_items].
    rewrite list_lookup_alter_eq, close_others_lookup, Hit1. cbn.
    by rewrite decide_True by done. }
  destruct H2 as (Hit2 & Ht2 & Hc2 & Hs2). clearbody d2.
  unfold fire_timer. rewrite Ht2. unfold scroll_callback. cbn [items container scrolled timers].
  rewrite Hit2, Hc2. cbn [bottom item_remove item_add].
  assert (Hb : Qle_bool (bottom it) c = false).
  { apply not_true_is_false. intros H%Qle_bool_iff. by apply (Qlt_not_le c (bottom it)). }
  rewrite Hb. eexists. split; [reflexivity|]. cbn [items scrolled].
  split; [|by rewrite Hs2].
  unfold active_at. rewrite Hit2. apply active_after_remove.
Qed.

Lemma close_keeps_scroll_timer_witness :
  exists d',
    TimelineRuns.play
      [TimelineRuns.Press (FromInitTimeline false) 2;
       TimelineRuns.Press (FromInitTimeline false) 2; TimelineRuns.Tick]
      Scenes.career = Normal d' /\
    active_at (items d') 2 = false /\ scrolled d' = (scrolled Scenes.career ++ [2])%list.
Proof.
  apply (close_keeps_scroll_timer 2 Scenes.career (Item {[ "timeline-item" ]} true 620) 500);
    [reflexivity | vm_compute; reflexivity | reflexivity | reflexivity | reflexivity].
Defined.

End TimelineMore.

(** ** More on page transitions *)

Module TransitionMore.
Import Transitions TransitionNotions TransitionFacts.
Local Open Scope nat_scope.

(** *** The splice, region by region *)

Lemma splice_main_keeps nd d :
  header (splice_main nd d) = header d /\ nav (splice_main nd d) = nav d.
Proof. unfold splice_main. by destruct (main d), (main nd). Qed.

Lemma splice_header_keeps nd d :
  nav (splice_header nd d) = nav d /\
  (header (splice_header nd d) = None <-> header d = None).
Proof.
  unfold splice_header.
  destruct (header d) as [x|] eqn:E, (header nd) as [y|]; cbn; rewrite ?E;
    (split; [reflexivity|]; split; intros H; (discriminate H || reflexivity)).
Qed.

(** X9.  How the nav region is reconciled by a splice: when the page has
    a header or already has a nav, the nav region afterwards is the one of
    the fetched document (inserted, replaced or removed); when the page
    has neither, a nav of the fetched document is dropped. *)
Theorem nav_follows_fetched (nd : document) (s : page) :
  (header (doc s) ≠ None \/ nav (doc s) ≠ None ->
     nav (doc (splice nd s)) = nav nd) /\
  (header (doc s) = None -> nav (doc s) = None ->
     nav (doc (splice nd s)) = None).
Proof.
  unfold splice. cbn.
  set (d0 := on_body _ (set_body_className _ (set_title _ (doc s)))).
  assert (Hh0 : header d0 = header (doc s)) by reflexivity.
  assert (Hn0 : nav d0 = nav (doc s)) by reflexivity.
  destruct (splice_main_keeps nd d0) as [Hh1 Hn1].
  destruct (splice_header_keeps nd (splice_main nd d0)) as [Hn2 Hh2].
  rewrite Hh1, Hh0 in Hh2. rewrite Hn1, Hn0 in Hn2.
  unfold splice_nav. rewrite Hn2.
  split.
  - intros Hsome.
    destruct (nav nd) as [n|], (nav (doc s)) as [c|]; try done.
    destruct (header (splice_header nd (splice_main nd d0))) eqn:Hh; [done|].
    destruct Hsome as [Hsome | Hsome]; [|done].
    exfalso. apply Hsome. by apply Hh2.
  - intros Hnh Hnn. rewrite Hnn.
    destruct (nav nd) as [n|]; [|by rewrite Hn2].
    rewrite (proj2 Hh2 Hnh). by rewrite Hn2.
Qed.

Lemma nav_follows_fetched_witness :
  nav (doc (splice (Fixtures.parse_bare "About")
              (loaded Fixtures.site Fixtures.home))) = None.
Proof.
  apply (proj1 (nav_follows_fetched (Fixtures.parse_bare "About")
                  (loaded Fixtures.site Fixtures.home))).
  left. discriminate.
Defined.

(** X10.  Splicing the same fetched document a second time changes
    nothing. *)
Theorem splice_idempotent (nd : document) (s : page) :
  splice nd (splice nd s) = splice nd s.
Proof.
  destruct s as [f l es i d sc p fs n c r].
  destruct d as [t b m hd nv ov], nd as [t' b' m' hd' nv' ov'].
  destruct m, m', hd, hd', nv, nv'; reflexivity.
Qed.

(** *** The visual state *)

Lemma rest_after_closing (t : task) (s : page) :
  at_rest (doc (cleanup (set_pending [] (enter t s)))).
Proof.
  unfold at_rest, cleanup, enter. cbn. repeat split.
  - rewrite contains_add_ne by done. apply contains_remove.
  - apply contains_add.
  - destruct (main (doc s)) as [m0|]; cbn in *; [|done].
    injection H as <-. cbn.
    rewrite contains_remove_ne, contains_add_ne by done. apply contains_remove.
  - destruct (main (doc s)) as [m0|]; cbn in *; [|done].
    injection H as <-. cbn. apply contains_remove.
  - intros o Ho. destruct (overlay (doc s)) as [o0|]; cbn in *; [|done].
    injection Ho as <-. apply contains_remove.
Qed.

Lemma exiting_begin_exit (s : page) : exiting (doc (begin_exit s)).
Proof.
  unfold exiting, begin_exit. cbn. repeat split.
  - rewrite contains_remove_ne by done. apply contains_add.
  - apply contains_remove.
  - intros m Hm. destruct (main (doc s)) as [m0|]; cbn in *; [|done].
    injection Hm as <-. apply contains_add.
  - intros o Ho. destruct (overlay (doc s)) as [o0|]; cbn in *; [|done].
    injection Ho as <-. apply contains_add.
Qed.

(** *** Along the event loop *)

Section LoopMore.

Variable resolve : url -> string -> url.
Variable parseFromString : string -> document.

Local Abbreviation step := (Transitions.step resolve parseFromString).
Local Abbreviation run := (Transitions.run resolve parseFromString).
Local Abbreviation run_task := (Transitions.run_task resolve parseFromString).
Local Abbreviation awaiting := (Transitions.awaiting resolve).
Local Abbreviation pushed := (Transitions.pushed resolve).

Lemma run_app es1 es2 s : run (es1 ++ es2) s = run es2 (run es1 s).
Proof. unfold Transitions.run. apply foldl_app. Qed.

(** The history is untouched. *)
Definition same_history (s s' : page) : Prop :=
  entries s' = entries s /\ index s' = index s /\ location s' = location s.

Lemma anchored_same s s' : same_history s s' -> anchored s -> anchored s'.
Proof. intros (He & Hi & Hl) (e & Hs & Hu). exists e. by rewrite He, Hi, Hl. Qed.

Lemma anchored_pushed h s : anchored s -> anchored (pushed h s).
Proof.
  intros (e & Hs & _). exists (Entry (Some h) (resolve (location s) h)).
  split; [|reflexivity]. cbn.
  apply lookup_lt_Some in Hs.
  rewrite lookup_app_r by (rewrite length_take; lia).
  rewrite length_take. by replace (S (index s) - S (index s) `min` length (entries s)) with 0 by lia.
Qed.

Lemma click_same_history t s : same_history s (snd (handleLinkClick t s)).
Proof.
  destruct t as [l|]; [|done].
  destruct (skipped l s) eqn:Hskip.
  - by rewrite skipped_click.
  - by destruct (passing_click l s Hskip) as (h & _ & _ & ->).
Qed.

Lemma pop_handler_same_history s : same_history s (handlePopState s).
Proof. unfold handlePopState. by destruct (isTransitioning s). Qed.

Lemma anchored_run_task t r s : anchored s -> anchored (run_task t r s).
Proof.
  intros Hs. destruct t; cbn; try (by apply (anchored_same s)).
  - unfold fetch_settled, updatePage, pushState.
    destruct r as [|[] html]; try (by apply (anchored_same s)).
    destruct (same_origin _ _); [|by apply (anchored_same s)].
    apply (anchored_same (pushed u s)); [done|]. by apply anchored_pushed.
  - destruct r; by apply (anchored_same s).
Qed.

Lemma anchored_step e s : anchored s -> anchored (step e s).
Proof.
  intros Hs. destruct e as [t | i | n r]; cbn.
  - apply (anchored_same s); [apply click_same_history | done].
  - unfold traverse. destruct (entries s !! i) as [e|] eqn:He; [|done].
    apply (anchored_same (set_location (entry_url e) (set_index i s)));
      [apply pop_handler_same_history|].
    by exists e.
  - destruct (pending s !! n); [|done].
    apply anchored_run_task. by apply (anchored_same s).
Qed.

Lemma anchored_loaded at_ d : anchored (loaded at_ d).
Proof. unfold loaded, init. cbn. destruct (overlay d); by exists (Entry None at_). Qed.

Lemma anchored_run (es : list event) (at_ : url) (d : document) :
  anchored (run es (loaded at_ d)).
Proof.
  induction es as [|e es IH] using rev_ind.
  - apply anchored_loaded.
  - rewrite run_app. cbn. by apply anchored_step.
Qed.

(** X11.  On every page the event loop can reach, the session history
    has a current entry and the address is that entry's URL: no handler
    moves the one without the other. *)
Theorem history_anchored (es : list event) (at_ : url) (d : document) :
  anchored (run es (loaded at_ d)).
Proof. apply anchored_run. Qed.

(** *** No retry *)

Ltac tally :=
  cbn; rewrite ?length_app; cbn;
  repeat (case_decide; try discriminate); cbn; try lia.

Lemma budget_begin t s :
  pending s = [] ->
  fetch_budget (schedule t (begin_exit (set_isTransitioning true s)))
  <= fetch_budget s + 1.
Proof.
  intros Hp. unfold fetch_budget. cbn. rewrite Hp.
  destruct t; tally.
Qed.

Lemma budget_run_task t r s :
  pending s = [] ->
  fetch_budget (run_task t r s) <= fetch_budget s + (if is_exit_timer t then 1 else 0).
Proof.
  intros Hp. unfold fetch_budget.
  destruct t; cbn; rewrite ?Hp; tally.
  - unfold fetch_settled, updatePage, pushState.
    destruct r as [|[] html]; cbn; rewrite ?Hp; tally.
    destruct (same_origin _ _); cbn; rewrite ?Hp; tally.
  - destruct r; cbn; rewrite ?Hp; tally.
Qed.

Lemma budget_step e s :
  single s ->
  fetch_budget (step e s) <= fetch_budget s + (if is_navigation e then 1 else 0).
Proof.
  intros [Hle Hidle]. destruct e as [t | i | n r]; cbn.
  - destruct t as [l|]; [|cbn; lia].
    destruct (skipped l s) eqn:Hskip.
    + rewrite skipped_click by done. cbn. lia.
    + destruct (passing_click l s Hskip) as (h & _ & Hflag & ->). cbn [snd].
      by apply budget_begin, Hidle.
  - unfold traverse. destruct (entries s !! i) as [e|]; [|lia].
    unfold handlePopState. cbn [isTransitioning set_location set_index].
    destruct (isTransitioning s) eqn:Hflag.
    + cbn. unfold fetch_budget. cbn. lia.
    + etransitivity; [apply budget_begin; cbn; by apply Hidle|].
      unfold fetch_budget. cbn. lia.
  - destruct (pending s !! n) as [t|] eqn:Hn; [|lia].
    unfold in_progress in Hle.
    destruct (pending s) as [|t0 [|t1 rest]] eqn:Hp; [done| |cbn in Hle; lia].
    destruct n as [|n]; [|done]. injection Hn as ->.
    pose proof (budget_run_task t r (set_pending (delete 0 [t]) s) eq_refl) as Hb.
    unfold fetch_budget at 2 in Hb. cbn in Hb.
    unfold fetch_budget at 2. rewrite Hp.
    destruct (is_exit_timer t) eqn:Ht.
    + rewrite filter_cons_True by done. cbn. lia.
    + rewrite filter_cons_False by congruence. cbn. lia.
Qed.

Lemma navigations_snoc es e :
  navigations (es ++ [e]) = navigations es + (if is_navigation e then 1 else 0).
Proof.
  unfold navigations. rewrite filter_app, length_app.
  destruct (is_navigation e) eqn:He.
  - by rewrite filter_cons_True.
  - rewrite filter_cons_False by congruence. reflexivity.
Qed.

(** X12.  No retry: along every sequence of events from a freshly loaded
    page, the number of fetches issued is at most the number of link
    clicks and history pops among the events. *)
Theorem at_most_one_fetch_per_navigation (es : list event) (at_ : url) (d : document) :
  length (fetches (run es (loaded at_ d))) <= navigations es.
Proof.
  assert (H : fetch_budget (run es (loaded at_ d)) <= navigations es).
  { induction es as [|e es IH] using rev_ind.
    - unfold fetch_budget, loaded, init. cbn. destruct (overlay d); cbn; lia.
    - rewrite run_app, navigations_snoc. cbn [Transitions.run foldl].
      pose proof (budget_step e (run es (loaded at_ d))
                    (single_run resolve parseFromString es _ (single_loaded at_ d))).
      lia. }
  unfold fetch_budget in H. lia.
Qed.

(** *** Whole transitions *)

Lemma pop_closing_timers (r1 r2 : fetch_result) (s : page) :
  pending s = [] ->
  run [Settle 0 r1; Settle 0 r2] (schedule PopEnterTimer s) =
  cleanup (set_pending [] (enter PopCleanupTimer s)).
Proof. intros Hp. destruct s. cbn in Hp. subst. reflexivity. Qed.

Lemma closed_fields (t : task) (s : page) :
  pending (cleanup (set_pending [] (enter t s))) = [] /\
  isTransitioning (cleanup (set_pending [] (enter t s))) = false /\
  entries (cleanup (set_pending [] (enter t s))) = entries s /\
  index (cleanup (set_pending [] (enter t s))) = index s /\
  location (cleanup (set_pending [] (enter t s))) = location s.
Proof. by repeat split. Qed.

Lemma reachable_idle es at_ d (l : link) :
  skipped l (run es (loaded at_ d)) = false -> pending (run es (loaded at_ d)) = [].
Proof.
  intros H. apply idle_reachable. by apply (passing_click_idle l).
Qed.

(** X13.  A link-click transition that succeeds ends at rest: when the
    click, the exit timer, the successful response and the two closing
    timers have run, the flag is lowered, nothing is pending, the body is
    marked loaded and no longer transitioning, the overlay is hidden and
    the main region carries neither the exit nor the entrance class. *)
Theorem link_transition_ends_at_rest
    (es : list event) (at_ : url) (d : document)
    (l : link) (h html : string) (r0 r1 r2 : fetch_result) :
  let s := run es (loaded at_ d) in
  href l = Some h -> skipped l s = false ->
  same_origin (resolve (location s) h) (location s) = true ->
  let s' := run [Click (Some l); Settle 0 r0; Settle 0 (Response true html);
                 Settle 0 r1; Settle 0 r2] s in
  isTransitioning s' = false /\ pending s' = [] /\ at_rest (doc s').
Proof.
  intros s Hh Hskip Horigin s'.
  assert (Hp : pending s = []) by by apply (reachable_idle _ _ _ l).
  assert (Hs' : s' = cleanup (set_pending []
                  (enter CleanupTimer (splice (parseFromString html) (pushed h (awaiting h s)))))).
  { unfold s'.
    change [Click (Some l); Settle 0 r0; Settle 0 (Response true html); Settle 0 r1; Settle 0 r2]
      with ([Click (Some l); Settle 0 r0; Settle 0 (Response true html)]
            ++ [Settle 0 r1; Settle 0 r2])%list.
    rewrite run_app, (click_then_fetch resolve parseFromString l h) by done.
    rewrite update_succeeds by exact Horigin.
    apply closing_timers.
    rewrite (proj1 (proj2 (proj2 (proj2 (splice_fields _ _))))). exact Hp. }
  clearbody s s'. subst s'.
  destruct (closed_fields CleanupTimer
              (splice (parseFromString html) (pushed h (awaiting h s))))
    as (-> & -> & _).
  split; [done|]. split; [done|]. apply rest_after_closing.
Qed.

(** X14.  A history pop whose fetch is answered, with whatever status,
    ends at rest as well, showing the title of the response; and it
    leaves the session history alone: the entries are those before the
    pop, the current index and the address are those the browser moved
    to. *)
Theorem pop_transition_ends_at_rest
    (es : list event) (at_ : url) (d : document)
    (i : nat) (e : entry) (ok : bool) (html : string) (r0 r1 r2 : fetch_result) :
  let s := run es (loaded at_ d) in
  isTransitioning s = false -> entries s !! i = Some e ->
  let s' := run [PopState i; Settle 0 r0; Settle 0 (Response ok html);
                 Settle 0 r1; Settle 0 r2] s in
  (isTransitioning s' = false /\ pending s' = [] /\ at_rest (doc s') /\
   title (doc s') = title (parseFromString html)) /\
  (entries s' = entries s /\ index s' = i /\ location s' = entry_url e).
Proof.
  intros s Hflag He s'.
  assert (Hp : pending s = []) by by apply idle_reachable.
  assert (Hs' : s' = cleanup (set_pending []
                  (enter PopCleanupTimer
                     (splice (parseFromString html) (pop_awaiting i e s))))).
  { unfold s'.
    change [PopState i; Settle 0 r0; Settle 0 (Response ok html); Settle 0 r1; Settle 0 r2]
      with ([PopState i; Settle 0 r0; Settle 0 (Response ok html)]
            ++ [Settle 0 r1; Settle 0 r2])%list.
    rewrite run_app, (pop_then_fetch resolve parseFromString i e) by done.
    cbn [pop_settled].
    apply pop_closing_timers.
    rewrite (proj1 (proj2 (proj2 (proj2 (splice_fields _ _))))).
    by rewrite (proj1 (pop_awaiting_fields i e s)). }
  clearbody s s'. subst s'.
  destruct (closed_fields PopCleanupTimer
              (splice (parseFromString html) (pop_awaiting i e s)))
    as (-> & -> & -> & -> & ->).
  destruct (closed_transition PopCleanupTimer
              (splice (parseFromString html) (pop_awaiting i e s)))
    as (_ & -> & _).
  destruct (splice_fields (parseFromString html) (pop_awaiting i e s))
    as (-> & -> & -> & _).
  rewrite title_splice.
  split; [|by repeat split].
  split; [done|]. split; [done|]. split; [apply rest_after_closing | done].
Qed.

(** X15.  A link the filter lets through although its address is not
    same-origin with the page can never be swapped in: whatever the fetch
    returns, also a successful response, the handler ends in the fallback,
    a full navigation to the [href], with the title, the history and the
    address of the page as they were and nothing pending. *)
Theorem cross_origin_never_swaps
    (es : list event) (at_ : url) (d : document)
    (l : link) (h : string) (r0 r : fetch_result) :
  let s := run es (loaded at_ d) in
  href l = Some h -> skipped l s = false ->
  same_origin (resolve (location s) h) (location s) = false ->
  let s' := run [Click (Some l); Settle 0 r0; Settle 0 r] s in
  navigation s' = Some (Assign h) /\ pending s' = [] /\
  title (doc s') = title (doc s) /\
  entries s' = entries s /\ index s' = index s /\ location s' = location s.
Proof.
  intros s Hh Hskip Horigin s'.
  assert (Hp : pending s = []) by by apply (reachable_idle _ _ _ l).
  assert (Hs' : s' = fallback h (awaiting h s)).
  { unfold s'. rewrite (click_then_fetch resolve parseFromString l h) by done.
    unfold fetch_settled, updatePage, pushState.
    change (location (awaiting h s)) with (location s). rewrite Horigin.
    by destruct r as [|[] html]. }
  clearbody s s'. subst s'.
  destruct (fallback_fields h (awaiting h s)) as (-> & -> & -> & -> & ->).
  destruct (awaiting_fields resolve h s) as (-> & -> & -> & -> & _).
  repeat split. exact Hp.
Qed.

(** X16.  After a failed link fetch the page is still in its exit state:
    the flag is raised, nothing is pending that would lower it, the body
    is marked transitioning, the overlay is shown and the main region is
    faded out.  Only the navigation the handler requested ends this. *)
Theorem failed_fetch_stays_exiting
    (es : list event) (at_ : url) (d : document)
    (l : link) (h : string) (r0 r : fetch_result) :
  let s := run es (loaded at_ d) in
  href l = Some h -> skipped l s = false -> failed r = true ->
  let s' := run [Click (Some l); Settle 0 r0; Settle 0 r] s in
  isTransitioning s' = true /\ pending s' = [] /\ exiting (doc s') /\
  navigation s' = Some (Assign h).
Proof.
  intros s Hh Hskip Hfail s'.
  assert (Hp : pending s = []) by by apply (reachable_idle _ _ _ l).
  assert (Hs' : s' = fallback h (awaiting h s))
    by by apply (transition_fails resolve parseFromString).
  clearbody s s'. subst s'.
  split; [reflexivity|]. split; [exact Hp|]. split; [|reflexivity].
  apply (exiting_begin_exit (set_isTransitioning true s)).
Qed.

(** X17.  The push of a successful update makes the new entry the last
    one, on every page the event loop can reach and in every schedule:
    when the response of a link fetch arrives, whatever lies ahead of
    the entry that is current at that moment is dropped, everything up
    to that entry is kept, and the new entry, with the state
    [{url: href}], becomes the current one.  The current entry is the
    one the click started from unless the user has traversed the history
    since. *)
Theorem push_drops_forward_history
    (es : list event) (at_ : url) (d : document)
    (n : nat) (h html : string) :
  let s := run es (loaded at_ d) in
  pending s !! n = Some (Fetching h) ->
  same_origin (resolve (location s) h) (location s) = true ->
  let s' := step (Settle n (Response true html)) s in
  length (entries s') = S (index s') /\
  index s' = S (index s) /\
  take (S (index s)) (entries s') = take (S (index s)) (entries s) /\
  current_entry s' = Some (Entry (Some h) (resolve (location s) h)).
Proof.
  intros s Hn Horigin s'.
  destruct (anchored_run es at_ d) as (e & He & _). fold s in He.
  apply lookup_lt_Some in He.
  set (s0 := set_pending (delete n (pending s)) s).
  assert (F0 : location s0 = location s /\ entries s0 = entries s /\ index s0 = index s)
    by by repeat split.
  destruct F0 as (Hl0 & He0 & Hi0).
  assert (Hs' : s' = schedule EnterTimer (splice (parseFromString html) (pushed h s0))).
  { unfold s', Transitions.step. rewrite Hn. cbn [Transitions.run_task]. fold s0.
    apply update_succeeds. by rewrite Hl0. }
  clearbody s0 s s'. subst s'. unfold current_entry.
  destruct (schedule_fields EnterTimer (splice (parseFromString html) (pushed h s0)))
    as (_ & -> & -> & _).
  destruct (splice_fields (parseFromString html) (pushed h s0)) as (_ & -> & -> & _).
  destruct (pushed_fields resolve h s0) as (_ & -> & -> & _).
  rewrite Hl0, He0, Hi0.
  assert (Hlen : length (take (S (index s)) (entries s)) = S (index s))
    by (rewrite length_take_le; lia).
  split; [rewrite length_app, Hlen; cbn; lia|].
  split; [done|].
  split.
  - apply take_app_length'. by rewrite Hlen.
  - rewrite lookup_app_r by lia. by rewrite Hlen, Nat.sub_diag.
Qed.

End LoopMore.

End TransitionMore.

Module TransitionMoreExamples.
Import Transitions TransitionNotions TransitionFacts TransitionMore Fixtures Scenes.
Local Open Scope nat_scope.

Example went_back_history :
  let s := run resolve_path parse_bare went_back (loaded site home) in
  length (entries s) = 2 /\ index s = 0 /\ title (doc s) = "Home" /\
  length (fetches s) = 2.
Proof. vm_compute. by repeat split. Qed.

Lemma link_transition_ends_at_rest_witness :
  let s := run resolve_path parse_bare [] (loaded site home) in
  let s' := run resolve_path parse_bare
              [Click (Some about_link); Settle 0 NetworkError;
               Settle 0 (Response true "About");
               Settle 0 NetworkError; Settle 0 NetworkError] s in
  isTransitioning s' = false /\ pending s' = [] /\ at_rest (doc s').
Proof.
  apply (link_transition_ends_at_rest resolve_path parse_bare [] site home about_link
           "/about.html" "About" NetworkError NetworkError NetworkError);
    [reflexivity | vm_compute; reflexivity | vm_compute; reflexivity].
Defined.

Lemma pop_transition_ends_at_rest_witness :
  let s := run resolve_path parse_bare visit_about (loaded site home) in
  let s' := run resolve_path parse_bare
              [PopState 0; Settle 0 NetworkError; Settle 0 (Response false "Not Found");
               Settle 0 NetworkError; Settle 0 NetworkError] s in
  (isTransitioning s' = false /\ pending s' = [] /\ at_rest (doc s') /\
   title (doc s') = title (parse_bare "Not Found")) /\
  (entries s' = entries s /\ index s' = 0 /\ location s' = entry_url (Entry None site)).
Proof.
  apply (pop_transition_ends_at_rest resolve_path parse_bare visit_about site home
           0 (Entry None site) false "Not Found" NetworkError NetworkError NetworkError);
    vm_compute; reflexivity.
Defined.

Lemma cross_origin_never_swaps_witness :
  let s := run resolve_staging parse_bare [] (loaded site home) in
  let s' := run resolve_staging parse_bare
              [Click (Some staging_link); Settle 0 NetworkError;
               Settle 0 (Response true "About")] s in
  navigation s' = Some (Assign "http://example.com:8080/about.html") /\
  pending s' = [] /\ title (doc s') = title (doc s) /\
  entries s' = entries s /\ index s' = index s /\ location s' = location s.
Proof.
  apply (cross_origin_never_swaps resolve_staging parse_bare [] site home staging_link
           "http://example.com:8080/about.html" NetworkError (Response true "About"));
    [reflexivity | vm_compute; reflexivity | vm_compute; reflexivity].
Defined.

Lemma failed_fetch_stays_exiting_witness :
  let s := run resolve_path parse_bare [] (loaded site home) in
  let s' := run resolve_path parse_bare
              [Click (Some about_link); Settle 0 NetworkError; Settle 0 NetworkError] s in
  isTransitioning s' = true /\ pending s' = [] /\ exiting (doc s') /\
  navigation s' = Some (Assign "/about.html").
Proof.
  apply (failed_fetch_stays_exiting resolve_path parse_bare [] site home about_link
           "/about.html" NetworkError NetworkError);
    [reflexivity | vm_compute; reflexivity | reflexivity].
Defined.

Example pop_during_contact_visit :
  let s := run resolve_path parse_bare pop_during_visit (loaded site home) in
  index s = 0 /\ length (entries s) = 2 /\ pending s = [Fetching "/contact.html"].
Proof. vm_compute. by repeat split. Qed.

Lemma push_drops_forward_history_witness :
  let s := run resolve_path parse_bare pop_during_visit (loaded site home) in
  let s' := step resolve_path parse_bare (Settle 0 (Response true "Contact")) s in
  length (entries s') = S (index s') /\
  index s' = S (index s) /\
  take (S (index s)) (entries s') = take (S (index s)) (entries s) /\
  current_entry s' = Some (Entry (Some "/contact.html")
                             (resolve_path (location s) "/contact.html")).
Proof.
  apply (push_drops_forward_history resolve_path parse_bare pop_during_visit site home
           0 "/contact.html" "Contact");
    vm_compute; reflexivity.
Defined.

End TransitionMoreExamples.

(** ** Scroll animations *)

Module ScrollFacts.
Import ScrollAnimations.
Local Open Scope nat_scope.

Lemma shown_reveal e : shown (reveal e).
Proof.
  unfold shown, reveal.
  destruct (classList_contains "fade-in" (classList e)) eqn:E; cbn; rewrite ?E; cbn; [done|].
  rewrite contains_add_ne, E by done. apply contains_add.
Qed.

Lemma marked_reveal e : marked (reveal e) = marked e.
Proof.
  unfold marked, reveal.
  destruct (classList_contains "fade-in" (classList e)) eqn:E; cbn; rewrite ?E; [done|].
  by rewrite !contains_add_ne, E by done.
Qed.

Lemma fade_reveal e :
  classList_contains "fade-in" (classList (reveal e))
  = classList_contains "fade-in" (classList e).
Proof.
  unfold reveal.
  destruct (classList_contains "fade-in" (classList e)) eqn:E; cbn; rewrite ?E; [done|].
  by rewrite contains_add_ne, E by done.
Qed.

Lemma marked_prepare e : marked (if marked e then prepare e else e) = marked e.
Proof.
  unfold prepare. destruct (marked e) eqn:E; [|done].
  by destruct (classList_contains "fade-in" (classList e)).
Qed.

(** The selector result depends on the marks only. *)
Lemma targets_marks d :
  targets d = omap id (imap (fun i (b : bool) => if b then Some i else None)
                            (marked <$> elements d)).
Proof. unfold targets. by rewrite imap_fmap. Qed.

Lemma targets_marks_eq d d' :
  marked <$> elements d = marked <$> elements d' -> targets d = targets d'.
Proof. intros H. by rewrite !targets_marks, H. Qed.

Lemma marks_entry (entry : nat * bool) d :
  marked <$> elements (if snd entry
                       then Dom (alter reveal (fst entry) (elements d)) (observers d)
                       else d)
  = marked <$> elements d.
Proof.
  destruct (snd entry); [|done]. cbn.
  rewrite (list_fmap_alter marked reveal id).
  - apply list_alter_id. done.
  - apply Forall_forall. intros e _. apply marked_reveal.
Qed.

Lemma callback_snoc batch entry d :
  callback (batch ++ [entry]) d
  = let d' := callback batch d in
    if snd entry then Dom (alter reveal (fst entry) (elements d')) (observers d') else d'.
Proof. unfold callback. by rewrite foldl_app. Qed.

Lemma callback_marks batch d :
  marked <$> elements (callback batch d) = marked <$> elements d.
Proof.
  induction batch as [|entry batch IH] using rev_ind; [done|].
  rewrite callback_snoc. cbn zeta. by rewrite marks_entry.
Qed.

Lemma callback_observers batch d : observers (callback batch d) = observers d.
Proof.
  induction batch as [|entry batch IH] using rev_ind; [done|].
  rewrite callback_snoc. cbn zeta. by destruct (snd entry).
Qed.

Lemma init_marks d :
  marked <$> elements (initScrollAnimations d) = marked <$> elements d.
Proof.
  unfold initScrollAnimations. destruct (targets d); [done|]. cbn.
  rewrite <- list_fmap_compose. apply list_fmap_ext. intros i e _. apply marked_prepare.
Qed.

Lemma perform_targets a d : targets (perform d a) = targets d.
Proof.
  apply targets_marks_eq. destruct a; [apply init_marks | apply callback_marks].
Qed.

Lemma init_observers d :
  targets d ≠ [] -> observers (initScrollAnimations d) = (observers d ++ [targets d])%list.
Proof. unfold initScrollAnimations. by destruct (targets d). Qed.

(** One entry of a batch, seen from one element. *)
Lemma entry_lookup (entry : nat * bool) d i e :
  elements d !! i = Some e ->
  exists e',
    elements (if snd entry
              then Dom (alter reveal (fst entry) (elements d)) (observers d)
              else d) !! i = Some e' /\
    (shown e -> shown e') /\
    (entry = (i, true) -> shown e') /\
    classList_contains "fade-in" (classList e')
    = classList_contains "fade-in" (classList e).
Proof.
  intros He. destruct entry as [j b]. cbn [fst snd].
  destruct b; [|exists e; by repeat split].
  cbn [elements]. destruct (decide (i = j)) as [->|Hne].
  - exists (reveal e). rewrite list_lookup_alter_eq, He.
    repeat split; auto using shown_reveal, fade_reveal.
  - exists e. rewrite list_lookup_alter_ne by done. repeat split; auto.
    intros [= ->]. done.
Qed.

Lemma callback_lookup batch d i e :
  elements d !! i = Some e ->
  exists e',
    elements (callback batch d) !! i = Some e' /\
    (shown e -> shown e') /\
    ((i, true) ∈ batch -> shown e') /\
    classList_contains "fade-in" (classList e')
    = classList_contains "fade-in" (classList e).
Proof.
  intros He. induction batch as [|entry batch IH] using rev_ind.
  - exists e. repeat split; auto. intros H. by apply elem_of_nil in H.
  - destruct IH as (e1 & H1 & Hkeep & Hin & Hfade).
    rewrite callback_snoc. cbn zeta.
    destruct (entry_lookup entry (callback batch d) i e1 H1) as (e2 & H2 & Hk2 & Hi2 & Hf2).
    exists e2. split; [exact H2|]. split; [auto|]. split; [|congruence].
    intros [H|H%list_elem_of_singleton]%elem_of_app; auto.
Qed.

(** X18.  An observer never hides anything: an element that is shown is
    still shown after any batch of entries, intersecting or not. *)
Theorem callback_never_hides (batch : list (nat * bool)) (d : dom) (i : nat) (e : element) :
  elements d !! i = Some e -> shown e ->
  exists e', elements (callback batch d) !! i = Some e' /\ shown e'.
Proof.
  intros He Hs. destruct (callback_lookup batch d i e He) as (e' & H & Hkeep & _).
  exists e'. auto.
Qed.

(** X19.  An element reported as intersecting anywhere in a batch is
    shown once the batch is handled, also when later entries of the same
    batch report it as not intersecting. *)
Theorem intersecting_target_shown
    (batch : list (nat * bool)) (d : dom) (i : nat) (e : element) :
  elements d !! i = Some e -> (i, true) ∈ batch ->
  exists e', elements (callback batch d) !! i = Some e' /\ shown e'.
Proof.
  intros He Hin. destruct (callback_lookup batch d i e He) as (e' & H & _ & Hi & _).
  exists e'. auto.
Qed.

(** X20.  Initialising again hides what an observer had revealed: after
    any batch, a call of [initScrollAnimations] puts every [.fade-in]
    element back to opacity 0, shifted down, and so not shown. *)
Theorem reinit_hides_revealed
    (batch : list (nat * bool)) (d : dom) (i : nat) (e : element) :
  elements d !! i = Some e ->
  classList_contains "fade-in" (classList e) = true ->
  exists e',
    elements (initScrollAnimations (callback batch d)) !! i = Some e' /\
    opacity e' = Some "0" /\ transform e' = Some "translateY(20px)" /\ ~ shown e'.
Proof.
  intros He Hfade.
  destruct (callback_lookup batch d i e He) as (e1 & H1 & _ & _ & Hf1).
  rewrite Hfade in Hf1.
  assert (Hm : marked e1 = true) by (unfold marked; by rewrite Hf1).
  assert (Ht : targets (callback batch d) ≠ []).
  { unfold targets. intros Hnil.
    assert (Hi : i ∈ omap id (imap (fun i e => if marked e then Some i else None)
                                   (elements (callback batch d)))).
    { apply list_elem_of_omap. exists (Some i). split; [|done].
      apply list_elem_of_lookup. exists i. by rewrite list_lookup_imap, H1; cbn; rewrite Hm. }
    rewrite Hnil in Hi. by apply elem_of_nil in Hi. }
  unfold initScrollAnimations.
  destruct (targets (callback batch d)) as [|t ts]; [done|]. cbn [elements].
  exists (prepare e1). rewrite list_lookup_fmap, H1. cbn. rewrite Hm.
  unfold prepare, shown. rewrite Hf1. cbn. rewrite Hf1. by repeat split.
Qed.

(** X21.  Observers pile up: on a page with at least one marked element,
    after any sequence of initialisations and observer reports there is
    one more observer for every initialisation, each observing exactly
    the marked elements, and none created earlier has been dropped. *)
Theorem observers_accumulate (acts : list action) (d : dom) :
  targets d ≠ [] ->
  observers (foldl perform d acts)
  = (observers d ++ replicate (inits acts) (targets d))%list /\
  targets (foldl perform d acts) = targets d.
Proof.
  intros Ht. induction acts as [|a acts IH] using rev_ind.
  - cbn. by rewrite app_nil_r.
  - destruct IH as [IHo IHt]. rewrite foldl_app. cbn [foldl].
    split; [|by rewrite perform_targets].
    unfold inits. rewrite filter_app, length_app. fold (inits acts).
    destruct a as [|batch]; cbn [perform].
    + rewrite init_observers by by rewrite IHt.
      rewrite IHo, IHt, <- app_assoc. f_equal.
      rewrite filter_cons_True by done. cbn [filter length].
      change (filter _ []) with (@nil action). cbn [length].
      by rewrite replicate_add.
    + rewrite callback_observers, IHo.
      rewrite filter_cons_False by done.
      change (filter _ []) with (@nil action). cbn [length].
      by rewrite Nat.add_0_r.
Qed.

End ScrollFacts.

Module ScrollExamples.
Import ScrollAnimations ScrollFacts Scenes.
Local Open Scope nat_scope.

Lemma callback_never_hides_witness :
  exists e',
    elements (callback [(1, false)] (callback [(1, true)] (initScrollAnimations article))) !! 1
    = Some e' /\ shown e'.
Proof.
  apply (callback_never_hides [(1, false)]
           (callback [(1, true)] (initScrollAnimations article)) 1
           (Element {[ "visible"; "card"; "slide-in-left" ]} None None None)).
  - vm_compute. f_equal.
  - vm_compute. reflexivity.
Defined.

Lemma intersecting_target_shown_witness :
  exists e',
    elements (callback [(0, true); (0, false)] (initScrollAnimations article)) !! 0
    = Some e' /\ shown e'.
Proof.
  apply (intersecting_target_shown [(0, true); (0, false)] (initScrollAnimations article) 0
           (Element {[ "fade-in" ]} (Some "0") (Some "translateY(20px)")
                    (Some "opacity 0.6s ease, transform 0.6s ease"))).
  - vm_compute. reflexivity.
  - apply list_elem_of_here.
Defined.

Lemma reinit_hides_revealed_witness :
  exists e',
    elements (initScrollAnimations (callback [(0, true)] article)) !! 0 = Some e' /\
    opacity e' = Some "0" /\ transform e' = Some "translateY(20px)" /\ ~ shown e'.
Proof.
  apply (reinit_hides_revealed [(0, true)] article 0 (Element {[ "fade-in" ]} None None None)).
  - reflexivity.
  - vm_compute. reflexivity.
Defined.

Lemma observers_accumulate_witness :
  observers (foldl perform article [Init; Observed [(0, true)]; Init])
  = (observers article ++ replicate 2 (targets article))%list /\
  targets (foldl perform article [Init; Observed [(0, true)]; Init]) = targets article.
Proof.
  apply (observers_accumulate [Init; Observed [(0, true)]; Init] article).
  vm_compute. discriminate.
Defined.

End ScrollExamples.
